(** * manufacturing_pipeline.py: a shallow embedding of the monthly
      manufacturing pipeline and the properties of its stages.

    The pipeline is pandas code.  A [DataFrame] is modelled as the ordered
    list of its column names together with the list of its rows, each row
    a finite map from column name to cell; a [Series] is the list of the
    cells of one column, in row order (rows are identified by position:
    every Series the pipeline assigns is computed from the frame it is
    assigned to).  Numeric cells are IEEE 754 binary64 numbers (pandas'
    float64, Rocq's primitive floats), whose NaN is the missing value of a
    numeric column.  A Python [str] is modelled by its UTF-8 encoding, a
    string of bytes; its characters are the groups of bytes that encode
    one code point each.  An exception raised by pandas (KeyError,
    TypeError, ValueError) is the result [None]. *)

From Stdlib Require Import ZArith Floats Ascii String Sorted.
From stdpp Require Import prelude strings gmap.

Local Open Scope string_scope.
Local Open Scope list_scope.

(** ** Cells, series and frames *)

(** A point in time as [pd.to_datetime] yields it, broken down. *)
Record timestamp := Timestamp {
  ts_year : Z;
  ts_month : Z;
  ts_day : Z;
  ts_nanos : Z
}.

Inductive cell :=
  | Num (x : float)               (* float64; NaN is the missing value *)
  | Str (s : string)              (* a Python str *)
  | Dt (t : option timestamp).    (* datetime64; None is NaT *)

Abbreviation Series := (list cell).
Abbreviation row := (gmap string cell).

Record DataFrame := mkDataFrame {
  columns : list string;
  rows : list row
}.

(** What Python and pandas do outside this repository and is not fixed
    by the pipeline: how Python prints a float that is not NaN and a
    timestamp; which values [pd.to_datetime(..., errors="coerce")] can
    parse (a value it cannot parse becomes NaT, here [None]); the upper
    case of one character, which [str.upper] takes from the Unicode
    tables and which can be several characters; and the value that the
    aggregation ["sum"] of a group returns for the numbers of the group
    that are not missing, in the order of the rows (0 for none; pandas
    adds them with a compensation term that depends on its version). *)
Class Pandas := {
  float_str : float → string;
  timestamp_str : timestamp → string;
  to_datetime : Series → list (option timestamp);
  py_upper : string → string;
  group_sum : list float → float
}.

(** [Series.isna] and [Series.notna] on one cell. *)
Definition isna (v : cell) : bool :=
  match v with
  | Num x => PrimFloat.is_nan x
  | Str _ => false
  | Dt t => match t with Some _ => false | None => true end
  end.

Definition notna (v : cell) : bool := negb (isna v).

(** The value of a numeric cell; arithmetic and ordering on a str or a
    datetime raise TypeError. *)
Definition as_num (v : cell) : option float :=
  match v with Num x => Some x | _ => None end.

(** [df[c]]: KeyError when the frame has no column [c]. *)
Definition getitem (df : DataFrame) (c : string) : option Series :=
  if decide (c ∈ columns df) then mapM (λ r : row, r !! c) (rows df) else None.

(** [df[c] = s]: replaces the column, or appends it when it is new;
    ValueError when the lengths differ. *)
Definition setitem (df : DataFrame) (c : string) (s : Series) : option DataFrame :=
  if decide (length s = length (rows df)) then
    Some {| columns := if decide (c ∈ columns df) then columns df
                       else columns df ++ [c];
            rows := zip_with (λ (r : row) v, <[c:=v]> r) (rows df) s |}
  else None.

(** [df[mask]] for a boolean mask with one entry per row. *)
Fixpoint mask_filter {A} (l : list A) (m : list bool) : list A :=
  match l, m with
  | x :: l', b :: m' => if b then x :: mask_filter l' m' else mask_filter l' m'
  | _, _ => []
  end.

Definition boolean_index (df : DataFrame) (m : list bool) : DataFrame :=
  {| columns := columns df; rows := mask_filter (rows df) m |}.

(** [m1 & m2] on masks. *)
Definition mask_and (m1 m2 : list bool) : list bool := zip_with andb m1 m2.

(** ** Task 2: text standardisation *)

(** The characters of a str.  In UTF-8 a code point is one byte that is
    no continuation byte (10xxxxxx), followed by its continuation bytes;
    [chars] cuts a string before every byte that is no continuation byte,
    and [join] puts the pieces together again. *)
Definition is_cont (a : ascii) : bool :=
  let n := nat_of_ascii a in ((128 <=? n) && (n <? 192))%nat.

Definition starts_char (c : string) : bool :=
  match c with
  | String a _ => negb (is_cont a)
  | EmptyString => false
  end.

Fixpoint chars (s : string) : list string :=
  match s with
  | EmptyString => []
  | String a s' =>
      match chars s' with
      | c :: cs => if starts_char c then String a EmptyString :: c :: cs
                   else String a c :: cs
      | [] => [String a EmptyString]
      end
  end.

Definition join (cs : list string) : string := foldr String.append EmptyString cs.

(** The UTF-8 encoding of a code point. *)
Definition utf8 (n : N) : string :=
  let b (k : N) := ascii_of_N k in
  (if n <? 0x80 then String (b n) EmptyString
   else if n <? 0x800 then
     String (b (0xC0 + n / 0x40)) (String (b (0x80 + n mod 0x40)) EmptyString)
   else if n <? 0x10000 then
     String (b (0xE0 + n / 0x1000))
       (String (b (0x80 + (n / 0x40) mod 0x40))
          (String (b (0x80 + n mod 0x40)) EmptyString))
   else
     String (b (0xF0 + n / 0x40000))
       (String (b (0x80 + (n / 0x1000) mod 0x40))
          (String (b (0x80 + (n / 0x40) mod 0x40))
             (String (b (0x80 + n mod 0x40)) EmptyString))))%N.

(** Python's [str.isspace] on one character: the characters of Unicode
    with the bidirectional type WS, B or S or the category Zs.  [str.strip]
    strips these, and the class [\s] of [re] on a str pattern is the same
    set. *)
Definition whitespace : list string :=
  utf8 <$> [0x9; 0xA; 0xB; 0xC; 0xD; 0x1C; 0x1D; 0x1E; 0x1F; 0x20; 0x85; 0xA0;
            0x1680; 0x2000; 0x2001; 0x2002; 0x2003; 0x2004; 0x2005; 0x2006;
            0x2007; 0x2008; 0x2009; 0x200A; 0x2028; 0x2029; 0x202F; 0x205F;
            0x3000]%N.

Definition isspace (c : string) : bool := existsb (String.eqb c) whitespace.

(** [str.lstrip()] and [str.rstrip()] on the characters of a str. *)
Fixpoint lstrip_chars (cs : list string) : list string :=
  match cs with
  | c :: cs' => if isspace c then lstrip_chars cs' else cs
  | [] => []
  end.

Fixpoint rstrip_chars (cs : list string) : list string :=
  match cs with
  | c :: cs' =>
      match rstrip_chars cs' with
      | [] => if isspace c then [] else [c]
      | t => c :: t
      end
  | [] => []
  end.

(** [.str.strip()] *)
Definition str_strip (s : string) : string :=
  join (rstrip_chars (lstrip_chars (chars s))).

(** The upper case of one piece of [chars]: that of Unicode for a
    character; bytes that begin no character are left as they are. *)
Definition upper_char `{Pandas} (c : string) : string :=
  if starts_char c then py_upper c else c.

(** [.str.upper()]: every character is replaced by its upper case. *)
Definition str_upper `{Pandas} (s : string) : string :=
  join (upper_char <$> chars s).

(** [.str.replace(r"\s+", "", regex=True)]: every maximal run of white
    space is replaced by the empty string, which removes every white-space
    character. *)
Definition str_remove_ws (s : string) : string :=
  join (List.filter (λ c, negb (isspace c)) (chars s)).

(** *** What the pipeline needs of the Unicode tables *)

(** The upper case of an ASCII character. *)
Definition ascii_upper (a : ascii) : ascii :=
  let n := nat_of_ascii a in
  if ((97 <=? n) && (n <=? 122))%nat then ascii_of_nat (n - 32) else a.

Fixpoint all_cont (s : string) : bool :=
  match s with
  | String a s' => is_cont a && all_cont s'
  | EmptyString => true
  end.

(** A byte with continuation bytes, and a character: one that begins with
    a byte that is no continuation byte. *)
Definition is_chunk (c : string) : bool :=
  match c with
  | String _ t => all_cont t
  | EmptyString => false
  end.

Definition is_char (c : string) : bool := starts_char c && is_chunk c.

(** Four facts of the upper case of Unicode, for every character [c]: on
    ASCII it is the ASCII one; a white-space character is its own upper
    case; the upper case of [c] is text, and each of its characters is its
    own upper case; and the upper case of a character that is no white
    space holds no white space. *)
Record upper_laws `{Pandas} : Prop := {
  upper_ascii : ∀ a, (nat_of_ascii a < 128)%nat →
    py_upper (String a EmptyString) = String (ascii_upper a) EmptyString;
  upper_space : ∀ c, isspace c = true → py_upper c = c;
  upper_upper : ∀ c, is_char c = true →
    Forall (λ d, is_char d = true ∧ py_upper d = d) (chars (py_upper c));
  upper_no_space : ∀ c, is_char c = true → isspace c = false →
    Forall (λ d, isspace d = false) (chars (py_upper c))
}.

(** [.astype(str)] on one cell: Python's [str] of the value.  The missing
    float prints as nan and the missing datetime as NaT. *)
Definition astype_str `{Pandas} (v : cell) : string :=
  match v with
  | Str s => s
  | Num x => if PrimFloat.is_nan x then "nan" else float_str x
  | Dt (Some t) => timestamp_str t
  | Dt None => "NaT"
  end.

(** The chain [.astype(str).str.strip().str.upper().str.replace(...)] on
    one cell. *)
Definition clean_cell `{Pandas} (v : cell) : cell :=
  Str (str_remove_ws (str_upper (str_strip (astype_str v)))).

(** [clean_text(df, cols)].  The frame is a value here, so [df.copy()] is
    the identity; the store of frames and the copy are in [Store] below. *)
Fixpoint clean_text `{Pandas} (df : DataFrame) (cols : list string) : option DataFrame :=
  match cols with
  | [] => Some df
  | c :: cols' =>
      s ← getitem df c;
      df' ← setitem df c (clean_cell <$> s);
      clean_text df' cols'
  end.

(** The process-wide lookup table of line codes. *)
Definition LINE_MAP : gmap string string :=
  list_to_map [
    ("L1", "LINE01"); ("LINE-1", "LINE01"); ("LINE1", "LINE01");
    ("L2", "LINE02"); ("LINE-2", "LINE02"); ("LINE2", "LINE02");
    ("L3", "LINE03"); ("LINE-3", "LINE03"); ("LINE3", "LINE03")
  ].

(** [lambda x: LINE_MAP.get(x, x)]: a value that is not a str is no key
    of the table. *)
Definition line_code (v : cell) : cell :=
  match v with
  | Str s => Str (default s (LINE_MAP !! s))
  | _ => v
  end.

Definition normalize_production_lines (df : DataFrame) : option DataFrame :=
  s ← getitem df "production_line";
  setitem df "production_line" (line_code <$> s).

(** ** Task 3: business rule validation *)

(** [s > k] and [s >= k] for a scalar [k], and [s1 >= s2], [s1 <= s2]
    element by element.  A comparison with NaN is False. *)
Definition series_gt_scalar (s : Series) (k : float) : option (list bool) :=
  mapM (λ v, x ← as_num v; Some (k <? x)%float) s.

Definition series_ge_scalar (s : Series) (k : float) : option (list bool) :=
  mapM (λ v, x ← as_num v; Some (k <=? x)%float) s.

Definition series_ge (s1 s2 : Series) : option (list bool) :=
  if decide (length s1 = length s2) then
    mapM (λ p : cell * cell, x ← as_num p.1; y ← as_num p.2; Some (y <=? x)%float)
         (zip s1 s2)
  else None.

Definition series_le (s1 s2 : Series) : option (list bool) :=
  if decide (length s1 = length s2) then
    mapM (λ p : cell * cell, x ← as_num p.1; y ← as_num p.2; Some (x <=? y)%float)
         (zip s1 s2)
  else None.

Definition validate_production (df : DataFrame) : option DataFrame :=
  u ← getitem df "units_produced";
  m1 ← series_gt_scalar u 0;
  p ← getitem df "planned_units";
  let m2 := notna <$> p in
  m3 ← series_ge p u;
  Some (boolean_index df (mask_and (mask_and m1 m2) m3)).

Definition validate_quality (df : DataFrame) : option DataFrame :=
  i ← getitem df "units_inspected";
  let m1 := notna <$> i in
  m2 ← series_gt_scalar i 0;
  d ← getitem df "defect_units";
  let m3 := notna <$> d in
  m4 ← series_ge_scalar d 0;
  m5 ← series_le d i;
  Some (boolean_index df
          (mask_and (mask_and (mask_and (mask_and m1 m2) m3) m4) m5)).

(** ** Keys of joins and groups *)

Definition timestamp_compare (a b : timestamp) : comparison :=
  match ts_year a ?= ts_year b with
  | Eq => match ts_month a ?= ts_month b with
          | Eq => match ts_day a ?= ts_day b with
                  | Eq => ts_nanos a ?= ts_nanos b
                  | o => o
                  end
          | o => o
          end
  | o => o
  end%Z.

(** The order of key values: numbers before text before dates, a missing
    value after every value of its kind and equal to itself (a join
    matches missing keys with each other). *)
Definition float_key_compare (x y : float) : comparison :=
  match PrimFloat.compare x y with
  | FEq => Eq
  | FLt => Lt
  | FGt => Gt
  | FNotComparable =>
      if PrimFloat.is_nan x then (if PrimFloat.is_nan y then Eq else Gt) else Lt
  end.

Definition cell_compare (a b : cell) : comparison :=
  match a, b with
  | Num x, Num y => float_key_compare x y
  | Num _, _ => Lt
  | Str _, Num _ => Gt
  | Str s, Str t => String.compare s t
  | Str _, Dt _ => Lt
  | Dt (Some s), Dt (Some t) => timestamp_compare s t
  | Dt (Some _), Dt None => Lt
  | Dt None, Dt (Some _) => Gt
  | Dt None, Dt None => Eq
  | Dt _, _ => Gt
  end.

Definition key_eqb (a b : cell) : bool :=
  match cell_compare a b with Eq => true | _ => false end.

Fixpoint keys_compare (k1 k2 : list cell) : comparison :=
  match k1, k2 with
  | [], [] => Eq
  | [], _ :: _ => Lt
  | _ :: _, [] => Gt
  | a :: k1', b :: k2' =>
      match cell_compare a b with
      | Eq => keys_compare k1' k2'
      | o => o
      end
  end.

Definition keys_eqb (k1 k2 : list cell) : bool :=
  match keys_compare k1 k2 with Eq => true | _ => false end.

(** ** Task 4: product master mapping *)

(** The column labels of [left.merge(right, left_on=..., right_on=...)]
    with the default suffixes: a label that both frames have gets [_x] on
    the left and [_y] on the right. *)
Definition suffix_x (rcols : list string) (c : string) : string :=
  if decide (c ∈ rcols) then c +:+ "_x" else c.

Definition suffix_y (lcols : list string) (c : string) : string :=
  if decide (c ∈ lcols) then c +:+ "_y" else c.

Definition relabel (f : string → string) (cols : list string) (r : row) : row :=
  list_to_map (omap (λ c, v ← r !! c; Some (f c, v)) cols).

(** The right-hand side of a left row that has no match: every column of
    the right frame missing. *)
Definition missing_row (cols : list string) : row :=
  list_to_map ((λ c, (c, Num nan)) <$> cols).

(** [left.merge(right, left_on=left_on, right_on=right_on, how="left")]:
    the rows of [left] in their order, each joined with every row of
    [right] whose key equals its own, in the order of [right], or with
    missing values when there is none.  Labels that clash after the
    suffixes raise MergeError. *)
Definition merge_left (left right : DataFrame) (left_on right_on : string)
    : option DataFrame :=
  lk ← getitem left left_on;
  rk ← getitem right right_on;
  let fx := suffix_x (columns right) in
  let fy := suffix_y (columns left) in
  let cols := (fx <$> columns left) ++ (fy <$> columns right) in
  if decide (NoDup cols) then
    Some {| columns := cols;
            rows :=
              p ← zip (rows left) lk;
              let l := relabel fx (columns left) p.1 in
              match mask_filter (rows right) (key_eqb p.2 <$> rk) with
              | [] => [l ∪ missing_row (fy <$> columns right)]
              | ms => (λ r, l ∪ relabel fy (columns right) r) <$> ms
              end |}
  else None.

(** [df.drop(columns=[c])]: KeyError when the label is absent. *)
Definition drop_column (df : DataFrame) (c : string) : option DataFrame :=
  if decide (c ∈ columns df) then
    Some {| columns := filter (λ c', c' ≠ c) (columns df);
            rows := delete c <$> rows df |}
  else None.

Definition map_product_master `{Pandas} (df product_master : DataFrame)
    : option DataFrame :=
  df ← clean_text df ["product_code"];
  product_master ←
    clean_text product_master
      ["product_code_raw"; "product_code_std"; "product_family"];
  merged ← merge_left df product_master "product_code" "product_code_raw";
  std ← getitem merged "product_code_std";
  let merged := boolean_index merged (notna <$> std) in
  drop_column merged "product_code_raw".

(** ** Task 5: monthly aggregation and alignment *)

(** The [.dt] accessor: AttributeError on a value that is no datetime. *)
Definition as_datetime (v : cell) : option (option timestamp) :=
  match v with Dt t => Some t | _ => None end.

(** [.dt.to_period("M")]: the year and the month; NaT stays NaT. *)
Definition to_period_M (t : option timestamp) : option (Z * Z) :=
  (λ t, (ts_year t, ts_month t)) <$> t.

Definition digit (n : Z) : ascii := ascii_of_nat (48 + Z.to_nat (n `mod` 10)).

Definition pad2 (n : Z) : string :=
  String (digit (n `div` 10)) (String (digit n) EmptyString).

Definition pad4 (n : Z) : string :=
  String (digit (n `div` 1000)) (String (digit (n `div` 100)) (pad2 n)).

(** [.astype(str)] on a monthly period: [YYYY-MM], and the text NaT for
    the missing period. *)
Definition period_str (p : option (Z * Z)) : string :=
  match p with
  | Some (y, m) => pad4 y +:+ "-" +:+ pad2 m
  | None => "NaT"
  end.

Definition add_month `{Pandas} (df : DataFrame) (date_col : string)
    : option DataFrame :=
  s ← getitem df date_col;
  df ← setitem df date_col (Dt <$> to_datetime s);
  s' ← getitem df date_col;
  ts ← mapM as_datetime s';
  setitem df "month" ((λ t, Str (period_str (to_period_M t))) <$> ts).

(** The key of a row for [groupby(keys)]. *)
Definition group_key (keys : list string) (r : row) : option (list cell) :=
  mapM (λ c, r !! c) keys.

Abbreviation group := (list cell * list row)%type.

(** Groups are kept sorted by key; a row joins the group of its key at
    the end. *)
Fixpoint insert_group (k : list cell) (r : row) (gs : list group) : list group :=
  match gs with
  | [] => [(k, [r])]
  | g :: gs' =>
      match keys_compare k g.1 with
      | Eq => (g.1, g.2 ++ [r]) :: gs'
      | Lt => (k, [r]) :: gs
      | Gt => g :: insert_group k r gs'
      end
  end.

Definition has_columns (df : DataFrame) (cs : list string) : bool :=
  forallb (λ c, bool_decide (c ∈ columns df)) cs.

(** [df.groupby(keys)] with the defaults [sort=True] and [dropna=True]: a
    row with a missing value in a key column is in no group. *)
Definition groupby (df : DataFrame) (keys : list string) : option (list group) :=
  if has_columns df keys then
    ks ← mapM (group_key keys) (rows df);
    Some (foldl (λ gs (p : list cell * row),
                   if forallb notna p.1 then insert_group p.1 p.2 gs else gs)
                [] (zip ks (rows df)))
  else None.

(** The aggregation ["sum"]: missing values are skipped, and the others
    are summed by pandas in the order of the rows. *)
Definition nansum `{Pandas} (xs : list float) : float :=
  group_sum (List.filter (λ x, negb (PrimFloat.is_nan x)) xs).

Definition series_sum `{Pandas} (s : Series) : option cell :=
  xs ← mapM as_num s; Some (Num (nansum xs)).

(** [df.groupby(keys, as_index=False).agg(out=(col, "sum"), ...)] *)
Definition groupby_agg_sum `{Pandas} (df : DataFrame) (keys : list string)
    (aggs : list (string * string)) : option DataFrame :=
  gs ← groupby df keys;
  if has_columns df (snd <$> aggs) then
    rs ← mapM (λ g : group,
                 sums ← mapM (λ a : string * string,
                                s ← mapM (λ r : row, r !! a.2) g.2;
                                series_sum s) aggs;
                 Some (list_to_map (zip keys g.1 ++ zip (fst <$> aggs) sums) : row))
              gs;
    Some {| columns := keys ++ (fst <$> aggs); rows := rs |}
  else None.

Definition aggregate_production `{Pandas} (df : DataFrame) : option DataFrame :=
  groupby_agg_sum df
    ["plant_id"; "production_line"; "product_code_std"; "product_family"; "month"]
    [("units_produced", "units_produced");
     ("planned_units", "planned_units");
     ("downtime_minutes", "downtime_minutes")].

Definition aggregate_quality `{Pandas} (df : DataFrame) : option DataFrame :=
  groupby_agg_sum df
    ["plant_id"; "product_code_std"; "product_family"; "month"]
    [("units_inspected", "units_inspected");
     ("defect_units", "defect_units")].

(** ** Task 6: KPI engineering *)

(** [s1 / s2]: float64 division, so x/0 is an infinity and 0/0 is NaN. *)
Definition series_div (s1 s2 : Series) : option Series :=
  if decide (length s1 = length s2) then
    mapM (λ p : cell * cell, x ← as_num p.1; y ← as_num p.2; Some (Num (x / y)%float))
         (zip s1 s2)
  else None.

(** The distinct values of a list of floats, by float equality. *)
Definition distinct (xs : list float) : list float :=
  foldr (λ x acc, if existsb (PrimFloat.eqb x) acc then acc else x :: acc) [] xs.

(** [rank(ascending=False, method="dense")] of the value [x] among [xs]:
    one more than the number of distinct values above it. *)
Definition dense_rank_desc (xs : list float) (x : float) : nat :=
  S (length (distinct (List.filter (λ y, (x <? y)%float) xs))).

Definition float_of_nat (n : nat) : float :=
  PrimFloat.of_uint63 (Uint63.of_Z (Z.of_nat n)).

(** [df.groupby(keys)[c].rank(ascending=False, method="dense")]: a Series
    in the order of the rows of [df].  A row with a missing key is in no
    group and a missing value has no rank ([na_option="keep"]); both get
    NaN. *)
Definition groupby_rank_dense_desc (df : DataFrame) (keys : list string)
    (c : string) : option Series :=
  if has_columns df keys then
    ks ← mapM (group_key keys) (rows df);
    vs ← getitem df c;
    xs ← mapM as_num vs;
    let kx := zip ks xs in
    Some ((λ p : list cell * float,
             if forallb notna p.1 && negb (PrimFloat.is_nan p.2) then
               let grp := List.filter (λ q : list cell * float, keys_eqb p.1 q.1) kx in
               Num (float_of_nat (dense_rank_desc (snd <$> grp) p.2))
             else Num nan) <$> kx)
  else None.

Definition calculate_kpis (df : DataFrame) : option DataFrame :=
  u ← getitem df "units_produced";
  p ← getitem df "planned_units";
  e ← series_div u p;
  df ← setitem df "production_efficiency" e;
  d ← getitem df "defect_units";
  i ← getitem df "units_inspected";
  r ← series_div d i;
  df ← setitem df "defect_rate" r;
  m ← getitem df "downtime_minutes";
  u ← getitem df "units_produced";
  t ← series_div m u;
  df ← setitem df "downtime_per_unit" t;
  rk ← groupby_rank_dense_desc df ["plant_id"; "month"] "production_efficiency";
  setitem df "performance_rank" rk.

(** ** Task 7: risk scoring *)

(** [s.fillna(k)] *)
Definition fillna (k : float) (s : Series) : Series :=
  (λ v, if isna v then Num k else v) <$> s.

(** [k - s], [s * k] and [s1 + s2] on float64 Series. *)
Definition series_rsub (k : float) (s : Series) : option (list float) :=
  mapM (λ v, x ← as_num v; Some (k - x)%float) s.

Definition series_mul (s : Series) (k : float) : option (list float) :=
  mapM (λ v, x ← as_num v; Some (x * k)%float) s.

Definition floats_mul (xs : list float) (k : float) : list float :=
  (λ x, (x * k)%float) <$> xs.

Definition floats_add (xs ys : list float) : option (list float) :=
  if decide (length xs = length ys) then Some (zip_with PrimFloat.add xs ys)
  else None.

(** [s.clip(lower, upper)]: a value below [lower] becomes [lower], one
    above [upper] becomes [upper], and a missing value stays missing. *)
Definition clip (lower upper x : float) : float :=
  let r := if PrimFloat.is_nan x || (lower <=? x)%float then x else lower in
  if PrimFloat.is_nan x || (x <=? upper)%float then r else upper.

(** [bins.searchsorted(x, side="left")] on sorted bins: the number of
    edges below [x]. *)
Fixpoint searchsorted_left (bins : list float) (x : float) : nat :=
  match bins with
  | b :: bins' => if (b <? x)%float then S (searchsorted_left bins' x) else 0
  | [] => 0
  end.

(** [pd.cut(x, bins, labels)] with the defaults [right=True] and
    [include_lowest=False]: the bins are the intervals (b0, b1],
    (b1, b2], ..., and a value in none of them, or a missing one, gets the
    missing label. *)
Definition cut (bins : list float) (labels : list string) (x : float) : cell :=
  let i := searchsorted_left bins x in
  if PrimFloat.is_nan x || (i =? 0)%nat || (i =? length bins)%nat then Num nan
  else match labels !! (i - 1)%nat with
       | Some l => Str l
       | None => Num nan
       end.

Definition risk_bins : list float := [0; 30; 60; 100]%float.
Definition risk_labels : list string := ["LOW"; "MEDIUM"; "HIGH"].

Definition risk_scoring (df : DataFrame) : option DataFrame :=
  e ← getitem df "production_efficiency";
  let efficiency := fillna 0 e in
  r ← getitem df "defect_rate";
  let defect_rate := fillna 0 r in
  t ← getitem df "downtime_per_unit";
  let downtime := fillna 0 t in
  a ← series_rsub 1 efficiency;
  b ← series_mul defect_rate 30;
  c ← series_mul downtime 20;
  ab ← floats_add (floats_mul a 50) b;
  abc ← floats_add ab c;
  df ← setitem df "risk_score" ((λ x, Num (clip 0 100 x)) <$> abc);
  s ← getitem df "risk_score";
  xs ← mapM as_num s;
  setitem df "risk_level" (cut risk_bins risk_labels <$> xs).

(** ** The store of frames

    [clean_text] and [risk_scoring] start with [df = df.copy()] and then
    assign columns of the copy in place.  Here frames live in a store and
    are passed by reference, so that what happens to the caller's frame
    can be stated. *)
Module Store.

Abbreviation ref := positive.
Abbreviation store := (gmap positive DataFrame).

(** A computation on the store that may raise. *)
Definition M (A : Type) : Type := store → option (A * store).

Definition ret {A} (x : A) : M A := λ σ, Some (x, σ).

Definition bind {A B} (m : M A) (k : A → M B) : M B :=
  λ σ, match m σ with
       | Some (x, σ') => k x σ'
       | None => None
       end.

(** [df.copy()]: a new frame with the same contents. *)
Definition copy (l : ref) : M ref :=
  λ σ, df ← σ !! l;
       let l' := fresh (dom σ) in
       Some (l', <[l':=df]> σ).

(** [df[c]] *)
Definition getitem (l : ref) (c : string) : M Series :=
  λ σ, df ← σ !! l; s ← getitem df c; Some (s, σ).

(** [df[c] = s], in place. *)
Definition setitem (l : ref) (c : string) (s : Series) : M () :=
  λ σ, df ← σ !! l; df' ← setitem df c s; Some ((), <[l:=df']> σ).

(** The loop [for c in cols: df[c] = df[c].astype(str)...] *)
Fixpoint clean_columns `{Pandas} (l : ref) (cols : list string) : M () :=
  match cols with
  | [] => ret ()
  | c :: cols' =>
      bind (getitem l c) (λ s,
      bind (setitem l c (clean_cell <$> s)) (λ _,
      clean_columns l cols'))
  end.

Definition clean_text `{Pandas} (l : ref) (cols : list string) : M ref :=
  bind (copy l) (λ l',
  bind (clean_columns l' cols) (λ _,
  ret l')).

End Store.

(** ** A pandas for the examples

    Dates written YYYY-MM-DD parse, and nothing else does.  The examples
    print no number and no timestamp, only the letters a to z have an
    upper case, and sums are plain float64 sums from the left. *)
Definition digit_value (a : ascii) : option Z :=
  let n := nat_of_ascii a in
  if ((48 <=? n) && (n <=? 57))%nat then Some (Z.of_nat (n - 48)) else None.

Definition is_leap (y : Z) : bool :=
  ((y `mod` 4 =? 0) && negb (y `mod` 100 =? 0) || (y `mod` 400 =? 0))%Z.

Definition days_in_month (y m : Z) : Z :=
  if (m =? 2)%Z then (if is_leap y then 29 else 28)
  else if ((m =? 4) || (m =? 6) || (m =? 9) || (m =? 11))%Z then 30 else 31.

Definition parse_iso_date (s : string) : option timestamp :=
  match s with
  | String y1 (String y2 (String y3 (String y4 (String "-"
      (String m1 (String m2 (String "-" (String d1 (String d2 EmptyString))))))))) =>
      a ← digit_value y1; b ← digit_value y2; c ← digit_value y3; d ← digit_value y4;
      e ← digit_value m1; f ← digit_value m2;
      g ← digit_value d1; h ← digit_value d2;
      let y := (a * 1000 + b * 100 + c * 10 + d)%Z in
      let m := (e * 10 + f)%Z in
      let dd := (g * 10 + h)%Z in
      if ((1678 <=? y) && (y <=? 2261) && (1 <=? m) && (m <=? 12)
          && (1 <=? dd) && (dd <=? days_in_month y m))%Z
      then Some (Timestamp y m dd 0) else None
  | _ => None
  end.

Definition iso_pandas : Pandas := {|
  float_str := λ _, "";
  timestamp_str := λ _, "";
  to_datetime := λ s,
    (λ v, match v with
          | Str t => parse_iso_date t
          | Dt t => t
          | Num _ => None
          end) <$> s;
  py_upper := λ c,
    match c with
    | String a EmptyString => String (ascii_upper a) EmptyString
    | _ => c
    end;
  group_sum := foldl (λ acc x, (acc + x)%float) 0%float
|}.

(** ** The upper case of Unicode

    The characters of Unicode 14.0 that are not their own upper case, each
    with the code points of its upper case, as [str.upper] of CPython 3.11
    maps them (the full case mapping: the upper case of one character can
    be two or three characters).  Every other character is its own upper
    case. *)
Definition upper_table : list (N * list N) :=
  [
    (0x61, [0x41]); (0x62, [0x42]); (0x63, [0x43]); (0x64, [0x44]);
    (0x65, [0x45]); (0x66, [0x46]); (0x67, [0x47]); (0x68, [0x48]);
    (0x69, [0x49]); (0x6A, [0x4A]); (0x6B, [0x4B]); (0x6C, [0x4C]);
    (0x6D, [0x4D]); (0x6E, [0x4E]); (0x6F, [0x4F]); (0x70, [0x50]);
    (0x71, [0x51]); (0x72, [0x52]); (0x73, [0x53]); (0x74, [0x54]);
    (0x75, [0x55]); (0x76, [0x56]); (0x77, [0x57]); (0x78, [0x58]);
    (0x79, [0x59]); (0x7A, [0x5A]); (0xB5, [0x39C]); (0xDF, [0x53; 0x53]);
    (0xE0, [0xC0]); (0xE1, [0xC1]); (0xE2, [0xC2]); (0xE3, [0xC3]);
    (0xE4, [0xC4]); (0xE5, [0xC5]); (0xE6, [0xC6]); (0xE7, [0xC7]);
    (0xE8, [0xC8]); (0xE9, [0xC9]); (0xEA, [0xCA]); (0xEB, [0xCB]);
    (0xEC, [0xCC]); (0xED, [0xCD]); (0xEE, [0xCE]); (0xEF, [0xCF]);
    (0xF0, [0xD0]); (0xF1, [0xD1]); (0xF2, [0xD2]); (0xF3, [0xD3]);
    (0xF4, [0xD4]); (0xF5, [0xD5]); (0xF6, [0xD6]); (0xF8, [0xD8]);
    (0xF9, [0xD9]); (0xFA, [0xDA]); (0xFB, [0xDB]); (0xFC, [0xDC]);
    (0xFD, [0xDD]); (0xFE, [0xDE]); (0xFF, [0x178]); (0x101, [0x100]);
    (0x103, [0x102]); (0x105, [0x104]); (0x107, [0x106]); (0x109, [0x108]);
    (0x10B, [0x10A]); (0x10D, [0x10C]); (0x10F, [0x10E]); (0x111, [0x110]);
    (0x113, [0x112]); (0x115, [0x114]); (0x117, [0x116]); (0x119, [0x118]);
    (0x11B, [0x11A]); (0x11D, [0x11C]); (0x11F, [0x11E]); (0x121, [0x120]);
    (0x123, [0x122]); (0x125, [0x124]); (0x127, [0x126]); (0x129, [0x128]);
    (0x12B, [0x12A]); (0x12D, [0x12C]); (0x12F, [0x12E]); (0x131, [0x49]);
    (0x133, [0x132]); (0x135, [0x134]); (0x137, [0x136]); (0x13A, [0x139]);
    (0x13C, [0x13B]); (0x13E, [0x13D]); (0x140, [0x13F]); (0x142, [0x141]);
    (0x144, [0x143]); (0x146, [0x145]); (0x148, [0x147]);
    (0x149, [0x2BC; 0x4E]); (0x14B, [0x14A]); (0x14D, [0x14C]);
    (0x14F, [0x14E]); (0x151, [0x150]); (0x153, [0x152]); (0x155, [0x154]);
    (0x157, [0x156]); (0x159, [0x158]); (0x15B, [0x15A]); (0x15D, [0x15C]);
    (0x15F, [0x15E]); (0x161, [0x160]); (0x163, [0x162]); (0x165, [0x164]);
    (0x167, [0x166]); (0x169, [0x168]); (0x16B, [0x16A]); (0x16D, [0x16C]);
    (0x16F, [0x16E]); (0x171, [0x170]); (0x173, [0x172]); (0x175, [0x174]);
    (0x177, [0x176]); (0x17A, [0x179]); (0x17C, [0x17B]); (0x17E, [0x17D]);
    (0x17F, [0x53]); (0x180, [0x243]); (0x183, [0x182]); (0x185, [0x184]);
    (0x188, [0x187]); (0x18C, [0x18B]); (0x192, [0x191]); (0x195, [0x1F6]);
    (0x199, [0x198]); (0x19A, [0x23D]); (0x19E, [0x220]); (0x1A1, [0x1A0]);
    (0x1A3, [0x1A2]); (0x1A5, [0x1A4]); (0x1A8, [0x1A7]); (0x1AD, [0x1AC]);
    (0x1B0, [0x1AF]); (0x1B4, [0x1B3]); (0x1B6, [0x1B5]); (0x1B9, [0x1B8]);
    (0x1BD, [0x1BC]); (0x1BF, [0x1F7]); (0x1C5, [0x1C4]); (0x1C6, [0x1C4]);
    (0x1C8, [0x1C7]); (0x1C9, [0x1C7]); (0x1CB, [0x1CA]); (0x1CC, [0x1CA]);
    (0x1CE, [0x1CD]); (0x1D0, [0x1CF]); (0x1D2, [0x1D1]); (0x1D4, [0x1D3]);
    (0x1D6, [0x1D5]); (0x1D8, [0x1D7]); (0x1DA, [0x1D9]); (0x1DC, [0x1DB]);
    (0x1DD, [0x18E]); (0x1DF, [0x1DE]); (0x1E1, [0x1E0]); (0x1E3, [0x1E2]);
    (0x1E5, [0x1E4]); (0x1E7, [0x1E6]); (0x1E9, [0x1E8]); (0x1EB, [0x1EA]);
    (0x1ED, [0x1EC]); (0x1EF, [0x1EE]); (0x1F0, [0x4A; 0x30C]);
    (0x1F2, [0x1F1]); (0x1F3, [0x1F1]); (0x1F5, [0x1F4]); (0x1F9, [0x1F8]);
    (0x1FB, [0x1FA]); (0x1FD, [0x1FC]); (0x1FF, [0x1FE]); (0x201, [0x200]);
    (0x203, [0x202]); (0x205, [0x204]); (0x207, [0x206]); (0x209, [0x208]);
    (0x20B, [0x20A]); (0x20D, [0x20C]); (0x20F, [0x20E]); (0x211, [0x210]);
    (0x213, [0x212]); (0x215, [0x214]); (0x217, [0x216]); (0x219, [0x218]);
    (0x21B, [0x21A]); (0x21D, [0x21C]); (0x21F, [0x21E]); (0x223, [0x222]);
    (0x225, [0x224]); (0x227, [0x226]); (0x229, [0x228]); (0x22B, [0x22A]);
    (0x22D, [0x22C]); (0x22F, [0x22E]); (0x231, [0x230]); (0x233, [0x232]);
    (0x23C, [0x23B]); (0x23F, [0x2C7E]); (0x240, [0x2C7F]); (0x242, [0x241]);
    (0x247, [0x246]); (0x249, [0x248]); (0x24B, [0x24A]); (0x24D, [0x24C]);
    (0x24F, [0x24E]); (0x250, [0x2C6F]); (0x251, [0x2C6D]); (0x252, [0x2C70]);
    (0x253, [0x181]); (0x254, [0x186]); (0x256, [0x189]); (0x257, [0x18A]);
    (0x259, [0x18F]); (0x25B, [0x190]); (0x25C, [0xA7AB]); (0x260, [0x193]);
    (0x261, [0xA7AC]); (0x263, [0x194]); (0x265, [0xA78D]); (0x266, [0xA7AA]);
    (0x268, [0x197]); (0x269, [0x196]); (0x26A, [0xA7AE]); (0x26B, [0x2C62]);
    (0x26C, [0xA7AD]); (0x26F, [0x19C]); (0x271, [0x2C6E]); (0x272, [0x19D]);
    (0x275, [0x19F]); (0x27D, [0x2C64]); (0x280, [0x1A6]); (0x282, [0xA7C5]);
    (0x283, [0x1A9]); (0x287, [0xA7B1]); (0x288, [0x1AE]); (0x289, [0x244]);
    (0x28A, [0x1B1]); (0x28B, [0x1B2]); (0x28C, [0x245]); (0x292, [0x1B7]);
    (0x29D, [0xA7B2]); (0x29E, [0xA7B0]); (0x345, [0x399]); (0x371, [0x370]);
    (0x373, [0x372]); (0x377, [0x376]); (0x37B, [0x3FD]); (0x37C, [0x3FE]);
    (0x37D, [0x3FF]); (0x390, [0x399; 0x308; 0x301]); (0x3AC, [0x386]);
    (0x3AD, [0x388]); (0x3AE, [0x389]); (0x3AF, [0x38A]);
    (0x3B0, [0x3A5; 0x308; 0x301]); (0x3B1, [0x391]); (0x3B2, [0x392]);
    (0x3B3, [0x393]); (0x3B4, [0x394]); (0x3B5, [0x395]); (0x3B6, [0x396]);
    (0x3B7, [0x397]); (0x3B8, [0x398]); (0x3B9, [0x399]); (0x3BA, [0x39A]);
    (0x3BB, [0x39B]); (0x3BC, [0x39C]); (0x3BD, [0x39D]); (0x3BE, [0x39E]);
    (0x3BF, [0x39F]); (0x3C0, [0x3A0]); (0x3C1, [0x3A1]); (0x3C2, [0x3A3]);
    (0x3C3, [0x3A3]); (0x3C4, [0x3A4]); (0x3C5, [0x3A5]); (0x3C6, [0x3A6]);
    (0x3C7, [0x3A7]); (0x3C8, [0x3A8]); (0x3C9, [0x3A9]); (0x3CA, [0x3AA]);
    (0x3CB, [0x3AB]); (0x3CC, [0x38C]); (0x3CD, [0x38E]); (0x3CE, [0x38F]);
    (0x3D0, [0x392]); (0x3D1, [0x398]); (0x3D5, [0x3A6]); (0x3D6, [0x3A0]);
    (0x3D7, [0x3CF]); (0x3D9, [0x3D8]); (0x3DB, [0x3DA]); (0x3DD, [0x3DC]);
    (0x3DF, [0x3DE]); (0x3E1, [0x3E0]); (0x3E3, [0x3E2]); (0x3E5, [0x3E4]);
    (0x3E7, [0x3E6]); (0x3E9, [0x3E8]); (0x3EB, [0x3EA]); (0x3ED, [0x3EC]);
    (0x3EF, [0x3EE]); (0x3F0, [0x39A]); (0x3F1, [0x3A1]); (0x3F2, [0x3F9]);
    (0x3F3, [0x37F]); (0x3F5, [0x395]); (0x3F8, [0x3F7]); (0x3FB, [0x3FA]);
    (0x430, [0x410]); (0x431, [0x411]); (0x432, [0x412]); (0x433, [0x413]);
    (0x434, [0x414]); (0x435, [0x415]); (0x436, [0x416]); (0x437, [0x417]);
    (0x438, [0x418]); (0x439, [0x419]); (0x43A, [0x41A]); (0x43B, [0x41B]);
    (0x43C, [0x41C]); (0x43D, [0x41D]); (0x43E, [0x41E]); (0x43F, [0x41F]);
    (0x440, [0x420]); (0x441, [0x421]); (0x442, [0x422]); (0x443, [0x423]);
    (0x444, [0x424]); (0x445, [0x425]); (0x446, [0x426]); (0x447, [0x427]);
    (0x448, [0x428]); (0x449, [0x429]); (0x44A, [0x42A]); (0x44B, [0x42B]);
    (0x44C, [0x42C]); (0x44D, [0x42D]); (0x44E, [0x42E]); (0x44F, [0x42F]);
    (0x450, [0x400]); (0x451, [0x401]); (0x452, [0x402]); (0x453, [0x403]);
    (0x454, [0x404]); (0x455, [0x405]); (0x456, [0x406]); (0x457, [0x407]);
    (0x458, [0x408]); (0x459, [0x409]); (0x45A, [0x40A]); (0x45B, [0x40B]);
    (0x45C, [0x40C]); (0x45D, [0x40D]); (0x45E, [0x40E]); (0x45F, [0x40F]);
    (0x461, [0x460]); (0x463, [0x462]); (0x465, [0x464]); (0x467, [0x466]);
    (0x469, [0x468]); (0x46B, [0x46A]); (0x46D, [0x46C]); (0x46F, [0x46E]);
    (0x471, [0x470]); (0x473, [0x472]); (0x475, [0x474]); (0x477, [0x476]);
    (0x479, [0x478]); (0x47B, [0x47A]); (0x47D, [0x47C]); (0x47F, [0x47E]);
    (0x481, [0x480]); (0x48B, [0x48A]); (0x48D, [0x48C]); (0x48F, [0x48E]);
    (0x491, [0x490]); (0x493, [0x492]); (0x495, [0x494]); (0x497, [0x496]);
    (0x499, [0x498]); (0x49B, [0x49A]); (0x49D, [0x49C]); (0x49F, [0x49E]);
    (0x4A1, [0x4A0]); (0x4A3, [0x4A2]); (0x4A5, [0x4A4]); (0x4A7, [0x4A6]);
    (0x4A9, [0x4A8]); (0x4AB, [0x4AA]); (0x4AD, [0x4AC]); (0x4AF, [0x4AE]);
    (0x4B1, [0x4B0]); (0x4B3, [0x4B2]); (0x4B5, [0x4B4]); (0x4B7, [0x4B6]);
    (0x4B9, [0x4B8]); (0x4BB, [0x4BA]); (0x4BD, [0x4BC]); (0x4BF, [0x4BE]);
    (0x4C2, [0x4C1]); (0x4C4, [0x4C3]); (0x4C6, [0x4C5]); (0x4C8, [0x4C7]);
    (0x4CA, [0x4C9]); (0x4CC, [0x4CB]); (0x4CE, [0x4CD]); (0x4CF, [0x4C0]);
    (0x4D1, [0x4D0]); (0x4D3, [0x4D2]); (0x4D5, [0x4D4]); (0x4D7, [0x4D6]);
    (0x4D9, [0x4D8]); (0x4DB, [0x4DA]); (0x4DD, [0x4DC]); (0x4DF, [0x4DE]);
    (0x4E1, [0x4E0]); (0x4E3, [0x4E2]); (0x4E5, [0x4E4]); (0x4E7, [0x4E6]);
    (0x4E9, [0x4E8]); (0x4EB, [0x4EA]); (0x4ED, [0x4EC]); (0x4EF, [0x4EE]);
    (0x4F1, [0x4F0]); (0x4F3, [0x4F2]); (0x4F5, [0x4F4]); (0x4F7, [0x4F6]);
    (0x4F9, [0x4F8]); (0x4FB, [0x4FA]); (0x4FD, [0x4FC]); (0x4FF, [0x4FE]);
    (0x501, [0x500]); (0x503, [0x502]); (0x505, [0x504]); (0x507, [0x506]);
    (0x509, [0x508]); (0x50B, [0x50A]); (0x50D, [0x50C]); (0x50F, [0x50E]);
    (0x511, [0x510]); (0x513, [0x512]); (0x515, [0x514]); (0x517, [0x516]);
    (0x519, [0x518]); (0x51B, [0x51A]); (0x51D, [0x51C]); (0x51F, [0x51E]);
    (0x521, [0x520]); (0x523, [0x522]); (0x525, [0x524]); (0x527, [0x526]);
    (0x529, [0x528]); (0x52B, [0x52A]); (0x52D, [0x52C]); (0x52F, [0x52E]);
    (0x561, [0x531]); (0x562, [0x532]); (0x563, [0x533]); (0x564, [0x534]);
    (0x565, [0x535]); (0x566, [0x536]); (0x567, [0x537]); (0x568, [0x538]);
    (0x569, [0x539]); (0x56A, [0x53A]); (0x56B, [0x53B]); (0x56C, [0x53C]);
    (0x56D, [0x53D]); (0x56E, [0x53E]); (0x56F, [0x53F]); (0x570, [0x540]);
    (0x571, [0x541]); (0x572, [0x542]); (0x573, [0x543]); (0x574, [0x544]);
    (0x575, [0x545]); (0x576, [0x546]); (0x577, [0x547]); (0x578, [0x548]);
    (0x579, [0x549]); (0x57A, [0x54A]); (0x57B, [0x54B]); (0x57C, [0x54C]);
    (0x57D, [0x54D]); (0x57E, [0x54E]); (0x57F, [0x54F]); (0x580, [0x550]);
    (0x581, [0x551]); (0x582, [0x552]); (0x583, [0x553]); (0x584, [0x554]);
    (0x585, [0x555]); (0x586, [0x556]); (0x587, [0x535; 0x552]);
    (0x10D0, [0x1C90]); (0x10D1, [0x1C91]); (0x10D2, [0x1C92]);
    (0x10D3, [0x1C93]); (0x10D4, [0x1C94]); (0x10D5, [0x1C95]);
    (0x10D6, [0x1C96]); (0x10D7, [0x1C97]); (0x10D8, [0x1C98]);
    (0x10D9, [0x1C99]); (0x10DA, [0x1C9A]); (0x10DB, [0x1C9B]);
    (0x10DC, [0x1C9C]); (0x10DD, [0x1C9D]); (0x10DE, [0x1C9E]);
    (0x10DF, [0x1C9F]); (0x10E0, [0x1CA0]); (0x10E1, [0x1CA1]);
    (0x10E2, [0x1CA2]); (0x10E3, [0x1CA3]); (0x10E4, [0x1CA4]);
    (0x10E5, [0x1CA5]); (0x10E6, [0x1CA6]); (0x10E7, [0x1CA7]);
    (0x10E8, [0x1CA8]); (0x10E9, [0x1CA9]); (0x10EA, [0x1CAA]);
    (0x10EB, [0x1CAB]); (0x10EC, [0x1CAC]); (0x10ED, [0x1CAD]);
    (0x10EE, [0x1CAE]); (0x10EF, [0x1CAF]); (0x10F0, [0x1CB0]);
    (0x10F1, [0x1CB1]); (0x10F2, [0x1CB2]); (0x10F3, [0x1CB3]);
    (0x10F4, [0x1CB4]); (0x10F5, [0x1CB5]); (0x10F6, [0x1CB6]);
    (0x10F7, [0x1CB7]); (0x10F8, [0x1CB8]); (0x10F9, [0x1CB9]);
    (0x10FA, [0x1CBA]); (0x10FD, [0x1CBD]); (0x10FE, [0x1CBE]);
    (0x10FF, [0x1CBF]); (0x13F8, [0x13F0]); (0x13F9, [0x13F1]);
    (0x13FA, [0x13F2]); (0x13FB, [0x13F3]); (0x13FC, [0x13F4]);
    (0x13FD, [0x13F5]); (0x1C80, [0x412]); (0x1C81, [0x414]);
    (0x1C82, [0x41E]); (0x1C83, [0x421]); (0x1C84, [0x422]);
    (0x1C85, [0x422]); (0x1C86, [0x42A]); (0x1C87, [0x462]);
    (0x1C88, [0xA64A]); (0x1D79, [0xA77D]); (0x1D7D, [0x2C63]);
    (0x1D8E, [0xA7C6]); (0x1E01, [0x1E00]); (0x1E03, [0x1E02]);
    (0x1E05, [0x1E04]); (0x1E07, [0x1E06]); (0x1E09, [0x1E08]);
    (0x1E0B, [0x1E0A]); (0x1E0D, [0x1E0C]); (0x1E0F, [0x1E0E]);
    (0x1E11, [0x1E10]); (0x1E13, [0x1E12]); (0x1E15, [0x1E14]);
    (0x1E17, [0x1E16]); (0x1E19, [0x1E18]); (0x1E1B, [0x1E1A]);
    (0x1E1D, [0x1E1C]); (0x1E1F, [0x1E1E]); (0x1E21, [0x1E20]);
    (0x1E23, [0x1E22]); (0x1E25, [0x1E24]); (0x1E27, [0x1E26]);
    (0x1E29, [0x1E28]); (0x1E2B, [0x1E2A]); (0x1E2D, [0x1E2C]);
    (0x1E2F, [0x1E2E]); (0x1E31, [0x1E30]); (0x1E33, [0x1E32]);
    (0x1E35, [0x1E34]); (0x1E37, [0x1E36]); (0x1E39, [0x1E38]);
    (0x1E3B, [0x1E3A]); (0x1E3D, [0x1E3C]); (0x1E3F, [0x1E3E]);
    (0x1E41, [0x1E40]); (0x1E43, [0x1E42]); (0x1E45, [0x1E44]);
    (0x1E47, [0x1E46]); (0x1E49, [0x1E48]); (0x1E4B, [0x1E4A]);
    (0x1E4D, [0x1E4C]); (0x1E4F, [0x1E4E]); (0x1E51, [0x1E50]);
    (0x1E53, [0x1E52]); (0x1E55, [0x1E54]); (0x1E57, [0x1E56]);
    (0x1E59, [0x1E58]); (0x1E5B, [0x1E5A]); (0x1E5D, [0x1E5C]);
    (0x1E5F, [0x1E5E]); (0x1E61, [0x1E60]); (0x1E63, [0x1E62]);
    (0x1E65, [0x1E64]); (0x1E67, [0x1E66]); (0x1E69, [0x1E68]);
    (0x1E6B, [0x1E6A]); (0x1E6D, [0x1E6C]); (0x1E6F, [0x1E6E]);
    (0x1E71, [0x1E70]); (0x1E73, [0x1E72]); (0x1E75, [0x1E74]);
    (0x1E77, [0x1E76]); (0x1E79, [0x1E78]); (0x1E7B, [0x1E7A]);
    (0x1E7D, [0x1E7C]); (0x1E7F, [0x1E7E]); (0x1E81, [0x1E80]);
    (0x1E83, [0x1E82]); (0x1E85, [0x1E84]); (0x1E87, [0x1E86]);
    (0x1E89, [0x1E88]); (0x1E8B, [0x1E8A]); (0x1E8D, [0x1E8C]);
    (0x1E8F, [0x1E8E]); (0x1E91, [0x1E90]); (0x1E93, [0x1E92]);
    (0x1E95, [0x1E94]); (0x1E96, [0x48; 0x331]); (0x1E97, [0x54; 0x308]);
    (0x1E98, [0x57; 0x30A]); (0x1E99, [0x59; 0x30A]); (0x1E9A, [0x41; 0x2BE]);
    (0x1E9B, [0x1E60]); (0x1EA1, [0x1EA0]); (0x1EA3, [0x1EA2]);
    (0x1EA5, [0x1EA4]); (0x1EA7, [0x1EA6]); (0x1EA9, [0x1EA8]);
    (0x1EAB, [0x1EAA]); (0x1EAD, [0x1EAC]); (0x1EAF, [0x1EAE]);
    (0x1EB1, [0x1EB0]); (0x1EB3, [0x1EB2]); (0x1EB5, [0x1EB4]);
    (0x1EB7, [0x1EB6]); (0x1EB9, [0x1EB8]); (0x1EBB, [0x1EBA]);
    (0x1EBD, [0x1EBC]); (0x1EBF, [0x1EBE]); (0x1EC1, [0x1EC0]);
    (0x1EC3, [0x1EC2]); (0x1EC5, [0x1EC4]); (0x1EC7, [0x1EC6]);
    (0x1EC9, [0x1EC8]); (0x1ECB, [0x1ECA]); (0x1ECD, [0x1ECC]);
    (0x1ECF, [0x1ECE]); (0x1ED1, [0x1ED0]); (0x1ED3, [0x1ED2]);
    (0x1ED5, [0x1ED4]); (0x1ED7, [0x1ED6]); (0x1ED9, [0x1ED8]);
    (0x1EDB, [0x1EDA]); (0x1EDD, [0x1EDC]); (0x1EDF, [0x1EDE]);
    (0x1EE1, [0x1EE0]); (0x1EE3, [0x1EE2]); (0x1EE5, [0x1EE4]);
    (0x1EE7, [0x1EE6]); (0x1EE9, [0x1EE8]); (0x1EEB, [0x1EEA]);
    (0x1EED, [0x1EEC]); (0x1EEF, [0x1EEE]); (0x1EF1, [0x1EF0]);
    (0x1EF3, [0x1EF2]); (0x1EF5, [0x1EF4]); (0x1EF7, [0x1EF6]);
    (0x1EF9, [0x1EF8]); (0x1EFB, [0x1EFA]); (0x1EFD, [0x1EFC]);
    (0x1EFF, [0x1EFE]); (0x1F00, [0x1F08]); (0x1F01, [0x1F09]);
    (0x1F02, [0x1F0A]); (0x1F03, [0x1F0B]); (0x1F04, [0x1F0C]);
    (0x1F05, [0x1F0D]); (0x1F06, [0x1F0E]); (0x1F07, [0x1F0F]);
    (0x1F10, [0x1F18]); (0x1F11, [0x1F19]); (0x1F12, [0x1F1A]);
    (0x1F13, [0x1F1B]); (0x1F14, [0x1F1C]); (0x1F15, [0x1F1D]);
    (0x1F20, [0x1F28]); (0x1F21, [0x1F29]); (0x1F22, [0x1F2A]);
    (0x1F23, [0x1F2B]); (0x1F24, [0x1F2C]); (0x1F25, [0x1F2D]);
    (0x1F26, [0x1F2E]); (0x1F27, [0x1F2F]); (0x1F30, [0x1F38]);
    (0x1F31, [0x1F39]); (0x1F32, [0x1F3A]); (0x1F33, [0x1F3B]);
    (0x1F34, [0x1F3C]); (0x1F35, [0x1F3D]); (0x1F36, [0x1F3E]);
    (0x1F37, [0x1F3F]); (0x1F40, [0x1F48]); (0x1F41, [0x1F49]);
    (0x1F42, [0x1F4A]); (0x1F43, [0x1F4B]); (0x1F44, [0x1F4C]);
    (0x1F45, [0x1F4D]); (0x1F50, [0x3A5; 0x313]); (0x1F51, [0x1F59]);
    (0x1F52, [0x3A5; 0x313; 0x300]); (0x1F53, [0x1F5B]);
    (0x1F54, [0x3A5; 0x313; 0x301]); (0x1F55, [0x1F5D]);
    (0x1F56, [0x3A5; 0x313; 0x342]); (0x1F57, [0x1F5F]); (0x1F60, [0x1F68]);
    (0x1F61, [0x1F69]); (0x1F62, [0x1F6A]); (0x1F63, [0x1F6B]);
    (0x1F64, [0x1F6C]); (0x1F65, [0x1F6D]); (0x1F66, [0x1F6E]);
    (0x1F67, [0x1F6F]); (0x1F70, [0x1FBA]); (0x1F71, [0x1FBB]);
    (0x1F72, [0x1FC8]); (0x1F73, [0x1FC9]); (0x1F74, [0x1FCA]);
    (0x1F75, [0x1FCB]); (0x1F76, [0x1FDA]); (0x1F77, [0x1FDB]);
    (0x1F78, [0x1FF8]); (0x1F79, [0x1FF9]); (0x1F7A, [0x1FEA]);
    (0x1F7B, [0x1FEB]); (0x1F7C, [0x1FFA]); (0x1F7D, [0x1FFB]);
    (0x1F80, [0x1F08; 0x399]); (0x1F81, [0x1F09; 0x399]);
    (0x1F82, [0x1F0A; 0x399]); (0x1F83, [0x1F0B; 0x399]);
    (0x1F84, [0x1F0C; 0x399]); (0x1F85, [0x1F0D; 0x399]);
    (0x1F86, [0x1F0E; 0x399]); (0x1F87, [0x1F0F; 0x399]);
    (0x1F88, [0x1F08; 0x399]); (0x1F89, [0x1F09; 0x399]);
    (0x1F8A, [0x1F0A; 0x399]); (0x1F8B, [0x1F0B; 0x399]);
    (0x1F8C, [0x1F0C; 0x399]); (0x1F8D, [0x1F0D; 0x399]);
    (0x1F8E, [0x1F0E; 0x399]); (0x1F8F, [0x1F0F; 0x399]);
    (0x1F90, [0x1F28; 0x399]); (0x1F91, [0x1F29; 0x399]);
    (0x1F92, [0x1F2A; 0x399]); (0x1F93, [0x1F2B; 0x399]);
    (0x1F94, [0x1F2C; 0x399]); (0x1F95, [0x1F2D; 0x399]);
    (0x1F96, [0x1F2E; 0x399]); (0x1F97, [0x1F2F; 0x399]);
    (0x1F98, [0x1F28; 0x399]); (0x1F99, [0x1F29; 0x399]);
    (0x1F9A, [0x1F2A; 0x399]); (0x1F9B, [0x1F2B; 0x399]);
    (0x1F9C, [0x1F2C; 0x399]); (0x1F9D, [0x1F2D; 0x399]);
    (0x1F9E, [0x1F2E; 0x399]); (0x1F9F, [0x1F2F; 0x399]);
    (0x1FA0, [0x1F68; 0x399]); (0x1FA1, [0x1F69; 0x399]);
    (0x1FA2, [0x1F6A; 0x399]); (0x1FA3, [0x1F6B; 0x399]);
    (0x1FA4, [0x1F6C; 0x399]); (0x1FA5, [0x1F6D; 0x399]);
    (0x1FA6, [0x1F6E; 0x399]); (0x1FA7, [0x1F6F; 0x399]);
    (0x1FA8, [0x1F68; 0x399]); (0x1FA9, [0x1F69; 0x399]);
    (0x1FAA, [0x1F6A; 0x399]); (0x1FAB, [0x1F6B; 0x399]);
    (0x1FAC, [0x1F6C; 0x399]); (0x1FAD, [0x1F6D; 0x399]);
    (0x1FAE, [0x1F6E; 0x399]); (0x1FAF, [0x1F6F; 0x399]); (0x1FB0, [0x1FB8]);
    (0x1FB1, [0x1FB9]); (0x1FB2, [0x1FBA; 0x399]); (0x1FB3, [0x391; 0x399]);
    (0x1FB4, [0x386; 0x399]); (0x1FB6, [0x391; 0x342]);
    (0x1FB7, [0x391; 0x342; 0x399]); (0x1FBC, [0x391; 0x399]);
    (0x1FBE, [0x399]); (0x1FC2, [0x1FCA; 0x399]); (0x1FC3, [0x397; 0x399]);
    (0x1FC4, [0x389; 0x399]); (0x1FC6, [0x397; 0x342]);
    (0x1FC7, [0x397; 0x342; 0x399]); (0x1FCC, [0x397; 0x399]);
    (0x1FD0, [0x1FD8]); (0x1FD1, [0x1FD9]); (0x1FD2, [0x399; 0x308; 0x300]);
    (0x1FD3, [0x399; 0x308; 0x301]); (0x1FD6, [0x399; 0x342]);
    (0x1FD7, [0x399; 0x308; 0x342]); (0x1FE0, [0x1FE8]); (0x1FE1, [0x1FE9]);
    (0x1FE2, [0x3A5; 0x308; 0x300]); (0x1FE3, [0x3A5; 0x308; 0x301]);
    (0x1FE4, [0x3A1; 0x313]); (0x1FE5, [0x1FEC]); (0x1FE6, [0x3A5; 0x342]);
    (0x1FE7, [0x3A5; 0x308; 0x342]); (0x1FF2, [0x1FFA; 0x399]);
    (0x1FF3, [0x3A9; 0x399]); (0x1FF4, [0x38F; 0x399]);
    (0x1FF6, [0x3A9; 0x342]); (0x1FF7, [0x3A9; 0x342; 0x399]);
    (0x1FFC, [0x3A9; 0x399]); (0x214E, [0x2132]); (0x2170, [0x2160]);
    (0x2171, [0x2161]); (0x2172, [0x2162]); (0x2173, [0x2163]);
    (0x2174, [0x2164]); (0x2175, [0x2165]); (0x2176, [0x2166]);
    (0x2177, [0x2167]); (0x2178, [0x2168]); (0x2179, [0x2169]);
    (0x217A, [0x216A]); (0x217B, [0x216B]); (0x217C, [0x216C]);
    (0x217D, [0x216D]); (0x217E, [0x216E]); (0x217F, [0x216F]);
    (0x2184, [0x2183]); (0x24D0, [0x24B6]); (0x24D1, [0x24B7]);
    (0x24D2, [0x24B8]); (0x24D3, [0x24B9]); (0x24D4, [0x24BA]);
    (0x24D5, [0x24BB]); (0x24D6, [0x24BC]); (0x24D7, [0x24BD]);
    (0x24D8, [0x24BE]); (0x24D9, [0x24BF]); (0x24DA, [0x24C0]);
    (0x24DB, [0x24C1]); (0x24DC, [0x24C2]); (0x24DD, [0x24C3]);
    (0x24DE, [0x24C4]); (0x24DF, [0x24C5]); (0x24E0, [0x24C6]);
    (0x24E1, [0x24C7]); (0x24E2, [0x24C8]); (0x24E3, [0x24C9]);
    (0x24E4, [0x24CA]); (0x24E5, [0x24CB]); (0x24E6, [0x24CC]);
    (0x24E7, [0x24CD]); (0x24E8, [0x24CE]); (0x24E9, [0x24CF]);
    (0x2C30, [0x2C00]); (0x2C31, [0x2C01]); (0x2C32, [0x2C02]);
    (0x2C33, [0x2C03]); (0x2C34, [0x2C04]); (0x2C35, [0x2C05]);
    (0x2C36, [0x2C06]); (0x2C37, [0x2C07]); (0x2C38, [0x2C08]);
    (0x2C39, [0x2C09]); (0x2C3A, [0x2C0A]); (0x2C3B, [0x2C0B]);
    (0x2C3C, [0x2C0C]); (0x2C3D, [0x2C0D]); (0x2C3E, [0x2C0E]);
    (0x2C3F, [0x2C0F]); (0x2C40, [0x2C10]); (0x2C41, [0x2C11]);
    (0x2C42, [0x2C12]); (0x2C43, [0x2C13]); (0x2C44, [0x2C14]);
    (0x2C45, [0x2C15]); (0x2C46, [0x2C16]); (0x2C47, [0x2C17]);
    (0x2C48, [0x2C18]); (0x2C49, [0x2C19]); (0x2C4A, [0x2C1A]);
    (0x2C4B, [0x2C1B]); (0x2C4C, [0x2C1C]); (0x2C4D, [0x2C1D]);
    (0x2C4E, [0x2C1E]); (0x2C4F, [0x2C1F]); (0x2C50, [0x2C20]);
    (0x2C51, [0x2C21]); (0x2C52, [0x2C22]); (0x2C53, [0x2C23]);
    (0x2C54, [0x2C24]); (0x2C55, [0x2C25]); (0x2C56, [0x2C26]);
    (0x2C57, [0x2C27]); (0x2C58, [0x2C28]); (0x2C59, [0x2C29]);
    (0x2C5A, [0x2C2A]); (0x2C5B, [0x2C2B]); (0x2C5C, [0x2C2C]);
    (0x2C5D, [0x2C2D]); (0x2C5E, [0x2C2E]); (0x2C5F, [0x2C2F]);
    (0x2C61, [0x2C60]); (0x2C65, [0x23A]); (0x2C66, [0x23E]);
    (0x2C68, [0x2C67]); (0x2C6A, [0x2C69]); (0x2C6C, [0x2C6B]);
    (0x2C73, [0x2C72]); (0x2C76, [0x2C75]); (0x2C81, [0x2C80]);
    (0x2C83, [0x2C82]); (0x2C85, [0x2C84]); (0x2C87, [0x2C86]);
    (0x2C89, [0x2C88]); (0x2C8B, [0x2C8A]); (0x2C8D, [0x2C8C]);
    (0x2C8F, [0x2C8E]); (0x2C91, [0x2C90]); (0x2C93, [0x2C92]);
    (0x2C95, [0x2C94]); (0x2C97, [0x2C96]); (0x2C99, [0x2C98]);
    (0x2C9B, [0x2C9A]); (0x2C9D, [0x2C9C]); (0x2C9F, [0x2C9E]);
    (0x2CA1, [0x2CA0]); (0x2CA3, [0x2CA2]); (0x2CA5, [0x2CA4]);
    (0x2CA7, [0x2CA6]); (0x2CA9, [0x2CA8]); (0x2CAB, [0x2CAA]);
    (0x2CAD, [0x2CAC]); (0x2CAF, [0x2CAE]); (0x2CB1, [0x2CB0]);
    (0x2CB3, [0x2CB2]); (0x2CB5, [0x2CB4]); (0x2CB7, [0x2CB6]);
    (0x2CB9, [0x2CB8]); (0x2CBB, [0x2CBA]); (0x2CBD, [0x2CBC]);
    (0x2CBF, [0x2CBE]); (0x2CC1, [0x2CC0]); (0x2CC3, [0x2CC2]);
    (0x2CC5, [0x2CC4]); (0x2CC7, [0x2CC6]); (0x2CC9, [0x2CC8]);
    (0x2CCB, [0x2CCA]); (0x2CCD, [0x2CCC]); (0x2CCF, [0x2CCE]);
    (0x2CD1, [0x2CD0]); (0x2CD3, [0x2CD2]); (0x2CD5, [0x2CD4]);
    (0x2CD7, [0x2CD6]); (0x2CD9, [0x2CD8]); (0x2CDB, [0x2CDA]);
    (0x2CDD, [0x2CDC]); (0x2CDF, [0x2CDE]); (0x2CE1, [0x2CE0]);
    (0x2CE3, [0x2CE2]); (0x2CEC, [0x2CEB]); (0x2CEE, [0x2CED]);
    (0x2CF3, [0x2CF2]); (0x2D00, [0x10A0]); (0x2D01, [0x10A1]);
    (0x2D02, [0x10A2]); (0x2D03, [0x10A3]); (0x2D04, [0x10A4]);
    (0x2D05, [0x10A5]); (0x2D06, [0x10A6]); (0x2D07, [0x10A7]);
    (0x2D08, [0x10A8]); (0x2D09, [0x10A9]); (0x2D0A, [0x10AA]);
    (0x2D0B, [0x10AB]); (0x2D0C, [0x10AC]); (0x2D0D, [0x10AD]);
    (0x2D0E, [0x10AE]); (0x2D0F, [0x10AF]); (0x2D10, [0x10B0]);
    (0x2D11, [0x10B1]); (0x2D12, [0x10B2]); (0x2D13, [0x10B3]);
    (0x2D14, [0x10B4]); (0x2D15, [0x10B5]); (0x2D16, [0x10B6]);
    (0x2D17, [0x10B7]); (0x2D18, [0x10B8]); (0x2D19, [0x10B9]);
    (0x2D1A, [0x10BA]); (0x2D1B, [0x10BB]); (0x2D1C, [0x10BC]);
    (0x2D1D, [0x10BD]); (0x2D1E, [0x10BE]); (0x2D1F, [0x10BF]);
    (0x2D20, [0x10C0]); (0x2D21, [0x10C1]); (0x2D22, [0x10C2]);
    (0x2D23, [0x10C3]); (0x2D24, [0x10C4]); (0x2D25, [0x10C5]);
    (0x2D27, [0x10C7]); (0x2D2D, [0x10CD]); (0xA641, [0xA640]);
    (0xA643, [0xA642]); (0xA645, [0xA644]); (0xA647, [0xA646]);
    (0xA649, [0xA648]); (0xA64B, [0xA64A]); (0xA64D, [0xA64C]);
    (0xA64F, [0xA64E]); (0xA651, [0xA650]); (0xA653, [0xA652]);
    (0xA655, [0xA654]); (0xA657, [0xA656]); (0xA659, [0xA658]);
    (0xA65B, [0xA65A]); (0xA65D, [0xA65C]); (0xA65F, [0xA65E]);
    (0xA661, [0xA660]); (0xA663, [0xA662]); (0xA665, [0xA664]);
    (0xA667, [0xA666]); (0xA669, [0xA668]); (0xA66B, [0xA66A]);
    (0xA66D, [0xA66C]); (0xA681, [0xA680]); (0xA683, [0xA682]);
    (0xA685, [0xA684]); (0xA687, [0xA686]); (0xA689, [0xA688]);
    (0xA68B, [0xA68A]); (0xA68D, [0xA68C]); (0xA68F, [0xA68E]);
    (0xA691, [0xA690]); (0xA693, [0xA692]); (0xA695, [0xA694]);
    (0xA697, [0xA696]); (0xA699, [0xA698]); (0xA69B, [0xA69A]);
    (0xA723, [0xA722]); (0xA725, [0xA724]); (0xA727, [0xA726]);
    (0xA729, [0xA728]); (0xA72B, [0xA72A]); (0xA72D, [0xA72C]);
    (0xA72F, [0xA72E]); (0xA733, [0xA732]); (0xA735, [0xA734]);
    (0xA737, [0xA736]); (0xA739, [0xA738]); (0xA73B, [0xA73A]);
    (0xA73D, [0xA73C]); (0xA73F, [0xA73E]); (0xA741, [0xA740]);
    (0xA743, [0xA742]); (0xA745, [0xA744]); (0xA747, [0xA746]);
    (0xA749, [0xA748]); (0xA74B, [0xA74A]); (0xA74D, [0xA74C]);
    (0xA74F, [0xA74E]); (0xA751, [0xA750]); (0xA753, [0xA752]);
    (0xA755, [0xA754]); (0xA757, [0xA756]); (0xA759, [0xA758]);
    (0xA75B, [0xA75A]); (0xA75D, [0xA75C]); (0xA75F, [0xA75E]);
    (0xA761, [0xA760]); (0xA763, [0xA762]); (0xA765, [0xA764]);
    (0xA767, [0xA766]); (0xA769, [0xA768]); (0xA76B, [0xA76A]);
    (0xA76D, [0xA76C]); (0xA76F, [0xA76E]); (0xA77A, [0xA779]);
    (0xA77C, [0xA77B]); (0xA77F, [0xA77E]); (0xA781, [0xA780]);
    (0xA783, [0xA782]); (0xA785, [0xA784]); (0xA787, [0xA786]);
    (0xA78C, [0xA78B]); (0xA791, [0xA790]); (0xA793, [0xA792]);
    (0xA794, [0xA7C4]); (0xA797, [0xA796]); (0xA799, [0xA798]);
    (0xA79B, [0xA79A]); (0xA79D, [0xA79C]); (0xA79F, [0xA79E]);
    (0xA7A1, [0xA7A0]); (0xA7A3, [0xA7A2]); (0xA7A5, [0xA7A4]);
    (0xA7A7, [0xA7A6]); (0xA7A9, [0xA7A8]); (0xA7B5, [0xA7B4]);
    (0xA7B7, [0xA7B6]); (0xA7B9, [0xA7B8]); (0xA7BB, [0xA7BA]);
    (0xA7BD, [0xA7BC]); (0xA7BF, [0xA7BE]); (0xA7C1, [0xA7C0]);
    (0xA7C3, [0xA7C2]); (0xA7C8, [0xA7C7]); (0xA7CA, [0xA7C9]);
    (0xA7D1, [0xA7D0]); (0xA7D7, [0xA7D6]); (0xA7D9, [0xA7D8]);
    (0xA7F6, [0xA7F5]); (0xAB53, [0xA7B3]); (0xAB70, [0x13A0]);
    (0xAB71, [0x13A1]); (0xAB72, [0x13A2]); (0xAB73, [0x13A3]);
    (0xAB74, [0x13A4]); (0xAB75, [0x13A5]); (0xAB76, [0x13A6]);
    (0xAB77, [0x13A7]); (0xAB78, [0x13A8]); (0xAB79, [0x13A9]);
    (0xAB7A, [0x13AA]); (0xAB7B, [0x13AB]); (0xAB7C, [0x13AC]);
    (0xAB7D, [0x13AD]); (0xAB7E, [0x13AE]); (0xAB7F, [0x13AF]);
    (0xAB80, [0x13B0]); (0xAB81, [0x13B1]); (0xAB82, [0x13B2]);
    (0xAB83, [0x13B3]); (0xAB84, [0x13B4]); (0xAB85, [0x13B5]);
    (0xAB86, [0x13B6]); (0xAB87, [0x13B7]); (0xAB88, [0x13B8]);
    (0xAB89, [0x13B9]); (0xAB8A, [0x13BA]); (0xAB8B, [0x13BB]);
    (0xAB8C, [0x13BC]); (0xAB8D, [0x13BD]); (0xAB8E, [0x13BE]);
    (0xAB8F, [0x13BF]); (0xAB90, [0x13C0]); (0xAB91, [0x13C1]);
    (0xAB92, [0x13C2]); (0xAB93, [0x13C3]); (0xAB94, [0x13C4]);
    (0xAB95, [0x13C5]); (0xAB96, [0x13C6]); (0xAB97, [0x13C7]);
    (0xAB98, [0x13C8]); (0xAB99, [0x13C9]); (0xAB9A, [0x13CA]);
    (0xAB9B, [0x13CB]); (0xAB9C, [0x13CC]); (0xAB9D, [0x13CD]);
    (0xAB9E, [0x13CE]); (0xAB9F, [0x13CF]); (0xABA0, [0x13D0]);
    (0xABA1, [0x13D1]); (0xABA2, [0x13D2]); (0xABA3, [0x13D3]);
    (0xABA4, [0x13D4]); (0xABA5, [0x13D5]); (0xABA6, [0x13D6]);
    (0xABA7, [0x13D7]); (0xABA8, [0x13D8]); (0xABA9, [0x13D9]);
    (0xABAA, [0x13DA]); (0xABAB, [0x13DB]); (0xABAC, [0x13DC]);
    (0xABAD, [0x13DD]); (0xABAE, [0x13DE]); (0xABAF, [0x13DF]);
    (0xABB0, [0x13E0]); (0xABB1, [0x13E1]); (0xABB2, [0x13E2]);
    (0xABB3, [0x13E3]); (0xABB4, [0x13E4]); (0xABB5, [0x13E5]);
    (0xABB6, [0x13E6]); (0xABB7, [0x13E7]); (0xABB8, [0x13E8]);
    (0xABB9, [0x13E9]); (0xABBA, [0x13EA]); (0xABBB, [0x13EB]);
    (0xABBC, [0x13EC]); (0xABBD, [0x13ED]); (0xABBE, [0x13EE]);
    (0xABBF, [0x13EF]); (0xFB00, [0x46; 0x46]); (0xFB01, [0x46; 0x49]);
    (0xFB02, [0x46; 0x4C]); (0xFB03, [0x46; 0x46; 0x49]);
    (0xFB04, [0x46; 0x46; 0x4C]); (0xFB05, [0x53; 0x54]);
    (0xFB06, [0x53; 0x54]); (0xFB13, [0x544; 0x546]);
    (0xFB14, [0x544; 0x535]); (0xFB15, [0x544; 0x53B]);
    (0xFB16, [0x54E; 0x546]); (0xFB17, [0x544; 0x53D]); (0xFF41, [0xFF21]);
    (0xFF42, [0xFF22]); (0xFF43, [0xFF23]); (0xFF44, [0xFF24]);
    (0xFF45, [0xFF25]); (0xFF46, [0xFF26]); (0xFF47, [0xFF27]);
    (0xFF48, [0xFF28]); (0xFF49, [0xFF29]); (0xFF4A, [0xFF2A]);
    (0xFF4B, [0xFF2B]); (0xFF4C, [0xFF2C]); (0xFF4D, [0xFF2D]);
    (0xFF4E, [0xFF2E]); (0xFF4F, [0xFF2F]); (0xFF50, [0xFF30]);
    (0xFF51, [0xFF31]); (0xFF52, [0xFF32]); (0xFF53, [0xFF33]);
    (0xFF54, [0xFF34]); (0xFF55, [0xFF35]); (0xFF56, [0xFF36]);
    (0xFF57, [0xFF37]); (0xFF58, [0xFF38]); (0xFF59, [0xFF39]);
    (0xFF5A, [0xFF3A]); (0x10428, [0x10400]); (0x10429, [0x10401]);
    (0x1042A, [0x10402]); (0x1042B, [0x10403]); (0x1042C, [0x10404]);
    (0x1042D, [0x10405]); (0x1042E, [0x10406]); (0x1042F, [0x10407]);
    (0x10430, [0x10408]); (0x10431, [0x10409]); (0x10432, [0x1040A]);
    (0x10433, [0x1040B]); (0x10434, [0x1040C]); (0x10435, [0x1040D]);
    (0x10436, [0x1040E]); (0x10437, [0x1040F]); (0x10438, [0x10410]);
    (0x10439, [0x10411]); (0x1043A, [0x10412]); (0x1043B, [0x10413]);
    (0x1043C, [0x10414]); (0x1043D, [0x10415]); (0x1043E, [0x10416]);
    (0x1043F, [0x10417]); (0x10440, [0x10418]); (0x10441, [0x10419]);
    (0x10442, [0x1041A]); (0x10443, [0x1041B]); (0x10444, [0x1041C]);
    (0x10445, [0x1041D]); (0x10446, [0x1041E]); (0x10447, [0x1041F]);
    (0x10448, [0x10420]); (0x10449, [0x10421]); (0x1044A, [0x10422]);
    (0x1044B, [0x10423]); (0x1044C, [0x10424]); (0x1044D, [0x10425]);
    (0x1044E, [0x10426]); (0x1044F, [0x10427]); (0x104D8, [0x104B0]);
    (0x104D9, [0x104B1]); (0x104DA, [0x104B2]); (0x104DB, [0x104B3]);
    (0x104DC, [0x104B4]); (0x104DD, [0x104B5]); (0x104DE, [0x104B6]);
    (0x104DF, [0x104B7]); (0x104E0, [0x104B8]); (0x104E1, [0x104B9]);
    (0x104E2, [0x104BA]); (0x104E3, [0x104BB]); (0x104E4, [0x104BC]);
    (0x104E5, [0x104BD]); (0x104E6, [0x104BE]); (0x104E7, [0x104BF]);
    (0x104E8, [0x104C0]); (0x104E9, [0x104C1]); (0x104EA, [0x104C2]);
    (0x104EB, [0x104C3]); (0x104EC, [0x104C4]); (0x104ED, [0x104C5]);
    (0x104EE, [0x104C6]); (0x104EF, [0x104C7]); (0x104F0, [0x104C8]);
    (0x104F1, [0x104C9]); (0x104F2, [0x104CA]); (0x104F3, [0x104CB]);
    (0x104F4, [0x104CC]); (0x104F5, [0x104CD]); (0x104F6, [0x104CE]);
    (0x104F7, [0x104CF]); (0x104F8, [0x104D0]); (0x104F9, [0x104D1]);
    (0x104FA, [0x104D2]); (0x104FB, [0x104D3]); (0x10597, [0x10570]);
    (0x10598, [0x10571]); (0x10599, [0x10572]); (0x1059A, [0x10573]);
    (0x1059B, [0x10574]); (0x1059C, [0x10575]); (0x1059D, [0x10576]);
    (0x1059E, [0x10577]); (0x1059F, [0x10578]); (0x105A0, [0x10579]);
    (0x105A1, [0x1057A]); (0x105A3, [0x1057C]); (0x105A4, [0x1057D]);
    (0x105A5, [0x1057E]); (0x105A6, [0x1057F]); (0x105A7, [0x10580]);
    (0x105A8, [0x10581]); (0x105A9, [0x10582]); (0x105AA, [0x10583]);
    (0x105AB, [0x10584]); (0x105AC, [0x10585]); (0x105AD, [0x10586]);
    (0x105AE, [0x10587]); (0x105AF, [0x10588]); (0x105B0, [0x10589]);
    (0x105B1, [0x1058A]); (0x105B3, [0x1058C]); (0x105B4, [0x1058D]);
    (0x105B5, [0x1058E]); (0x105B6, [0x1058F]); (0x105B7, [0x10590]);
    (0x105B8, [0x10591]); (0x105B9, [0x10592]); (0x105BB, [0x10594]);
    (0x105BC, [0x10595]); (0x10CC0, [0x10C80]); (0x10CC1, [0x10C81]);
    (0x10CC2, [0x10C82]); (0x10CC3, [0x10C83]); (0x10CC4, [0x10C84]);
    (0x10CC5, [0x10C85]); (0x10CC6, [0x10C86]); (0x10CC7, [0x10C87]);
    (0x10CC8, [0x10C88]); (0x10CC9, [0x10C89]); (0x10CCA, [0x10C8A]);
    (0x10CCB, [0x10C8B]); (0x10CCC, [0x10C8C]); (0x10CCD, [0x10C8D]);
    (0x10CCE, [0x10C8E]); (0x10CCF, [0x10C8F]); (0x10CD0, [0x10C90]);
    (0x10CD1, [0x10C91]); (0x10CD2, [0x10C92]); (0x10CD3, [0x10C93]);
    (0x10CD4, [0x10C94]); (0x10CD5, [0x10C95]); (0x10CD6, [0x10C96]);
    (0x10CD7, [0x10C97]); (0x10CD8, [0x10C98]); (0x10CD9, [0x10C99]);
    (0x10CDA, [0x10C9A]); (0x10CDB, [0x10C9B]); (0x10CDC, [0x10C9C]);
    (0x10CDD, [0x10C9D]); (0x10CDE, [0x10C9E]); (0x10CDF, [0x10C9F]);
    (0x10CE0, [0x10CA0]); (0x10CE1, [0x10CA1]); (0x10CE2, [0x10CA2]);
    (0x10CE3, [0x10CA3]); (0x10CE4, [0x10CA4]); (0x10CE5, [0x10CA5]);
    (0x10CE6, [0x10CA6]); (0x10CE7, [0x10CA7]); (0x10CE8, [0x10CA8]);
    (0x10CE9, [0x10CA9]); (0x10CEA, [0x10CAA]); (0x10CEB, [0x10CAB]);
    (0x10CEC, [0x10CAC]); (0x10CED, [0x10CAD]); (0x10CEE, [0x10CAE]);
    (0x10CEF, [0x10CAF]); (0x10CF0, [0x10CB0]); (0x10CF1, [0x10CB1]);
    (0x10CF2, [0x10CB2]); (0x118C0, [0x118A0]); (0x118C1, [0x118A1]);
    (0x118C2, [0x118A2]); (0x118C3, [0x118A3]); (0x118C4, [0x118A4]);
    (0x118C5, [0x118A5]); (0x118C6, [0x118A6]); (0x118C7, [0x118A7]);
    (0x118C8, [0x118A8]); (0x118C9, [0x118A9]); (0x118CA, [0x118AA]);
    (0x118CB, [0x118AB]); (0x118CC, [0x118AC]); (0x118CD, [0x118AD]);
    (0x118CE, [0x118AE]); (0x118CF, [0x118AF]); (0x118D0, [0x118B0]);
    (0x118D1, [0x118B1]); (0x118D2, [0x118B2]); (0x118D3, [0x118B3]);
    (0x118D4, [0x118B4]); (0x118D5, [0x118B5]); (0x118D6, [0x118B6]);
    (0x118D7, [0x118B7]); (0x118D8, [0x118B8]); (0x118D9, [0x118B9]);
    (0x118DA, [0x118BA]); (0x118DB, [0x118BB]); (0x118DC, [0x118BC]);
    (0x118DD, [0x118BD]); (0x118DE, [0x118BE]); (0x118DF, [0x118BF]);
    (0x16E60, [0x16E40]); (0x16E61, [0x16E41]); (0x16E62, [0x16E42]);
    (0x16E63, [0x16E43]); (0x16E64, [0x16E44]); (0x16E65, [0x16E45]);
    (0x16E66, [0x16E46]); (0x16E67, [0x16E47]); (0x16E68, [0x16E48]);
    (0x16E69, [0x16E49]); (0x16E6A, [0x16E4A]); (0x16E6B, [0x16E4B]);
    (0x16E6C, [0x16E4C]); (0x16E6D, [0x16E4D]); (0x16E6E, [0x16E4E]);
    (0x16E6F, [0x16E4F]); (0x16E70, [0x16E50]); (0x16E71, [0x16E51]);
    (0x16E72, [0x16E52]); (0x16E73, [0x16E53]); (0x16E74, [0x16E54]);
    (0x16E75, [0x16E55]); (0x16E76, [0x16E56]); (0x16E77, [0x16E57]);
    (0x16E78, [0x16E58]); (0x16E79, [0x16E59]); (0x16E7A, [0x16E5A]);
    (0x16E7B, [0x16E5B]); (0x16E7C, [0x16E5C]); (0x16E7D, [0x16E5D]);
    (0x16E7E, [0x16E5E]); (0x16E7F, [0x16E5F]); (0x1E922, [0x1E900]);
    (0x1E923, [0x1E901]); (0x1E924, [0x1E902]); (0x1E925, [0x1E903]);
    (0x1E926, [0x1E904]); (0x1E927, [0x1E905]); (0x1E928, [0x1E906]);
    (0x1E929, [0x1E907]); (0x1E92A, [0x1E908]); (0x1E92B, [0x1E909]);
    (0x1E92C, [0x1E90A]); (0x1E92D, [0x1E90B]); (0x1E92E, [0x1E90C]);
    (0x1E92F, [0x1E90D]); (0x1E930, [0x1E90E]); (0x1E931, [0x1E90F]);
    (0x1E932, [0x1E910]); (0x1E933, [0x1E911]); (0x1E934, [0x1E912]);
    (0x1E935, [0x1E913]); (0x1E936, [0x1E914]); (0x1E937, [0x1E915]);
    (0x1E938, [0x1E916]); (0x1E939, [0x1E917]); (0x1E93A, [0x1E918]);
    (0x1E93B, [0x1E919]); (0x1E93C, [0x1E91A]); (0x1E93D, [0x1E91B]);
    (0x1E93E, [0x1E91C]); (0x1E93F, [0x1E91D]); (0x1E940, [0x1E91E]);
    (0x1E941, [0x1E91F]); (0x1E942, [0x1E920]); (0x1E943, [0x1E921])
  ]%N.

Definition upper_entries : list (string * string) :=
  (λ p : N * list N, (utf8 p.1, join (utf8 <$> p.2))) <$> upper_table.

Fixpoint assoc (c : string) (t : list (string * string)) : option string :=
  match t with
  | (k, u) :: t' => if String.eqb c k then Some u else assoc c t'
  | [] => None
  end.

Definition unicode_upper (c : string) : string :=
  default c (assoc c upper_entries).

(** The pandas of the examples, with the upper case of Unicode. *)
Definition unicode_pandas : Pandas := {|
  float_str := @float_str iso_pandas;
  timestamp_str := @timestamp_str iso_pandas;
  to_datetime := @to_datetime iso_pandas;
  py_upper := unicode_upper;
  group_sum := @group_sum iso_pandas
|}.

(** Frames for the examples. *)
Definition frame (cols : list string) (data : list (list cell)) : DataFrame :=
  {| columns := cols; rows := (λ vs, list_to_map (zip cols vs)) <$> data |}.

(** A row whose KPIs give the score 0, one whose unclipped score is
    inf - inf, and a small monthly table. *)
Definition kpi_columns : list string :=
  ["production_efficiency"; "defect_rate"; "downtime_per_unit"].

Definition zero_score_frame : DataFrame :=
  frame kpi_columns [[Num 1; Num 0; Num 0]].

Definition nan_score_frame : DataFrame :=
  frame kpi_columns [[Num infinity; Num infinity; Num 0]].

Definition scored_example : DataFrame :=
  frame kpi_columns
    [[Num 1; Num nan; Num 0.125];
     [Num 0.5; Num 0.5; Num 0];
     [Num 0.25; Num 1; Num 3];
     [Num nan; Num nan; Dt None]].

(** A frame of text, with untidy codes and a missing one, in a store. *)
Definition text_example : DataFrame :=
  frame ["plant_id"; "product_code"]
    [[Str " p1 "; Str " ab c "]; [Str "P2"; Num nan]].

Definition store_example : gmap positive DataFrame := {[ 1%positive := text_example ]}.

(** Operational rows and a product master: the code [" abc "] is in the
    master as ["ABC"], the code ["zz"] is not. *)
Definition operations_example : DataFrame :=
  frame ["plant_id"; "product_code"; "units_produced"]
    [[Str "P1"; Str " abc "; Num 100];
     [Str "P1"; Str "zz"; Num 50];
     [Str "P2"; Str "x y"; Num 7]].

Definition master_example : DataFrame :=
  frame ["product_code_raw"; "product_code_std"; "product_family"]
    [[Str "abc"; Str "std-abc"; Str "f1"];
     [Str "XY"; Str "STD-XY"; Num nan]].

(** A master whose second product has no standard code. *)
Definition master_missing_std : DataFrame :=
  frame ["product_code_raw"; "product_code_std"; "product_family"]
    [[Str "abc"; Str "std-abc"; Str "f1"];
     [Str "XY"; Num nan; Str "f2"]].

(** A frame with text outside ASCII: a sharp s, which has the upper case
    SS, a no-break space and an ideographic space. *)
Definition unicode_text_example : DataFrame :=
  frame ["plant_id"; "product_code"]
    [[Str "p1"; Str (utf8 0xA0 +:+ "stra" +:+ utf8 0xDF +:+ "e " +:+ utf8 0x3000 +:+ "7 ")];
     [Str "p2"; Num nan]].

(** ** Notions used in the statements *)

(** The frame with [f] applied to every cell of column [c]. *)
Definition map_column (f : cell → cell) (c : string) (df : DataFrame) : DataFrame :=
  {| columns := columns df; rows := alter f c <$> rows df |}.

(** Column [c] is a label of the frame and every row has a cell for it. *)
Definition has_column (df : DataFrame) (c : string) : Prop :=
  c ∈ columns df ∧ Forall (λ r : row, is_Some (r !! c)) (rows df).

(** The row with [f] applied to the cells of the columns [cols]. *)
Definition map_cells (f : cell → cell) (cols : list string) (r : row) : row :=
  foldl (λ r c, alter f c r) r cols.

(** Text of ASCII characters, and its upper case. *)
Definition is_ascii (s : string) : bool :=
  forallb (λ a, (nat_of_ascii a <? 128)%nat) (list_ascii_of_string s).

Fixpoint ascii_str_upper (s : string) : string :=
  match s with
  | String a s' => String (ascii_upper a) (ascii_str_upper s')
  | EmptyString => EmptyString
  end.

(** Pieces that [chars] can return: a byte with its continuation bytes
    each, and all but the first beginning a character. *)
Definition segmented (cs : list string) : Prop :=
  Forall (λ c, is_chunk c = true) cs ∧ Forall (λ c, starts_char c = true) (tail cs).

(** The characters of the upper case of one piece of a str. *)
Definition upper_chars `{Pandas} (c : string) : list string := chars (upper_char c).

(** The canonical line codes. *)
Definition canonical_codes : list string := ["LINE01"; "LINE02"; "LINE03"].

(** The number in column [c] of a row (NaN when there is none). *)
Definition fnum (c : string) (r : row) : float :=
  match r !! c with Some (Num x) => x | _ => nan end.

Definition is_num_cell (c : string) (r : row) : bool :=
  match r !! c with Some (Num _) => true | _ => false end.

(** Column [c] exists and holds numbers only. *)
Definition numericb (df : DataFrame) (c : string) : bool :=
  bool_decide (c ∈ columns df) && forallb (is_num_cell c) (rows df).

(** The business rules of section 4.4, on one row: production rows need
    units_produced > 0, planned_units not missing, and
    planned_units >= units_produced. *)
Definition production_rule (r : row) : bool :=
  match r !! "units_produced", r !! "planned_units" with
  | Some (Num u), Some (Num p) =>
      (0 <? u)%float && negb (PrimFloat.is_nan p) && (u <=? p)%float
  | _, _ => false
  end.

(** Quality rows need units_inspected not missing and > 0, defect_units
    not missing, and 0 <= defect_units <= units_inspected. *)
Definition quality_rule (r : row) : bool :=
  match r !! "units_inspected", r !! "defect_units" with
  | Some (Num i), Some (Num d) =>
      negb (PrimFloat.is_nan i) && (0 <? i)%float && negb (PrimFloat.is_nan d)
      && (0 <=? d)%float && (d <=? i)%float
  | _, _ => false
  end.

(** The labels of a frame after the assignment [df[c] = ...]. *)
Definition with_column (cols : list string) (c : string) : list string :=
  if decide (c ∈ cols) then cols else cols ++ [c].

(** A KPI of a row for scoring, a missing one counted as 0. *)
Definition kpi (c : string) (r : row) : float :=
  match r !! c with
  | Some (Num x) => if PrimFloat.is_nan x then 0%float else x
  | _ => 0%float
  end.

(** A cell that [fillna(0)] turns into a number: a number or a missing
    value. *)
Definition scorable_cell (c : string) (r : row) : bool :=
  match r !! c with
  | Some (Num _) | Some (Dt None) => true
  | _ => false
  end.

Definition scorableb (df : DataFrame) (c : string) : bool :=
  bool_decide (c ∈ columns df) && forallb (scorable_cell c) (rows df).

(** The score of section 4.9 before and after clipping, and the level. *)
Definition raw_score (r : row) : float :=
  ((1 - kpi "production_efficiency" r) * 50 + kpi "defect_rate" r * 30
   + kpi "downtime_per_unit" r * 20)%float.

Definition risk_score (r : row) : float := clip 0 100 (raw_score r).

Definition risk_level (r : row) : cell := cut risk_bins risk_labels (risk_score r).

Definition scored_row (r : row) : row :=
  <["risk_level" := risk_level r]> (<["risk_score" := Num (risk_score r)]> r).

(** ** The order of float64

    A number that is not NaN has a key, a triple of integers whose
    lexicographic order is the order of the numbers: the class (the
    infinities, the two signs, zero), then the exponent, then the
    mantissa. *)
Definition sf_key (f : spec_float) : option (Z * Z * Z) :=
  match f with
  | S754_nan => None
  | S754_infinity true => Some (-2, 0, 0)
  | S754_infinity false => Some (2, 0, 0)
  | S754_zero _ => Some (0, 0, 0)
  | S754_finite true m e => Some (-1, - e, Z.neg m)
  | S754_finite false m e => Some (1, e, Z.pos m)
  end%Z.

Definition float_key (x : float) : option (Z * Z * Z) := sf_key (Prim2SF x).

Definition lex_compare (a b : Z * Z * Z) : comparison :=
  match a.1.1 ?= b.1.1 with
  | Eq => match a.1.2 ?= b.1.2 with
          | Eq => a.2 ?= b.2
          | o => o
          end
  | o => o
  end%Z.

Definition lex_lt (a b : Z * Z * Z) : Prop :=
  (a.1.1 < b.1.1 ∨ (a.1.1 = b.1.1 ∧ (a.1.2 < b.1.2 ∨ (a.1.2 = b.1.2 ∧ a.2 < b.2))))%Z.

(** ** Notions for the product master mapping *)

(** The cell of column [c] of a row (missing when there is none). *)
Definition cellof (c : string) (r : row) : cell := default (Num nan) (r !! c).

(** The rows that a left row contributes to a left join. *)
Definition merge_rows (left right : DataFrame) (left_on right_on : string)
    (l : row) : list row :=
  let l' := relabel (suffix_x (columns right)) (columns left) l in
  match List.filter (λ m, key_eqb (cellof left_on l) (cellof right_on m)) (rows right) with
  | [] => [l' ∪ missing_row (suffix_y (columns left) <$> columns right)]
  | ms => (λ m, l' ∪ relabel (suffix_y (columns left)) (columns right) m) <$> ms
  end.

Definition master_columns : list string :=
  ["product_code_raw"; "product_code_std"; "product_family"].

(** The cleaned product code of the operational row [r] is the cleaned
    raw code of the master row [m]. *)
Definition code_match `{Pandas} (r m : row) : bool :=
  match r !! "product_code", m !! "product_code_raw" with
  | Some a, Some b => key_eqb (clean_cell a) (clean_cell b)
  | _, _ => false
  end.

(** The output row for the operational row [r] matched with the master
    row [m]: both cleaned, joined, and without the raw code. *)
Definition mapped_row `{Pandas} (lcols rcols : list string) (r m : row) : row :=
  delete "product_code_raw"
    (relabel (suffix_x rcols) lcols (map_cells clean_cell ["product_code"] r)
     ∪ relabel (suffix_y lcols) rcols (map_cells clean_cell master_columns m)).

(** The output rows that come from the operational row [r]: one for
    each master row whose code matches. *)
Definition mapped_rows `{Pandas} (df pm : DataFrame) (r : row) : list row :=
  mapped_row (columns df) (columns pm) r <$> List.filter (code_match r) (rows pm).

(** ** Notions for grouping *)

(** The cells of an output row [o] of the mapping for the operational
    row [r] and the master row [m]: under a label that only the operational
    frame has, the cell of [r], cleaned when the label is product_code;
    under a label that only the master has, other than product_code_raw,
    the cell of [m], cleaned when it is one of the master's text columns;
    and no cell product_code_raw. *)
Definition joined `{Pandas} (df pm : DataFrame) (r m o : row) : Prop :=
  (∀ c, c ∈ columns df → c ∉ columns pm →
        o !! c = if decide (c = "product_code") then clean_cell <$> r !! c
                 else r !! c)
  ∧ (∀ c, c ∈ columns pm → c ∉ columns df → c ≠ "product_code_raw" →
          o !! c = if decide (c ∈ master_columns) then clean_cell <$> m !! c
                   else m !! c)
  ∧ o !! "product_code_raw" = None.

(** One step of [groupby]: a row with a missing key is left out. *)
Definition group_step (gs : list group) (p : list cell * row) : list group :=
  if forallb notna p.1 then insert_group p.1 p.2 gs else gs.

(** The row [r], of key [k], is in a group of [gs] with that key. *)
Definition in_group (k : list cell) (r : row) (gs : list group) : Prop :=
  Exists (λ g : group, keys_compare k g.1 = Eq ∧ r ∈ g.2) gs.


(** The grouping keys of the two aggregations. *)
Definition production_keys : list string :=
  ["plant_id"; "production_line"; "product_code_std"; "product_family"; "month"].

Definition quality_keys : list string :=
  ["plant_id"; "product_code_std"; "product_family"; "month"].

(** A production row whose date does not parse, mapped and ready for
    [add_month]. *)
Definition bad_date_frame : DataFrame :=
  frame ["plant_id"; "production_line"; "product_code_std"; "product_family";
         "production_date"; "units_produced"; "planned_units"; "downtime_minutes"]
    [[Str "P1"; Str "LINE01"; Str "STD-ABC"; Str "F1"; Str "2024-01-15";
      Num 100; Num 120; Num 10];
     [Str "P1"; Str "LINE01"; Str "STD-ABC"; Str "F1"; Str "not a date";
      Num 50; Num 60; Num 5]].

(** The same frame with its months. *)
Definition bad_date_months : DataFrame :=
  default bad_date_frame (@add_month iso_pandas bad_date_frame "production_date").

(** ** Notions for the rank *)

(** The values of a list above [x]. *)
Definition above (x : float) (xs : list float) : list float :=
  List.filter (λ y, (x <? y)%float) xs.

(** ** Notions for the KPIs *)

(** A row with its three KPIs. *)
Definition kpi_row (r : row) : row :=
  <["downtime_per_unit" :=
      Num (fnum "downtime_minutes" r / fnum "units_produced" r)%float]>
    (<["defect_rate" :=
         Num (fnum "defect_units" r / fnum "units_inspected" r)%float]>
       (<["production_efficiency" :=
            Num (fnum "units_produced" r / fnum "planned_units" r)%float]> r)).

(** The group of a row for the rank, its efficiency, and whether it has
    a rank: its key has no missing value and its efficiency is a number. *)
Definition rank_keys : list string := ["plant_id"; "month"].

Definition rank_key (r : row) : list cell := default [] (group_key rank_keys r).

Definition efficiency (r : row) : float := fnum "production_efficiency" r.

Definition ranked (r : row) : bool :=
  forallb notna (rank_key r) && negb (PrimFloat.is_nan (efficiency r)).

Definition same_group (r q : row) : bool := keys_eqb (rank_key r) (rank_key q).

(** The efficiencies of the rows of the group of [r]. *)
Definition group_values (rs : list row) (r : row) : list float :=
  efficiency <$> List.filter (same_group r) rs.

Definition rank_of (rs : list row) (r : row) : nat :=
  dense_rank_desc (group_values rs r) (efficiency r).

Definition rank_cell (rs : list row) (r : row) : cell :=
  if ranked r then Num (float_of_nat (rank_of rs r)) else Num nan.

(** What two key values have in common exactly when they compare equal. *)
Definition cell_key (v : cell) : option (Z * Z * Z) + string + option timestamp :=
  match v with
  | Num x => inl (inl (float_key x))
  | Str s => inl (inr s)
  | Dt t => inr t
  end.

(** A small monthly table: two plants, ties, a missing efficiency. *)
Definition monthly_example : DataFrame :=
  frame ["plant_id"; "month"; "units_produced"; "planned_units";
         "downtime_minutes"; "units_inspected"; "defect_units"]
    [[Str "P"; Str "2024-01"; Num 100; Num 100; Num 10; Num nan; Num nan];
     [Str "P"; Str "2024-01"; Num 50; Num 100; Num 0; Num 50; Num 25];
     [Str "P"; Str "2024-01"; Num 5; Num 10; Num 0; Num 50; Num 25];
     [Str "P"; Str "2024-01"; Num 5; Num 100; Num 0; Num 50; Num 0];
     [Str "Q"; Str "2024-01"; Num 5; Num 0; Num 0; Num 0; Num 0];
     [Str "P"; Str "2024-01"; Num nan; Num 100; Num 0; Num 50; Num 0]].

(** Three rows of one plant and month. *)
Definition monthly_small : DataFrame :=
  frame ["plant_id"; "month"; "units_produced"; "planned_units";
         "downtime_minutes"; "units_inspected"; "defect_units"]
    [[Str "P"; Str "2024-01"; Num 100; Num 100; Num 10; Num nan; Num nan];
     [Str "P"; Str "2024-01"; Num 50; Num 100; Num 0; Num 50; Num 25];
     [Str "P"; Str "2024-01"; Num 5; Num 10; Num 0; Num 50; Num 25]].

(** ** Notions for the groups of an aggregation *)

(** The key of a row for the grouping columns [keys]. *)
Definition row_key (keys : list string) (r : row) : list cell :=
  default [] (group_key keys r).

(** The rows of [rs] whose key is the key of the row [o]. *)
Definition members (keys : list string) (rs : list row) (o : row) : list row :=
  List.filter (λ r, keys_eqb (row_key keys r) (row_key keys o)) rs.

(** One key is before the other in the order of the groups. *)
Definition key_before (keys : list string) (o1 o2 : row) : Prop :=
  keys_compare (row_key keys o1) (row_key keys o2) = Lt.

(** The output columns and the summed columns of the two aggregations. *)
Definition production_sums : list (string * string) :=
  [("units_produced", "units_produced");
   ("planned_units", "planned_units");
   ("downtime_minutes", "downtime_minutes")].

Definition quality_sums : list (string * string) :=
  [("units_inspected", "units_inspected");
   ("defect_units", "defect_units")].

(** What an aggregation returns for the keys [keys] and the sums [aggs]:
    every output row has a key without a missing value, the input rows of
    that key are not none and hold a number in every summed column, and
    each of its sums is what pandas' sum returns for the numbers of that
    column that are not missing, over those rows in their order; and every
    input row whose key has no missing value has an output row of its
    key. *)
Definition sums_by_key `{Pandas} (keys : list string)
    (aggs : list (string * string)) (df out : DataFrame) : Prop :=
  Forall (λ o : row,
            forallb notna (row_key keys o) = true
            ∧ members keys (rows df) o ≠ []
            ∧ Forall (λ a : string * string,
                        forallb (is_num_cell a.2) (members keys (rows df) o) = true
                        ∧ o !! a.1
                          = Some (Num (group_sum
                                         (List.filter
                                            (λ x, negb (PrimFloat.is_nan x))
                                            (fnum a.2 <$> members keys (rows df) o)))))
                     aggs)
         (rows out)
  ∧ (∀ r : row, r ∈ rows df → forallb notna (row_key keys r) = true →
                ∃ o : row, o ∈ rows out
                           ∧ keys_eqb (row_key keys r) (row_key keys o) = true).

(** * Properties *)

(** ** Frames: reading and assigning a column *)

Lemma getitem_Some df c s :
  getitem df c = Some s ↔
  c ∈ columns df ∧ Forall2 (λ (r : row) v, r !! c = Some v) (rows df) s.
Proof.
  unfold getitem. destruct (decide (c ∈ columns df)) as [Hc|Hc].
  - rewrite mapM_Some. tauto.
  - split; [done|tauto].
Qed.

Lemma getitem_has_column df c : is_Some (getitem df c) ↔ has_column df c.
Proof.
  unfold has_column, getitem. destruct (decide (c ∈ columns df)) as [Hc|Hc].
  - rewrite mapM_is_Some. tauto.
  - split; [by intros [??]|tauto].
Qed.

Lemma getitem_length df c s : getitem df c = Some s → length s = length (rows df).
Proof. rewrite getitem_Some. intros [_ H]. symmetry. by eapply Forall2_length. Qed.

Lemma insert_as_alter (f : cell → cell) c (r : row) v :
  r !! c = Some v → <[c:=f v]> r = alter f c r.
Proof.
  intros Hv. apply map_eq. intros k.
  rewrite lookup_insert, lookup_alter. case_decide; subst; by rewrite ?Hv.
Qed.

Lemma zip_insert_alter (f : cell → cell) c (rs : list row) (s : Series) :
  Forall2 (λ (r : row) v, r !! c = Some v) rs s →
  zip_with (λ (r : row) v, <[c:=v]> r) rs (f <$> s) = alter f c <$> rs.
Proof.
  induction 1 as [|r v rs s Hv _ IH]; csimpl; [done|].
  f_equal; [by apply insert_as_alter|done].
Qed.

(** Assigning [f] of a column to that column maps [f] over its cells. *)
Lemma setitem_map df c s f :
  getitem df c = Some s → setitem df c (f <$> s) = Some (map_column f c df).
Proof.
  intros Hs. pose proof (getitem_length _ _ _ Hs) as Hlen.
  apply getitem_Some in Hs as [Hc Hs].
  unfold setitem, map_column. rewrite length_fmap.
  rewrite decide_True by done. rewrite decide_True by done.
  by rewrite zip_insert_alter.
Qed.

Lemma has_column_map_column f c df c' :
  has_column (map_column f c df) c' ↔ has_column df c'.
Proof.
  unfold has_column, map_column; simpl. rewrite Forall_fmap.
  apply and_iff_compat_l, Forall_iff. intros r; simpl.
  rewrite lookup_alter. case_decide; subst; [|done].
  by rewrite fmap_is_Some.
Qed.

(** ** Task 2: text standardisation *)

Section clean_text.
Context `{Pandas}.

(** [clean_text] raises exactly when a designated column is missing,
    and otherwise cleans the cells of the designated columns. *)
Lemma clean_text_spec df cols d :
  clean_text df cols = Some d ↔
  Forall (has_column df) cols ∧ d = foldl (λ d c, map_column clean_cell c d) df cols.
Proof.
  revert df. induction cols as [|c cols IH]; intros df; simpl.
  - split; [intros [= <-]; by split|by intros [_ ->]].
  - rewrite Forall_cons. destruct (getitem df c) as [s|] eqn:Hs; simpl.
    + rewrite (setitem_map _ _ _ _ Hs). simpl. rewrite IH.
      assert (has_column df c) by (apply getitem_has_column; by rewrite Hs).
      assert (Forall (has_column (map_column clean_cell c df)) cols
              ↔ Forall (has_column df) cols) as ->; [|tauto].
      apply Forall_iff. intros c'. apply has_column_map_column.
    + split; [done|]. intros [[Hc _] _].
      apply getitem_has_column in Hc. rewrite Hs in Hc. by destruct Hc.
Qed.

Lemma foldl_map_column f cols df :
  foldl (λ d c, map_column f c d) df cols
  = {| columns := columns df; rows := map_cells f cols <$> rows df |}.
Proof.
  revert df. induction cols as [|c cols IH]; intros [cs rs]; simpl.
  - f_equal. by rewrite list_fmap_id.
  - rewrite IH. simpl. f_equal. by rewrite <-list_fmap_compose.
Qed.
End clean_text.

(** The cell of column [k] after [f] was applied, idempotently, to the
    columns [cols]. *)
Lemma lookup_map_cells (f : cell → cell) cols (r : row) k :
  (∀ v, f (f v) = f v) →
  map_cells f cols r !! k = if decide (k ∈ cols) then f <$> r !! k else r !! k.
Proof.
  intros Hf. unfold map_cells. revert r.
  induction cols as [|c cols IH]; intros r; cbn [foldl].
  - destruct (decide (k ∈ [])) as [Hin|]; [by apply not_elem_of_nil in Hin|done].
  - rewrite IH, lookup_alter.
    destruct (decide (k ∈ cols)) as [Hin|Hin]; destruct (decide (c = k)) as [->|Hne].
    + rewrite decide_True by left. destruct (r !! k); simpl; by rewrite ?Hf.
    + rewrite decide_True by by right. done.
    + rewrite decide_True by left. done.
    + rewrite decide_False; [done|]. intros [?|?]%elem_of_cons; congruence.
Qed.

Lemma map_cells_idemp (f : cell → cell) cols (r : row) :
  (∀ v, f (f v) = f v) →
  map_cells f cols (map_cells f cols r) = map_cells f cols r.
Proof.
  intros Hf. apply map_eq. intros k. rewrite !lookup_map_cells by done.
  case_decide; [|done]. destruct (r !! k); simpl; by rewrite ?Hf.
Qed.

(** An [alter] keeps a cell a cell, whatever the function. *)
Lemma map_cells_is_Some (f : cell → cell) cols (r : row) k :
  is_Some (map_cells f cols r !! k) ↔ is_Some (r !! k).
Proof.
  unfold map_cells. revert r. induction cols as [|c cols IH]; intros r; cbn [foldl].
  - done.
  - rewrite IH, lookup_alter. destruct (decide (c = k)) as [->|]; [|done].
    by rewrite fmap_is_Some.
Qed.

(** The cell of column [k] after [f] was applied to the columns [cols],
    each named once. *)
Lemma lookup_map_cells_NoDup (f : cell → cell) cols (r : row) k :
  NoDup cols →
  map_cells f cols r !! k = if decide (k ∈ cols) then f <$> r !! k else r !! k.
Proof.
  intros Hnd. unfold map_cells. revert r.
  induction Hnd as [|c cols Hc Hnd IH]; intros r; cbn [foldl].
  - destruct (decide (k ∈ [])) as [Hin|]; [by apply not_elem_of_nil in Hin|done].
  - rewrite IH, lookup_alter.
    destruct (decide (k ∈ cols)) as [Hin|Hin]; destruct (decide (c = k)) as [->|Hne].
    + done.
    + rewrite decide_True by by right. done.
    + rewrite decide_True by left. done.
    + rewrite decide_False; [done|]. intros [?|?]%elem_of_cons; congruence.
Qed.

(** *** Characters and strings *)

Lemma append_cons a s t : String a s +:+ t = String a (s +:+ t).
Proof. reflexivity. Qed.

Lemma append_nil_r s : s +:+ "" = s.
Proof. induction s as [|a s IH]; [done|]. by rewrite append_cons, IH. Qed.

Lemma append_assoc s t u : (s +:+ t) +:+ u = s +:+ (t +:+ u).
Proof. induction s as [|a s IH]; [done|]. by rewrite !append_cons, IH. Qed.

Lemma join_app cs ds : join (cs ++ ds) = join cs +:+ join ds.
Proof.
  induction cs as [|c cs IH]; [done|].
  change (join ((c :: cs) ++ ds)) with (c +:+ join (cs ++ ds)).
  change (join (c :: cs)) with (c +:+ join cs).
  by rewrite IH, append_assoc.
Qed.

(** Cutting a string into characters loses nothing. *)
Lemma join_chars s : join (chars s) = s.
Proof.
  induction s as [|a s IH]; [done|]. cbn [chars].
  destruct (chars s) as [|c cs].
  - by rewrite <-IH.
  - destruct (starts_char c); rewrite <-IH; reflexivity.
Qed.

Lemma chunk_all_cont c :
  is_chunk c = true → starts_char c = false → all_cont c = true.
Proof.
  destruct c as [|a t]; simpl; [done|]. intros -> Ha.
  apply negb_false_iff in Ha. by rewrite Ha.
Qed.

Lemma segmented_cons c cs :
  segmented (c :: cs) ↔ is_chunk c = true ∧ Forall (λ d, is_char d = true) cs.
Proof.
  unfold segmented, is_char. simpl. rewrite Forall_cons. split.
  - intros [[Hc Hcs] Hs]. split; [done|].
    rewrite Forall_forall in Hcs, Hs. apply Forall_forall. intros d Hd.
    by rewrite Hcs, Hs.
  - intros [Hc Hcs]. split_and!; [done|..];
      (eapply Forall_impl; [exact Hcs|]; by intros d [??]%andb_prop).
Qed.

Lemma segmented_chars_all cs : Forall (λ d, is_char d = true) cs → segmented cs.
Proof.
  destruct 1 as [|c cs Hc Hcs]; [by split|].
  apply segmented_cons. split; [|done]. by apply andb_prop in Hc as [_ ?].
Qed.

Lemma segmented_chunks cs : segmented cs → Forall (λ c, is_chunk c = true) cs.
Proof. by intros [? _]. Qed.

Lemma chars_segmented s : segmented (chars s).
Proof.
  induction s as [|a s IH]; [by split|]. cbn [chars].
  destruct (chars s) as [|c cs].
  - apply segmented_cons. by split.
  - apply segmented_cons in IH as [Hc Hcs].
    destruct (starts_char c) eqn:Hs; apply segmented_cons.
    + split; [done|]. constructor; [|done]. unfold is_char. by rewrite Hs, Hc.
    + split; [|done]. by apply chunk_all_cont.
Qed.

Lemma chars_cont_app t s :
  all_cont t = true →
  match chars s with d :: _ => starts_char d = true | [] => True end →
  chars (t +:+ s) = match t with EmptyString => chars s | _ => t :: chars s end.
Proof.
  intros Ht Hs. induction t as [|b t IH]; [done|].
  simpl in Ht. apply andb_prop in Ht as [Hb Ht]. specialize (IH Ht).
  change (chars (String b t +:+ s))
    with (match chars (t +:+ s) with
          | c :: cs => if starts_char c then String b EmptyString :: c :: cs
                       else String b c :: cs
          | [] => [String b EmptyString]
          end).
  rewrite IH. destruct t as [|b' t'].
  - destruct (chars s) as [|d ds]; [done|]. by rewrite Hs.
  - simpl in Ht. apply andb_prop in Ht as [Hb' _]. simpl. by rewrite Hb'.
Qed.

(** Putting characters together and cutting again gives them back. *)
Lemma chars_join cs : segmented cs → chars (join cs) = cs.
Proof.
  induction cs as [|c cs IH]; [done|]. intros [Hc Hcs]%segmented_cons.
  specialize (IH (segmented_chars_all _ Hcs)).
  destruct c as [|a t]; [done|]. simpl in Hc.
  change (chars (join (String a t :: cs)))
    with (match chars (t +:+ join cs) with
          | c :: cs => if starts_char c then String a EmptyString :: c :: cs
                       else String a c :: cs
          | [] => [String a EmptyString]
          end).
  rewrite (chars_cont_app t (join cs) Hc), IH.
  - destruct t as [|b t'].
    + destruct Hcs as [|d ds Hd _]; [done|].
      apply andb_prop in Hd as [Hd _]. by rewrite Hd.
    + simpl in Hc. apply andb_prop in Hc as [Hb _]. simpl. by rewrite Hb.
  - rewrite IH. destruct Hcs as [|d ds Hd _]; [done|].
    by apply andb_prop in Hd as [Hd _].
Qed.

Lemma chars_chunk c : is_chunk c = true → chars c = [c].
Proof.
  intros Hc. rewrite <-(append_nil_r c) at 1.
  apply (chars_join [c]), segmented_cons. by split.
Qed.

Lemma Forall_lstrip_chars (P : string → Prop) cs :
  Forall P cs → Forall P (lstrip_chars cs).
Proof.
  induction 1 as [|c cs Hc Hcs IH]; simpl; [done|].
  destruct (isspace c); [done|by constructor].
Qed.

Lemma Forall_rstrip_chars (P : string → Prop) cs :
  Forall P cs → Forall P (rstrip_chars cs).
Proof.
  induction 1 as [|c cs Hc Hcs IH]; simpl; [done|].
  destruct (rstrip_chars cs) as [|d ds].
  - destruct (isspace c); by repeat constructor.
  - by constructor.
Qed.

Lemma segmented_lstrip cs : segmented cs → segmented (lstrip_chars cs).
Proof.
  destruct cs as [|c cs]; [done|]. intros Hseg. simpl.
  destruct (isspace c); [|done]. apply segmented_cons in Hseg as [_ Hcs].
  by apply segmented_chars_all, Forall_lstrip_chars.
Qed.

Lemma segmented_rstrip cs : segmented cs → segmented (rstrip_chars cs).
Proof.
  destruct cs as [|c cs]; [done|]. intros [Hc Hcs]%segmented_cons. simpl.
  pose proof (Forall_rstrip_chars _ _ Hcs) as Hr.
  destruct (rstrip_chars cs) as [|d ds].
  - destruct (isspace c); [by split|]. apply segmented_cons. by split.
  - apply segmented_cons. by split.
Qed.

Lemma Forall_filter {A} (P : A → Prop) (p : A → bool) l :
  Forall P l → Forall P (List.filter p l).
Proof.
  induction 1 as [|x l Hx _ IH]; simpl; [done|]. destruct (p x); [by constructor|done].
Qed.

Lemma segmented_filter (p : string → bool) cs :
  segmented cs → segmented (List.filter p cs).
Proof.
  destruct cs as [|c cs]; [done|]. intros [Hc Hcs]%segmented_cons. simpl.
  pose proof (Forall_filter _ p _ Hcs) as Hf.
  destruct (p c); [|by apply segmented_chars_all].
  apply segmented_cons. by split.
Qed.

Lemma segmented_app cs ds :
  segmented cs → Forall (λ d, is_char d = true) ds → segmented (cs ++ ds).
Proof.
  destruct cs as [|c cs]; [intros _; apply segmented_chars_all|].
  intros [Hc Hcs]%segmented_cons Hds. apply segmented_cons.
  split; [done|]. by apply Forall_app.
Qed.

Lemma chars_str_strip s :
  chars (str_strip s) = rstrip_chars (lstrip_chars (chars s)).
Proof. apply chars_join, segmented_rstrip, segmented_lstrip, chars_segmented. Qed.

Lemma chars_str_remove_ws s :
  chars (str_remove_ws s) = List.filter (λ c, negb (isspace c)) (chars s).
Proof. apply chars_join, segmented_filter, chars_segmented. Qed.

Lemma bind_singletons {A} (f : A → list A) l :
  Forall (λ x, f x = [x]) l → l ≫= f = l.
Proof.
  induction 1 as [|x l Hx _ IH]; [done|]. by rewrite bind_cons, Hx, IH.
Qed.

Lemma is_ascii_cons a s :
  is_ascii (String a s) = true ↔ (nat_of_ascii a < 128)%nat ∧ is_ascii s = true.
Proof.
  unfold is_ascii. simpl. rewrite andb_true_iff, Nat.ltb_lt. done.
Qed.

Lemma ascii_starts_char a s : (nat_of_ascii a < 128)%nat → starts_char (String a s) = true.
Proof.
  intros Ha. simpl. unfold is_cont. apply negb_true_iff, andb_false_iff. left.
  apply Nat.leb_gt. lia.
Qed.

Lemma chars_ascii s :
  is_ascii s = true →
  chars s = (λ a, String a EmptyString) <$> list_ascii_of_string s.
Proof.
  induction s as [|a s IH]; [done|]. intros [Ha Hs]%is_ascii_cons.
  cbn [chars list_ascii_of_string]. rewrite (IH Hs), fmap_cons.
  destruct s as [|b s']; [done|]. apply is_ascii_cons in Hs as [Hb _].
  cbn [list_ascii_of_string fmap list_fmap]. by rewrite ascii_starts_char.
Qed.

Lemma filter_all {A} (p : A → bool) l :
  Forall (λ x, p x = true) l → List.filter p l = l.
Proof. induction 1 as [|x l Hx _ IH]; simpl; [done|]. by rewrite Hx, IH. Qed.

(** *** The upper case *)

Section upper.
Context `{Pandas} (laws : upper_laws).

Lemma upper_chars_char c :
  is_char c = true →
  Forall (λ d, is_char d = true ∧ py_upper d = d) (upper_chars c).
Proof.
  intros Hc. unfold upper_chars, upper_char.
  pose proof Hc as [-> _]%andb_prop. by apply (upper_upper laws).
Qed.

Lemma upper_char_space c : isspace c = true → upper_char c = c.
Proof.
  intros Hc. unfold upper_char. destruct (starts_char c); [|done].
  by apply (upper_space laws).
Qed.

Lemma upper_chars_fixed d :
  is_chunk d = true → upper_char d = d → upper_chars d = [d].
Proof. intros Hd Hu. unfold upper_chars. rewrite Hu. by apply chars_chunk. Qed.

Lemma upper_chars_other c :
  is_chunk c = true → starts_char c = false → upper_chars c = [c].
Proof.
  intros Hc Hs. apply upper_chars_fixed; [done|]. unfold upper_char. by rewrite Hs.
Qed.

(** The upper case of a piece: pieces that are their own upper case, and
    that are white space only when the piece is. *)
Lemma upper_chars_pieces c :
  is_chunk c = true →
  Forall (λ d, is_chunk d = true ∧ upper_chars d = [d]
               ∧ (isspace c = false → isspace d = false))
         (upper_chars c).
Proof.
  intros Hc. destruct (starts_char c) eqn:Hs.
  - assert (is_char c = true) as Hchar by (unfold is_char; by rewrite Hs, Hc).
    pose proof (upper_chars_char c Hchar) as Hall.
    destruct (isspace c) eqn:Hsp.
    + eapply Forall_impl; [exact Hall|]. intros d [[Hds Hd]%andb_prop Hu].
      split_and!; [done| |done].
      apply upper_chars_fixed; [done|]. unfold upper_char. by rewrite Hds.
    + pose proof (upper_no_space laws c Hchar Hsp) as Hns.
      unfold upper_chars, upper_char in *. rewrite Hs in *.
      rewrite Forall_forall in Hall, Hns. apply Forall_forall. intros d Hd.
      destruct (Hall d Hd) as [[Hds Hdc]%andb_prop Hu].
      split_and!; [done| |by intros _; apply Hns].
      unfold upper_char. rewrite Hds, Hu. by apply chars_chunk.
  - rewrite (upper_chars_other c Hc Hs). constructor; [|done].
    split_and!; [done|by apply upper_chars_other|done].
Qed.

Lemma upper_chars_space c :
  is_chunk c = true → isspace c = true → upper_chars c = [c].
Proof. intros Hc Hs. apply upper_chars_fixed; [done|by apply upper_char_space]. Qed.

Lemma join_upper_chars cs : join (cs ≫= upper_chars) = join (upper_char <$> cs).
Proof.
  induction cs as [|c cs IH]; [done|].
  rewrite bind_cons, join_app, IH, fmap_cons. unfold upper_chars at 1.
  by rewrite join_chars.
Qed.

Lemma segmented_upper cs : segmented cs → segmented (cs ≫= upper_chars).
Proof.
  destruct cs as [|c cs]; [done|]. intros [Hc Hcs]%segmented_cons.
  rewrite bind_cons. apply segmented_app; [apply chars_segmented|].
  induction Hcs as [|d ds Hd _ IH]; [done|].
  rewrite bind_cons. apply Forall_app. split; [|done].
  eapply Forall_impl; [exact (upper_chars_char d Hd)|]. by intros e [? _].
Qed.

Lemma chars_str_upper s : chars (str_upper s) = chars s ≫= upper_chars.
Proof.
  unfold str_upper. rewrite <-join_upper_chars.
  apply chars_join, segmented_upper, chars_segmented.
Qed.

(** White space at the ends is white space in the middle: once the white
    space is removed, it makes no difference whether the ends were
    stripped before. *)
Lemma filter_upper cs :
  Forall (λ c, is_chunk c = true) cs →
  List.filter (λ c, negb (isspace c)) (cs ≫= upper_chars)
  = List.filter (λ c, negb (isspace c)) cs ≫= upper_chars.
Proof.
  induction 1 as [|c cs Hc _ IH]; [done|].
  rewrite bind_cons, List.filter_app, IH. cbn [List.filter].
  destruct (isspace c) eqn:Hs; cbn [negb].
  - rewrite (upper_chars_space c Hc Hs). cbn [List.filter]. by rewrite Hs.
  - rewrite bind_cons. f_equal. apply filter_all.
    eapply Forall_impl; [exact (upper_chars_pieces c Hc)|].
    intros d (_ & _ & Hd). by rewrite (Hd Hs).
Qed.

Lemma filter_lstrip_chars cs :
  List.filter (λ c, negb (isspace c)) (lstrip_chars cs)
  = List.filter (λ c, negb (isspace c)) cs.
Proof.
  induction cs as [|c cs IH]; [done|]. simpl.
  destruct (isspace c) eqn:Hs; simpl; [done|]. by rewrite Hs.
Qed.

Lemma filter_rstrip_chars cs :
  List.filter (λ c, negb (isspace c)) (rstrip_chars cs)
  = List.filter (λ c, negb (isspace c)) cs.
Proof.
  induction cs as [|c cs IH]; [done|]. simpl. rewrite <-IH.
  destruct (rstrip_chars cs) as [|d ds]; [|done].
  destruct (isspace c) eqn:Hs; simpl; by rewrite ?Hs.
Qed.

(** The characters of a cleaned text: those of the text that are no
    white space, each replaced by the characters of its upper case. *)
Lemma chars_clean s :
  chars (str_remove_ws (str_upper (str_strip s)))
  = List.filter (λ c, negb (isspace c)) (chars s) ≫= upper_chars.
Proof.
  rewrite chars_str_remove_ws, chars_str_upper, chars_str_strip.
  rewrite filter_upper
    by apply Forall_rstrip_chars, Forall_lstrip_chars, segmented_chunks, chars_segmented.
  by rewrite filter_rstrip_chars, filter_lstrip_chars.
Qed.

Lemma clean_pieces s :
  Forall (λ d, is_chunk d = true ∧ upper_chars d = [d] ∧ isspace d = false)
         (List.filter (λ c, negb (isspace c)) (chars s) ≫= upper_chars).
Proof.
  assert (Forall (λ c, is_chunk c = true ∧ isspace c = false)
            (List.filter (λ c, negb (isspace c)) (chars s))) as Hall.
  { apply Forall_forall. intros c [Hc Hs]%list_elem_of_In%filter_In.
    apply negb_true_iff in Hs. split; [|done].
    pose proof (segmented_chunks _ (chars_segmented s)) as Hch.
    rewrite Forall_forall in Hch. by apply Hch, list_elem_of_In. }
  induction Hall as [|c cs [Hc Hs] _ IH]; [done|].
  rewrite bind_cons. apply Forall_app. split; [|done].
  eapply Forall_impl; [exact (upper_chars_pieces c Hc)|].
  intros d (? & ? & Hd). auto.
Qed.

Lemma clean_str_idemp s :
  str_remove_ws (str_upper (str_strip (str_remove_ws (str_upper (str_strip s)))))
  = str_remove_ws (str_upper (str_strip s)).
Proof.
  rewrite <-(join_chars (str_remove_ws (str_upper (str_strip (str_remove_ws _))))).
  rewrite <-(join_chars (str_remove_ws (str_upper (str_strip s)))) at 2.
  f_equal. rewrite chars_clean, (chars_clean s).
  pose proof (clean_pieces s) as Hall.
  rewrite filter_all
    by (eapply Forall_impl; [exact Hall|]; by intros d (_ & _ & ->)).
  apply bind_singletons. eapply Forall_impl; [exact Hall|]. by intros d (_ & ? & _).
Qed.

Lemma clean_cell_idemp v : clean_cell (clean_cell v) = clean_cell v.
Proof. unfold clean_cell. cbn [astype_str]. by rewrite clean_str_idemp. Qed.

(** On ASCII text the upper case is the ASCII one. *)
Lemma str_upper_ascii s : is_ascii s = true → str_upper s = ascii_str_upper s.
Proof.
  intros Hs. unfold str_upper. rewrite (chars_ascii s Hs). clear -laws Hs.
  induction s as [|a s IH]; [done|]. apply is_ascii_cons in Hs as [Ha Hs].
  cbn [list_ascii_of_string fmap list_fmap ascii_str_upper].
  change (join (?c :: ?cs)) with (c +:+ join cs).
  rewrite <-(IH Hs). unfold upper_char at 1.
  rewrite (ascii_starts_char a _ Ha), (upper_ascii laws a Ha). done.
Qed.

Lemma clean_cell_ascii v :
  is_ascii (str_strip (astype_str v)) = true →
  clean_cell v = Str (str_remove_ws (ascii_str_upper (str_strip (astype_str v)))).
Proof. intros Hv. unfold clean_cell. by rewrite str_upper_ascii. Qed.

Lemma clean_cell_nan x : PrimFloat.is_nan x = true → clean_cell (Num x) = Str "NAN".
Proof.
  intros Hx. rewrite clean_cell_ascii; cbn [astype_str]; rewrite Hx; by vm_compute.
Qed.

Lemma clean_cell_NaT : clean_cell (Dt None) = Str "NAT".
Proof. rewrite clean_cell_ascii; by vm_compute. Qed.

End upper.

(** The pandas of the examples has the four facts. *)
Lemma isspace_whitespace c : isspace c = true → c ∈ whitespace.
Proof.
  unfold isspace. intros (w & Hw & ->%String.eqb_eq)%existsb_exists.
  by apply list_elem_of_In.
Qed.

Lemma iso_pandas_laws : @upper_laws iso_pandas.
Proof.
  assert (∀ a, (nat_of_ascii (ascii_upper a) <? 128)%nat
               = (nat_of_ascii a <? 128)%nat
               ∧ ascii_upper (ascii_upper a) = ascii_upper a
               ∧ isspace (String (ascii_upper a) EmptyString)
                 = isspace (String a EmptyString)) as Hall.
  { intros a. destruct a as [[] [] [] [] [] [] [] []]; by vm_compute. }
  assert (∀ a, (nat_of_ascii a < 128)%nat →
               (nat_of_ascii (ascii_upper a) < 128)%nat
               ∧ ascii_upper (ascii_upper a) = ascii_upper a
               ∧ isspace (String (ascii_upper a) EmptyString)
                 = isspace (String a EmptyString)) as Hascii.
  { intros a Ha. destruct (Hall a) as (Hlt & ? & ?). split_and!; [|done..].
    apply Nat.ltb_lt. rewrite Hlt. by apply Nat.ltb_lt. }
  assert (∀ a, (128 ≤ nat_of_ascii a)%nat → ascii_upper a = a) as Hhigh.
  { intros a Ha. unfold ascii_upper.
    rewrite (proj2 (Nat.leb_gt (nat_of_ascii a) 122)) by lia. by rewrite andb_false_r. }
  split.
  - done.
  - intros c Hc%isspace_whitespace. vm_compute in Hc.
    repeat (apply elem_of_cons in Hc as [->|Hc]; [reflexivity|]).
    by apply elem_of_nil in Hc.
  - intros c Hc. pose proof Hc as [Hs Hch]%andb_prop.
    destruct c as [|a [|b t]]; [done| |].
    + cbn [py_upper iso_pandas].
      destruct (le_lt_dec 128 (nat_of_ascii a)) as [Ha|Ha].
      * rewrite (Hhigh a Ha), (chars_chunk _ Hch). constructor; [|done].
        split; [done|]. by rewrite (Hhigh a Ha).
      * destruct (Hascii a Ha) as (Hu & Huu & _).
        rewrite chars_chunk by done. constructor; [|done]. split.
        -- unfold is_char. by rewrite ascii_starts_char.
        -- by rewrite Huu.
    + cbn [py_upper iso_pandas]. rewrite (chars_chunk _ Hch).
      by repeat constructor.
  - intros c Hc Hsp. pose proof Hc as [Hs Hch]%andb_prop.
    destruct c as [|a [|b t]]; [done| |].
    + cbn [py_upper iso_pandas]. rewrite chars_chunk by done.
      constructor; [|done].
      destruct (le_lt_dec 128 (nat_of_ascii a)) as [Ha|Ha].
      * by rewrite (Hhigh a Ha).
      * destruct (Hascii a Ha) as (_ & _ & ->). done.
    + cbn [py_upper iso_pandas]. rewrite (chars_chunk _ Hch).
      by repeat constructor.
Qed.

(** The upper case of Unicode has the four facts: every entry of the
    table is checked by computation, and a character that has no entry is
    its own upper case. *)
Lemma assoc_Some c t u : assoc c t = Some u → In (c, u) t.
Proof.
  induction t as [|[k v] t IH]; simpl; [done|].
  destruct (String.eqb c k) eqn:Hk.
  - intros [= ->]. apply String.eqb_eq in Hk as ->. by left.
  - intros Hu. right. by apply IH.
Qed.

Lemma unicode_upper_pieces c :
  is_char c = true →
  Forall (λ d, is_char d = true ∧ unicode_upper d = d
               ∧ (isspace c = false → isspace d = false))
         (chars (unicode_upper c)).
Proof.
  intros Hc.
  assert (forallb (λ p : string * string,
                     forallb (λ d, is_char d && String.eqb (unicode_upper d) d
                                   && negb (isspace d)) (chars p.2))
                  upper_entries = true) as Hcheck by (by vm_compute).
  assert (unicode_upper c = default c (assoc c upper_entries)) as -> by done.
  destruct (assoc c upper_entries) as [u|] eqn:Hu; cbn [default].
  - apply assoc_Some in Hu. rewrite forallb_forall in Hcheck.
    specialize (Hcheck _ Hu). cbn [snd] in Hcheck.
    rewrite forallb_forall in Hcheck. apply Forall_forall. intros d Hd.
    apply list_elem_of_In, Hcheck in Hd.
    apply andb_prop in Hd as [[Hd1 Hd2%String.eqb_eq]%andb_prop Hd3%negb_true_iff].
    done.
  - pose proof Hc as [_ Hch]%andb_prop. rewrite (chars_chunk _ Hch).
    constructor; [|done]. split_and!; [done| |done].
    unfold unicode_upper. by rewrite Hu.
Qed.

Lemma unicode_pandas_laws : @upper_laws unicode_pandas.
Proof.
  split; cbn [py_upper unicode_pandas].
  - assert (∀ a, (nat_of_ascii a <? 128)%nat = true →
                 String.eqb (unicode_upper (String a EmptyString))
                            (String (ascii_upper a) EmptyString) = true) as Hascii.
    { intros a. destruct a as [[] [] [] [] [] [] [] []]; by vm_compute. }
    intros a Ha. by apply String.eqb_eq, Hascii, Nat.ltb_lt.
  - intros c Hc%isspace_whitespace. vm_compute in Hc.
    repeat (apply elem_of_cons in Hc as [->|Hc]; [by vm_compute|]).
    by apply elem_of_nil in Hc.
  - intros c Hc. eapply Forall_impl; [exact (unicode_upper_pieces c Hc)|].
    by intros d (? & ? & _).
  - intros c Hc Hsp. eapply Forall_impl; [exact (unicode_upper_pieces c Hc)|].
    intros d (_ & _ & Hd). by apply Hd.
Qed.

(** An example outside ASCII: the sharp s becomes SS, and the no-break
    space and the ideographic space are removed like the other white
    space. *)
Example clean_text_unicode_example :
  (d ← @clean_text unicode_pandas unicode_text_example ["product_code"];
   getitem d "product_code")
  = Some [Str "STRASSE7"; Str "NAN"].
Proof. by vm_compute. Qed.

(** *** Idempotence *)

Lemma has_column_map_cells f cols df c :
  has_column {| columns := columns df; rows := map_cells f cols <$> rows df |} c
  ↔ has_column df c.
Proof.
  unfold has_column; simpl. rewrite Forall_fmap.
  apply and_iff_compat_l, Forall_iff. intros r; simpl.
  apply map_cells_is_Some.
Qed.

Lemma clean_text_fixed `{Pandas} df cols d :
  upper_laws → clean_text df cols = Some d → clean_text d cols = Some d.
Proof.
  intros laws [Hall ->]%clean_text_spec.
  apply clean_text_spec. rewrite !foldl_map_column. simpl. split.
  - eapply Forall_impl; [exact Hall|]. intros c Hc.
    by apply has_column_map_cells.
  - f_equal. rewrite <-list_fmap_compose. apply list_fmap_ext.
    intros i r _. simpl. symmetry. by apply map_cells_idemp, clean_cell_idemp.
Qed.

(** C7. Applying [clean_text] to its own result, with the same columns,
    changes nothing: the second application returns the frame the first
    one returned (and when the first one raises there is no second).
    This holds for text of every script, given four facts of the upper
    case of Unicode: it is the ASCII one on ASCII, it leaves white space
    alone, it makes no white space, and the characters it yields are their
    own upper case. *)
Theorem clean_text_idempotent `{Pandas} df cols :
  upper_laws →
  clean_text df cols ≫= (λ df', clean_text df' cols) = clean_text df cols.
Proof.
  intros laws. destruct (clean_text df cols) as [d|] eqn:Hd; simpl; [|done].
  by apply clean_text_fixed in Hd.
Qed.

Lemma clean_text_idempotent_witness :
  @clean_text unicode_pandas unicode_text_example ["product_code"]
    ≫= (λ df', @clean_text unicode_pandas df' ["product_code"])
  = @clean_text unicode_pandas unicode_text_example ["product_code"].
Proof. apply (@clean_text_idempotent unicode_pandas), unicode_pandas_laws. Defined.

(** ** Line codes *)

Lemma LINE_MAP_values s t : LINE_MAP !! s = Some t → t ∈ canonical_codes.
Proof.
  intros Hs. apply elem_of_list_to_map_2 in Hs.
  unfold canonical_codes.
  repeat (apply elem_of_cons in Hs as [[= -> ->]|Hs]; [rewrite !elem_of_cons; by auto|]).
  by apply elem_of_nil in Hs.
Qed.

Lemma LINE_MAP_canonical t : t ∈ canonical_codes → LINE_MAP !! t = None.
Proof.
  intros Ht. repeat (apply elem_of_cons in Ht as [->|Ht]; [by vm_compute|]).
  by apply elem_of_nil in Ht.
Qed.

Lemma line_code_idemp v : line_code (line_code v) = line_code v.
Proof.
  destruct v as [x|s|t]; simpl; [done| |done]. f_equal.
  destruct (LINE_MAP !! s) as [t|] eqn:Hs; simpl; [|by rewrite Hs].
  by rewrite (LINE_MAP_canonical t (LINE_MAP_values s t Hs)).
Qed.

Lemma normalize_production_lines_spec df d :
  normalize_production_lines df = Some d ↔
  has_column df "production_line" ∧ d = map_column line_code "production_line" df.
Proof.
  unfold normalize_production_lines. rewrite <-getitem_has_column.
  destruct (getitem df "production_line") as [s|] eqn:Hs; simpl.
  - rewrite (setitem_map _ _ _ _ Hs). split.
    + intros [= <-]. eauto.
    + by intros [_ ->].
  - split; [done|]. by intros [[? [=]] _].
Qed.

Lemma map_column_idemp f c df :
  (∀ v, f (f v) = f v) → map_column f c (map_column f c df) = map_column f c df.
Proof.
  intros Hf. unfold map_column; simpl. f_equal.
  rewrite <-list_fmap_compose. apply list_fmap_ext. intros _ r _. simpl.
  rewrite alter_alter_eq. apply alter_ext. intros v _. apply Hf.
Qed.

(** C10. Every code in the table is one of LINE01, LINE02, LINE03, none
    of which is a key of the table, so the lookup leaves them as they are
    and maps every cell to a fixed point; hence normalising the lines of a
    normalised frame returns that frame, with the same production_line
    column. *)
Theorem normalize_production_lines_idempotent :
  map_Forall (λ _ t, t ∈ canonical_codes) LINE_MAP
  ∧ Forall (λ t, LINE_MAP !! t = None ∧ line_code (Str t) = Str t) canonical_codes
  ∧ (∀ v, line_code (line_code v) = line_code v)
  ∧ (∀ df, normalize_production_lines df ≫= normalize_production_lines
           = normalize_production_lines df)
  ∧ (∀ df, (normalize_production_lines df ≫= normalize_production_lines)
             ≫= (λ d, getitem d "production_line")
           = normalize_production_lines df ≫= (λ d, getitem d "production_line")).
Proof.
  assert (∀ df, normalize_production_lines df ≫= normalize_production_lines
                = normalize_production_lines df) as Hidem.
  { intros df.
    destruct (normalize_production_lines df) as [d|] eqn:Hd; simpl; [|done].
    apply normalize_production_lines_spec in Hd as [Hc ->].
    apply normalize_production_lines_spec. split.
    - by apply has_column_map_column.
    - symmetry. apply map_column_idemp, line_code_idemp. }
  split_and!.
  - intros s t. apply LINE_MAP_values.
  - repeat constructor; by vm_compute.
  - apply line_code_idemp.
  - done.
  - intros df. by rewrite Hidem.
Qed.

(** ** Series of numbers *)

Lemma mapM_total {A B} (f : A → option B) (h : A → B) l :
  Forall (λ x, f x = Some (h x)) l → mapM f l = Some (h <$> l).
Proof.
  induction 1 as [|x l Hx _ IH]; simpl; [done|]. rewrite Hx; simpl. by rewrite IH.
Qed.

(** An elementwise operation on a Series is the operation on its numbers,
    and raises when a cell is no number. *)
Lemma mapM_as_num {B} (g : float → B) (s : Series) :
  mapM (λ v, x ← as_num v; Some (g x)) s = fmap g <$> mapM as_num s.
Proof.
  induction s as [|v s IH]; simpl; [done|].
  destruct (as_num v); simpl; [|done]. rewrite IH.
  by destruct (mapM as_num s).
Qed.

Lemma mapM_as_num_zip {B} (g : float → float → B) (s1 s2 : Series) :
  length s1 = length s2 →
  mapM (λ p : cell * cell, x ← as_num p.1; y ← as_num p.2; Some (g x y)) (zip s1 s2)
  = xs ← mapM as_num s1; ys ← mapM as_num s2; Some (zip_with g xs ys).
Proof.
  revert s2. induction s1 as [|v s1 IH]; intros [|w s2] Hlen; try done.
  injection Hlen as Hlen. simpl. rewrite (IH s2) by done. clear IH.
  destruct (as_num v) as [x|] eqn:Hx; simpl.
  - destruct (as_num w) as [y|] eqn:Hy; simpl.
    + destruct (mapM as_num s1); simpl; [|done].
      by destruct (mapM as_num s2).
    + by destruct (mapM as_num s1).
  - done.
Qed.

Lemma is_num_cell_lookup c (r : row) :
  is_num_cell c r = true → r !! c = Some (Num (fnum c r)).
Proof. unfold is_num_cell, fnum. by destruct (r !! c) as [[]|]. Qed.

Lemma mapM_lookup_floats c (rs : list row) (s : Series) :
  mapM (λ r : row, r !! c) rs = Some s →
  mapM as_num s
  = if forallb (is_num_cell c) rs then Some (fnum c <$> rs) else None.
Proof.
  revert s. induction rs as [|r rs IH]; intros s Hs.
  { simpl in Hs. injection Hs as <-. reflexivity. }
  simpl in Hs.
  destruct (r !! c) as [v|] eqn:Hv; simpl in Hs; [|done].
  destruct (mapM (λ r : row, r !! c) rs) as [s'|]; simpl in Hs; [|done].
  injection Hs as <-. rewrite fmap_cons.
  change (forallb (is_num_cell c) (r :: rs))
    with (is_num_cell c r && forallb (is_num_cell c) rs).
  change (mapM as_num (v :: s'))
    with (x ← as_num v; k ← mapM as_num s'; mret (x :: k)).
  rewrite (IH s') by done.
  assert (is_num_cell c r = match v with Num _ => true | _ => false end) as ->
    by (unfold is_num_cell; by rewrite Hv).
  assert (fnum c r = match v with Num x => x | _ => nan end) as ->
    by (unfold fnum; by rewrite Hv).
  destruct v; simpl; try done.
  by destruct (forallb (is_num_cell c) rs).
Qed.

(** The numbers of a column: the column must exist and hold numbers. *)
Lemma getitem_floats df c s :
  getitem df c = Some s →
  mapM as_num s = if numericb df c then Some (fnum c <$> rows df) else None.
Proof.
  unfold getitem, numericb. destruct (decide (c ∈ columns df)) as [Hc|Hc]; [|done].
  rewrite bool_decide_eq_true_2 by done. apply mapM_lookup_floats.
Qed.

Lemma getitem_None_numericb df c : getitem df c = None → numericb df c = false.
Proof.
  unfold getitem, numericb. destruct (decide (c ∈ columns df)) as [Hc|Hc].
  - intros Hs. rewrite bool_decide_eq_true_2 by done. simpl.
    apply mapM_None in Hs. apply not_true_iff_false. intros Hall.
    rewrite forallb_forall in Hall. apply Exists_exists in Hs as (r & Hr & Hn).
    apply list_elem_of_In, Hall, is_num_cell_lookup in Hr. congruence.
  - intros _. by rewrite bool_decide_eq_false_2.
Qed.

Lemma getitem_numeric df c s :
  getitem df c = Some s → numericb df c = true →
  s = (λ r, Num (fnum c r)) <$> rows df.
Proof.
  intros [_ Hs]%getitem_Some [_ Hall]%andb_prop.
  rewrite forallb_forall in Hall.
  induction Hs as [|r v rs s Hv _ IH]; csimpl; [done|].
  rewrite IH by (intros; apply Hall; by right).
  f_equal. rewrite (is_num_cell_lookup c r) in Hv by (apply Hall; by left).
  congruence.
Qed.

(** ** Masks *)

Lemma zip_with_fmap_same {A B C D} (h : B → C → D) (f : A → B) (g : A → C) l :
  zip_with h (f <$> l) (g <$> l) = (λ x, h (f x) (g x)) <$> l.
Proof. induction l as [|x l IH]; csimpl; [done|]. by rewrite IH. Qed.

Lemma mask_filter_fmap {A} (p : A → bool) l :
  mask_filter l (p <$> l) = List.filter p l.
Proof. induction l as [|x l IH]; csimpl; [done|]. rewrite IH. by destruct (p x). Qed.

Lemma filter_ext_Forall {A} (p q : A → bool) l :
  Forall (λ x, p x = q x) l → List.filter p l = List.filter q l.
Proof. induction 1 as [|x l Hx _ IH]; simpl; [done|]. by rewrite Hx, IH. Qed.

Lemma numericb_Forall df c :
  numericb df c = true → Forall (λ r, is_num_cell c r = true) (rows df).
Proof.
  intros [_ Hall]%andb_prop. apply Forall_forall. intros r Hr.
  rewrite forallb_forall in Hall. by apply Hall, list_elem_of_In.
Qed.

(** ** Task 3: business rule validation *)

Lemma validate_production_spec df :
  validate_production df
  = if numericb df "units_produced" && numericb df "planned_units" then
      Some {| columns := columns df; rows := List.filter production_rule (rows df) |}
    else None.
Proof.
  unfold validate_production.
  destruct (getitem df "units_produced") as [u|] eqn:Hu; csimpl;
    [|by rewrite (getitem_None_numericb _ _ Hu)].
  unfold series_gt_scalar, series_ge.
  rewrite mapM_as_num, (getitem_floats _ _ _ Hu).
  destruct (numericb df "units_produced") eqn:Nu; csimpl; [|done].
  destruct (getitem df "planned_units") as [p|] eqn:Hp; csimpl;
    [|by rewrite (getitem_None_numericb _ _ Hp)].
  rewrite decide_True
    by (by rewrite (getitem_length _ _ _ Hu), (getitem_length _ _ _ Hp)).
  rewrite mapM_as_num_zip
    by (by rewrite (getitem_length _ _ _ Hu), (getitem_length _ _ _ Hp)).
  rewrite (getitem_floats _ _ _ Hu), (getitem_floats _ _ _ Hp), Nu.
  destruct (numericb df "planned_units") eqn:Np; csimpl; [|done].
  rewrite (getitem_numeric _ _ _ Hp Np).
  unfold boolean_index, mask_and. do 2 f_equal.
  rewrite <-!list_fmap_compose, !zip_with_fmap_same, mask_filter_fmap.
  apply filter_ext_Forall, Forall_forall. intros r Hr.
  pose proof (proj1 (Forall_forall _ _) (numericb_Forall _ _ Nu) r Hr) as Hru.
  pose proof (proj1 (Forall_forall _ _) (numericb_Forall _ _ Np) r Hr) as Hrp.
  simpl. unfold production_rule.
  rewrite (is_num_cell_lookup _ _ Hru), (is_num_cell_lookup _ _ Hrp). done.
Qed.

Lemma validate_quality_spec df :
  validate_quality df
  = if numericb df "units_inspected" && numericb df "defect_units" then
      Some {| columns := columns df; rows := List.filter quality_rule (rows df) |}
    else None.
Proof.
  unfold validate_quality.
  destruct (getitem df "units_inspected") as [i|] eqn:Hi; csimpl;
    [|by rewrite (getitem_None_numericb _ _ Hi)].
  unfold series_gt_scalar, series_ge_scalar, series_le.
  rewrite mapM_as_num, (getitem_floats _ _ _ Hi).
  destruct (numericb df "units_inspected") eqn:Ni; csimpl; [|done].
  destruct (getitem df "defect_units") as [d|] eqn:Hd; csimpl;
    [|by rewrite (getitem_None_numericb _ _ Hd)].
  rewrite mapM_as_num, (getitem_floats _ _ _ Hd).
  destruct (numericb df "defect_units") eqn:Nd; csimpl; [|done].
  rewrite decide_True
    by (by rewrite (getitem_length _ _ _ Hi), (getitem_length _ _ _ Hd)).
  rewrite mapM_as_num_zip
    by (by rewrite (getitem_length _ _ _ Hi), (getitem_length _ _ _ Hd)).
  rewrite (getitem_floats _ _ _ Hi), (getitem_floats _ _ _ Hd), Ni, Nd. csimpl.
  rewrite (getitem_numeric _ _ _ Hi Ni), (getitem_numeric _ _ _ Hd Nd).
  unfold boolean_index, mask_and. do 2 f_equal.
  rewrite <-!list_fmap_compose, !zip_with_fmap_same, mask_filter_fmap.
  apply filter_ext_Forall, Forall_forall. intros r Hr.
  pose proof (proj1 (Forall_forall _ _) (numericb_Forall _ _ Ni) r Hr) as Hri.
  pose proof (proj1 (Forall_forall _ _) (numericb_Forall _ _ Nd) r Hr) as Hrd.
  simpl. unfold quality_rule.
  rewrite (is_num_cell_lookup _ _ Hri), (is_num_cell_lookup _ _ Hrd). done.
Qed.

Lemma production_rule_true (r : row) :
  production_rule r = true ↔
  ∃ u p, r !! "units_produced" = Some (Num u) ∧ r !! "planned_units" = Some (Num p)
         ∧ (0 <? u)%float = true ∧ PrimFloat.is_nan p = false ∧ (u <=? p)%float = true.
Proof.
  unfold production_rule. split.
  - destruct (r !! "units_produced") as [[u| |]|]; try done.
    destruct (r !! "planned_units") as [[p| |]|]; try done.
    rewrite !andb_true_iff, negb_true_iff. intros [[? ?] ?]. by exists u, p.
  - intros (u & p & -> & -> & Hu & Hp & Hup). by rewrite Hu, Hp, Hup.
Qed.

Lemma quality_rule_true (r : row) :
  quality_rule r = true ↔
  ∃ i d, r !! "units_inspected" = Some (Num i) ∧ r !! "defect_units" = Some (Num d)
         ∧ PrimFloat.is_nan i = false ∧ (0 <? i)%float = true
         ∧ PrimFloat.is_nan d = false
         ∧ (0 <=? d)%float = true ∧ (d <=? i)%float = true.
Proof.
  unfold quality_rule. split.
  - destruct (r !! "units_inspected") as [[i| |]|]; try done.
    destruct (r !! "defect_units") as [[d| |]|]; try done.
    rewrite !andb_true_iff, !negb_true_iff. intros [[[[? ?] ?] ?] ?].
    by exists i, d.
  - intros (i & d & -> & -> & Hi & Hi' & Hd & Hd' & Hdi).
    by rewrite Hi, Hi', Hd, Hd', Hdi.
Qed.

(** C4. On a frame whose two rule columns hold numbers, each validator
    returns, without raising, the frame of exactly the rows that satisfy
    its rule, in their order: a retained production row has
    units_produced > 0, planned_units not missing and
    planned_units >= units_produced; a retained quality row has
    units_inspected not missing and > 0, defect_units not missing and
    0 <= defect_units <= units_inspected; every other row is dropped.
    (The only exceptions are a missing column and a cell that is no
    number.) *)
Theorem validators_keep_the_valid_rows df :
  validate_production df
  = (if numericb df "units_produced" && numericb df "planned_units" then
       Some {| columns := columns df;
               rows := List.filter production_rule (rows df) |}
     else None)
  ∧ validate_quality df
    = (if numericb df "units_inspected" && numericb df "defect_units" then
         Some {| columns := columns df;
                 rows := List.filter quality_rule (rows df) |}
       else None)
  ∧ (∀ r : row, production_rule r = true ↔
       ∃ u p, r !! "units_produced" = Some (Num u)
              ∧ r !! "planned_units" = Some (Num p)
              ∧ (0 <? u)%float = true ∧ PrimFloat.is_nan p = false
              ∧ (u <=? p)%float = true)
  ∧ (∀ r : row, quality_rule r = true ↔
       ∃ i d, r !! "units_inspected" = Some (Num i)
              ∧ r !! "defect_units" = Some (Num d)
              ∧ PrimFloat.is_nan i = false ∧ (0 <? i)%float = true
              ∧ PrimFloat.is_nan d = false
              ∧ (0 <=? d)%float = true ∧ (d <=? i)%float = true).
Proof.
  split_and!.
  - apply validate_production_spec.
  - apply validate_quality_spec.
  - apply production_rule_true.
  - apply quality_rule_true.
Qed.

(** ** The order of float64 *)

Lemma lex_compare_spec a b :
  CompareSpec (a = b) (lex_lt a b) (lex_lt b a) (lex_compare a b).
Proof.
  destruct a as [[a1 a2] a3], b as [[b1 b2] b3]. unfold lex_compare, lex_lt; simpl.
  destruct (Z.compare_spec a1 b1); [|constructor; lia..].
  destruct (Z.compare_spec a2 b2); [|constructor; lia..].
  destruct (Z.compare_spec a3 b3); constructor; [congruence|lia..].
Qed.

Lemma lex_lt_irrefl a : ¬ lex_lt a a.
Proof. unfold lex_lt. lia. Qed.

Lemma lex_lt_trans a b c : lex_lt a b → lex_lt b c → lex_lt a c.
Proof. unfold lex_lt. lia. Qed.

Lemma lex_lt_total a b : lex_lt a b ∨ a = b ∨ lex_lt b a.
Proof. destruct (lex_compare_spec a b); auto. Qed.

Lemma SFcompare_key f1 f2 :
  SFcompare f1 f2
  = match sf_key f1, sf_key f2 with
    | Some a, Some b => Some (lex_compare a b)
    | _, _ => None
    end.
Proof.
  destruct f1 as [[]|[]| |[] m1 e1], f2 as [[]|[]| |[] m2 e2]; try reflexivity.
  simpl. unfold lex_compare; simpl. rewrite Z.compare_opp.
  rewrite (Z.compare_antisym e1 e2). by destruct (e1 ?= e2)%Z.
Qed.

Lemma float_ltb_key x y :
  (x <? y)%float = true ↔
  ∃ a b, float_key x = Some a ∧ float_key y = Some b ∧ lex_lt a b.
Proof.
  rewrite FloatAxioms.ltb_spec. unfold SFltb, float_key. rewrite SFcompare_key.
  destruct (sf_key (Prim2SF x)) as [a|], (sf_key (Prim2SF y)) as [b|];
    try (split; [done|by intros (?&?&?&?&?)]).
  destruct (lex_compare_spec a b) as [->|Hlt|Hgt].
  - split; [done|]. intros (?&?&[= <-]&[= <-]&Hl). by apply lex_lt_irrefl in Hl.
  - split; [|done]. intros _. by exists a, b.
  - split; [done|]. intros (?&?&[= <-]&[= <-]&Hl).
    destruct (lex_lt_irrefl a). by eapply lex_lt_trans.
Qed.

Lemma float_eqb_key x y :
  (x =? y)%float = true ↔ ∃ a, float_key x = Some a ∧ float_key y = Some a.
Proof.
  rewrite FloatAxioms.eqb_spec. unfold SFeqb, float_key. rewrite SFcompare_key.
  destruct (sf_key (Prim2SF x)) as [a|], (sf_key (Prim2SF y)) as [b|];
    try (split; [done|by intros (?&?&?)]).
  destruct (lex_compare_spec a b) as [->|Hlt|Hgt].
  - split; [|done]. intros _. by exists b.
  - split; [done|]. intros (?&[= <-]&[= <-]). by apply lex_lt_irrefl in Hlt.
  - split; [done|]. intros (?&[= <-]&[= <-]). by apply lex_lt_irrefl in Hgt.
Qed.

Lemma float_leb_key x y :
  (x <=? y)%float = true ↔
  ∃ a b, float_key x = Some a ∧ float_key y = Some b ∧ (lex_lt a b ∨ a = b).
Proof.
  rewrite FloatAxioms.leb_spec. unfold SFleb, float_key. rewrite SFcompare_key.
  destruct (sf_key (Prim2SF x)) as [a|], (sf_key (Prim2SF y)) as [b|];
    try (split; [done|by intros (?&?&?&?&?)]).
  destruct (lex_compare_spec a b) as [->|Hlt|Hgt].
  - split; [|done]. intros _. exists b, b. auto.
  - split; [|done]. intros _. exists a, b. auto.
  - split; [done|]. intros (?&?&[= <-]&[= <-]&[Hl| ->]).
    + destruct (lex_lt_irrefl a). by eapply lex_lt_trans.
    + by apply lex_lt_irrefl in Hgt.
Qed.

Lemma float_is_nan_key x : PrimFloat.is_nan x = false ↔ is_Some (float_key x).
Proof.
  unfold PrimFloat.is_nan. rewrite negb_false_iff, float_eqb_key. split.
  - intros (a & Ha & _). by exists a.
  - intros [a Ha]. by exists a.
Qed.

Lemma float_is_nan_key_None x : PrimFloat.is_nan x = true ↔ float_key x = None.
Proof.
  rewrite <-not_false_iff_true, float_is_nan_key, <-eq_None_not_Some. done.
Qed.

(** Above a number, below a number: the two comparisons of numbers that
    are not NaN are each other's negation. *)
Lemma float_ltb_negb_leb x y :
  PrimFloat.is_nan x = false → PrimFloat.is_nan y = false →
  (x <? y)%float = negb (y <=? x)%float.
Proof.
  intros [a Ha]%float_is_nan_key [b Hb]%float_is_nan_key.
  destruct (x <? y)%float eqn:Hlt, (y <=? x)%float eqn:Hle; try done.
  - apply float_ltb_key in Hlt as (a' & b' & Ha' & Hb' & Hl).
    apply float_leb_key in Hle as (b'' & a'' & Hb'' & Ha'' & Hl').
    rewrite Ha in Ha', Ha''. rewrite Hb in Hb', Hb''.
    injection Ha' as <-. injection Ha'' as <-.
    injection Hb' as <-. injection Hb'' as <-.
    destruct (lex_lt_irrefl a). destruct Hl' as [Hl'|Hl']; [|by rewrite Hl' in Hl].
    by eapply lex_lt_trans.
  - destruct (lex_lt_total a b) as [Hl|[->|Hl]].
    + assert ((x <? y)%float = true) by (apply float_ltb_key; eauto 6). congruence.
    + assert ((y <=? x)%float = true) by (apply float_leb_key; eauto 6). congruence.
    + assert ((y <=? x)%float = true) by (apply float_leb_key; eauto 6). congruence.
Qed.

Lemma float_ltb_not_nan x y :
  (x <? y)%float = true → PrimFloat.is_nan x = false ∧ PrimFloat.is_nan y = false.
Proof.
  intros (a & b & Ha & Hb & _)%float_ltb_key.
  split; apply float_is_nan_key; eauto.
Qed.

Lemma float_leb_not_nan x y :
  (x <=? y)%float = true → PrimFloat.is_nan x = false ∧ PrimFloat.is_nan y = false.
Proof.
  intros (a & b & Ha & Hb & _)%float_leb_key.
  split; apply float_is_nan_key; eauto.
Qed.

Lemma float_ltb_trans x y z :
  (x <? y)%float = true → (y <? z)%float = true → (x <? z)%float = true.
Proof.
  rewrite !float_ltb_key. intros (a & b & Ha & Hb & Hab) (b' & c & Hb' & Hc & Hbc).
  simplify_eq. exists a, c. eauto using lex_lt_trans.
Qed.

Lemma float_ltb_irrefl x : (x <? x)%float = false.
Proof.
  apply not_true_iff_false. intros (a & b & Ha & Hb & Hab)%float_ltb_key.
  simplify_eq. by apply lex_lt_irrefl in Hab.
Qed.

Lemma float_eqb_sym x y : (x =? y)%float = (y =? x)%float.
Proof.
  apply eq_true_iff_eq. rewrite !float_eqb_key.
  split; intros (a & Ha & Hb); by exists a.
Qed.

Lemma float_eqb_trans x y z :
  (x =? y)%float = true → (y =? z)%float = true → (x =? z)%float = true.
Proof.
  rewrite !float_eqb_key. intros (a & Ha & Hb) (b & Hb' & Hc). simplify_eq. eauto.
Qed.

Lemma float_eqb_refl x : PrimFloat.is_nan x = false → (x =? x)%float = true.
Proof. unfold PrimFloat.is_nan. by rewrite negb_false_iff. Qed.

(** Equal numbers compare alike. *)
Lemma float_ltb_eqb_l x y z :
  (x =? y)%float = true → (x <? z)%float = (y <? z)%float.
Proof.
  intros (a & Ha & Hb)%float_eqb_key. apply eq_true_iff_eq.
  rewrite !float_ltb_key. rewrite Ha, Hb. done.
Qed.

Lemma float_ltb_eqb_r x y z :
  (x =? y)%float = true → (z <? x)%float = (z <? y)%float.
Proof.
  intros (a & Ha & Hb)%float_eqb_key. apply eq_true_iff_eq.
  rewrite !float_ltb_key. rewrite Ha, Hb. done.
Qed.

Lemma float_trichotomy x y :
  PrimFloat.is_nan x = false → PrimFloat.is_nan y = false →
  (x <? y)%float = true ∨ (x =? y)%float = true ∨ (y <? x)%float = true.
Proof.
  intros [a Ha]%float_is_nan_key [b Hb]%float_is_nan_key.
  rewrite !float_ltb_key, float_eqb_key.
  destruct (lex_lt_total a b) as [Hl|[->|Hl]]; eauto 8.
Qed.

Lemma float_ltb_eqb_false x y : (x <? y)%float = true → (x =? y)%float = false.
Proof.
  intros (a & b & Ha & Hb & Hab)%float_ltb_key. apply not_true_iff_false.
  intros (c & Ha' & Hb')%float_eqb_key. simplify_eq. by apply lex_lt_irrefl in Hab.
Qed.

Lemma float_ltb_asym x y : (x <? y)%float = true → (y <? x)%float = false.
Proof.
  intros Hxy. apply not_true_iff_false. intros Hyx.
  pose proof (float_ltb_trans _ _ _ Hxy Hyx) as Hxx.
  by rewrite float_ltb_irrefl in Hxx.
Qed.

(** ** Computing a Series from the rows *)

Lemma mapM_fmap_compose {A B C} (f : B → option C) (g : A → B) l :
  mapM f (g <$> l) = mapM (f ∘ g) l.
Proof.
  induction l as [|x l IH]; [done|]. rewrite fmap_cons.
  change (mapM f (g x :: (g <$> l)))
    with (y ← f (g x); k ← mapM f (g <$> l); mret (y :: k)).
  by rewrite IH.
Qed.

Lemma mapM_if {A B} (g : A → option B) (t : A → bool) (h : A → B) l :
  (∀ x, g x = if t x then Some (h x) else None) →
  mapM g l = if forallb t l then Some (h <$> l) else None.
Proof.
  intros Hg. induction l as [|x l IH]; simpl; [done|].
  rewrite Hg, IH. destruct (t x); simpl; [|done]. by destruct (forallb t l).
Qed.

Lemma getitem_mapM {B} df c s (g : cell → option B) :
  getitem df c = Some s → mapM g s = mapM (λ r : row, r !! c ≫= g) (rows df).
Proof.
  intros [_ Hs]%getitem_Some.
  induction Hs as [|r v rs s Hv _ IH]; simpl; [done|]. by rewrite Hv, IH.
Qed.

Lemma getitem_None_forallb df c (t : row → bool) :
  (∀ r, t r = true → is_Some (r !! c)) →
  getitem df c = None → bool_decide (c ∈ columns df) && forallb t (rows df) = false.
Proof.
  intros Ht. unfold getitem. destruct (decide (c ∈ columns df)) as [Hc|Hc].
  - intros Hs. rewrite bool_decide_eq_true_2 by done. simpl.
    apply mapM_None in Hs. apply not_true_iff_false. intros Hall.
    rewrite forallb_forall in Hall. apply Exists_exists in Hs as (r & Hr & Hn).
    apply list_elem_of_In, Hall, Ht in Hr. rewrite Hn in Hr. by destruct Hr.
  - intros _. by rewrite bool_decide_eq_false_2.
Qed.

Lemma zip_with_fmap_r_same {A B C} (h : A → B → C) (f : A → B) l :
  zip_with h l (f <$> l) = (λ x, h x (f x)) <$> l.
Proof. induction l as [|x l IH]; csimpl; [done|]. by rewrite IH. Qed.

(** Assigning a Series computed row by row. *)
Lemma setitem_fmap df c (f : row → cell) :
  setitem df c (f <$> rows df)
  = Some {| columns := with_column (columns df) c;
            rows := (λ r, <[c:=f r]> r) <$> rows df |}.
Proof.
  unfold setitem. rewrite length_fmap, decide_True by done.
  by rewrite zip_with_fmap_r_same.
Qed.

Lemma elem_of_with_column cols c : c ∈ with_column cols c.
Proof.
  unfold with_column. destruct (decide (c ∈ cols)); [done|].
  apply elem_of_app. right. by left.
Qed.

(** Reading back the column that was just assigned. *)
Lemma getitem_assigned cols c (f : row → cell) (rs : list row) :
  getitem {| columns := with_column cols c; rows := (λ r, <[c:=f r]> r) <$> rs |} c
  = Some (f <$> rs).
Proof.
  unfold getitem; simpl. rewrite decide_True by apply elem_of_with_column.
  rewrite mapM_fmap_compose. apply mapM_total, Forall_forall.
  intros r _. simpl. apply lookup_insert_eq.
Qed.

(** ** Task 7: risk scoring *)

Lemma getitem_fillna df c s :
  getitem df c = Some s →
  mapM as_num (fillna 0 s)
  = if scorableb df c then Some (kpi c <$> rows df) else None.
Proof.
  intros Hs. unfold fillna, scorableb.
  rewrite bool_decide_eq_true_2 by (by apply getitem_Some in Hs as [? _]).
  rewrite mapM_fmap_compose, (getitem_mapM _ _ _ _ Hs). apply mapM_if.
  intros r. unfold scorable_cell, kpi.
  destruct (r !! c) as [[x|t|[t|]]|]; simpl; try done.
  by destruct (PrimFloat.is_nan x).
Qed.

Lemma getitem_None_scorableb df c : getitem df c = None → scorableb df c = false.
Proof.
  apply getitem_None_forallb. intros r. unfold scorable_cell.
  by destruct (r !! c).
Qed.

Lemma risk_scoring_spec df :
  risk_scoring df
  = if scorableb df "production_efficiency" && scorableb df "defect_rate"
       && scorableb df "downtime_per_unit" then
      Some {| columns :=
                with_column (with_column (columns df) "risk_score") "risk_level";
              rows := scored_row <$> rows df |}
    else None.
Proof.
  unfold risk_scoring.
  destruct (getitem df "production_efficiency") as [e|] eqn:He; csimpl;
    [|by rewrite (getitem_None_scorableb _ _ He)].
  destruct (getitem df "defect_rate") as [r|] eqn:Hr; csimpl;
    [|by rewrite (getitem_None_scorableb _ _ Hr), andb_false_r].
  destruct (getitem df "downtime_per_unit") as [t|] eqn:Ht; csimpl;
    [|by rewrite (getitem_None_scorableb _ _ Ht), andb_false_r].
  unfold series_rsub, series_mul. rewrite !mapM_as_num.
  rewrite (getitem_fillna _ _ _ He), (getitem_fillna _ _ _ Hr),
    (getitem_fillna _ _ _ Ht).
  destruct (scorableb df "production_efficiency"); csimpl; [|done].
  destruct (scorableb df "defect_rate"); csimpl; [|done].
  destruct (scorableb df "downtime_per_unit"); csimpl; [|done].
  unfold floats_add, floats_mul.
  rewrite <-!list_fmap_compose.
  rewrite decide_True by (by rewrite !length_fmap).
  csimpl. rewrite zip_with_fmap_same.
  rewrite decide_True by (by rewrite !length_fmap).
  csimpl. rewrite zip_with_fmap_same.
  rewrite <-list_fmap_compose, setitem_fmap. csimpl.
  rewrite getitem_assigned. csimpl.
  rewrite mapM_fmap_compose.
  rewrite (mapM_total _ (λ r, clip 0 100 (raw_score r)))
    by (by apply Forall_forall).
  csimpl. rewrite <-list_fmap_compose.
  pose proof (setitem_fmap
    {| columns := with_column (columns df) "risk_score";
       rows := (λ r : row, <["risk_score":=Num (risk_score r)]> r) <$> rows df |}
    "risk_level"
    (λ r, cut risk_bins risk_labels
            (match r !! "risk_score" with Some (Num x) => x | _ => nan end)))
    as Hset.
  simpl in Hset. rewrite <-!list_fmap_compose in Hset.
  etrans; [|etrans; [exact Hset|]].
  - f_equal. apply list_fmap_ext. intros _ r0 _. simpl.
    by rewrite lookup_insert_eq.
  - do 2 f_equal. apply list_fmap_ext. intros _ r0 _. simpl.
    unfold scored_row, risk_level. by rewrite lookup_insert_eq.
Qed.

Lemma Forall2_fmap_diag {A B} (P : A → B → Prop) (f : A → B) l :
  (∀ x, P x (f x)) → Forall2 P l (f <$> l).
Proof. intros HP. induction l; csimpl; by constructor. Qed.

Lemma risk_scoring_rows df out :
  risk_scoring df = Some out → rows out = scored_row <$> rows df.
Proof.
  rewrite risk_scoring_spec.
  destruct (_ && _); [|done]. by intros [= <-].
Qed.

(** Clipping keeps a missing value missing and puts every other value
    between the bounds. *)
Lemma clip_is_nan x : PrimFloat.is_nan (clip 0 100 x) = PrimFloat.is_nan x.
Proof.
  unfold clip. destruct (PrimFloat.is_nan x) eqn:Hx; simpl; [done|].
  destruct (x <=? 100)%float; [|done]. by destruct (0 <=? x)%float.
Qed.

Lemma clip_bounds x :
  PrimFloat.is_nan x = false →
  (0 <=? clip 0 100 x)%float = true ∧ (clip 0 100 x <=? 100)%float = true.
Proof.
  unfold clip. intros ->. simpl.
  destruct (x <=? 100)%float eqn:Hhi; [|done].
  by destruct (0 <=? x)%float eqn:Hlo.
Qed.

Lemma scored_row_score r :
  scored_row r !! "risk_score" = Some (Num (risk_score r)).
Proof. unfold scored_row. by rewrite lookup_insert_ne, lookup_insert_eq. Qed.

Lemma scored_row_level r : scored_row r !! "risk_level" = Some (risk_level r).
Proof. unfold scored_row. by rewrite lookup_insert_eq. Qed.

Lemma scored_row_other r c :
  c ≠ "risk_score" → c ≠ "risk_level" → scored_row r !! c = r !! c.
Proof. intros. unfold scored_row. by rewrite !lookup_insert_ne. Qed.

(** C3, as the code has it.  The risk_score of every output row is the
    weighted sum (1 - efficiency)*50 + defect_rate*30 + downtime_per_unit*20
    of the KPIs of the row, a missing KPI counted as 0, clipped to
    [0, 100]: it is NaN exactly when the sum is NaN (infinite terms of
    opposite sign), and otherwise 0 <= risk_score <= 100. *)
Theorem risk_score_clipped df out :
  risk_scoring df = Some out →
  Forall2 (λ (r o : row),
             ∃ x, o !! "risk_score" = Some (Num x)
                  ∧ x = clip 0 100 (raw_score r)
                  ∧ PrimFloat.is_nan x = PrimFloat.is_nan (raw_score r)
                  ∧ (PrimFloat.is_nan x
                     || ((0 <=? x)%float && (x <=? 100)%float)) = true)
          (rows df) (rows out).
Proof.
  intros ->%risk_scoring_rows. apply Forall2_fmap_diag. intros r.
  exists (risk_score r). split_and!.
  - apply scored_row_score.
  - done.
  - apply clip_is_nan.
  - unfold risk_score. rewrite clip_is_nan.
    destruct (PrimFloat.is_nan (raw_score r)) eqn:Hn; [done|].
    by destruct (clip_bounds _ Hn) as [-> ->].
Qed.

Lemma risk_score_clipped_witness :
  ∃ out, risk_scoring scored_example = Some out
         ∧ Forall2 (λ (r o : row),
                      ∃ x, o !! "risk_score" = Some (Num x)
                           ∧ x = clip 0 100 (raw_score r)
                           ∧ PrimFloat.is_nan x = PrimFloat.is_nan (raw_score r)
                           ∧ (PrimFloat.is_nan x
                              || ((0 <=? x)%float && (x <=? 100)%float)) = true)
                   (rows scored_example) (rows out).
Proof.
  destruct (risk_scoring scored_example) as [out|] eqn:Hout.
  - exists out. split; [reflexivity|]. exact (risk_score_clipped _ _ Hout).
  - exfalso. vm_compute in Hout. discriminate Hout.
Defined.

(** The claim C3 fails as stated: efficiency and defect rate both
    infinite give the score (1 - inf)*50 + inf*30 = -inf + inf = NaN, which
    the clip leaves alone, and NaN is not between 0 and 100. *)
Lemma risk_score_can_be_nan :
  ∃ out r x, risk_scoring nan_score_frame = Some out
             ∧ r ∈ rows out
             ∧ r !! "risk_score" = Some (Num x)
             ∧ ((0 <=? x)%float && (x <=? 100)%float) = false.
Proof.
  exists {| columns := with_column (with_column (columns nan_score_frame) "risk_score")
                                   "risk_level";
            rows := scored_row <$> rows nan_score_frame |}.
  eexists _, _. split_and!.
  - rewrite risk_scoring_spec. by vm_compute.
  - simpl. apply list_elem_of_here.
  - apply scored_row_score.
  - by vm_compute.
Qed.

(** The bins of the risk level: [pd.cut] with the edges 0, 30, 60, 100
    labels a score in (0, 30] LOW, in (30, 60] MEDIUM and in (60, 100]
    HIGH, and leaves every other score, 0 among them, without a label. *)
Lemma cut_risk_bins x :
  cut risk_bins risk_labels x
  = if PrimFloat.is_nan x then Num nan
    else if (0 <? x)%float then
      if (x <=? 30)%float then Str "LOW"
      else if (x <=? 60)%float then Str "MEDIUM"
      else if (x <=? 100)%float then Str "HIGH"
      else Num nan
    else Num nan.
Proof.
  unfold cut, risk_bins, risk_labels, searchsorted_left.
  destruct (PrimFloat.is_nan x) eqn:Hx; simpl; [done|].
  rewrite (float_ltb_negb_leb 30 x), (float_ltb_negb_leb 60 x),
    (float_ltb_negb_leb 100 x) by done.
  destruct (0 <? x)%float; simpl; [|done].
  destruct (x <=? 30)%float; simpl; [done|].
  destruct (x <=? 60)%float; simpl; [done|].
  by destruct (x <=? 100)%float.
Qed.

(** C1 at the lower edge.  The level of a score is LOW on (0, 30], MEDIUM
    on (30, 60], HIGH on (60, 100] and missing elsewhere; a row with
    efficiency 1, no defects and no downtime has the score 0, and its
    risk_level is missing, not LOW. *)
Theorem risk_level_of_zero_score :
  (∀ x, cut risk_bins risk_labels x
        = if PrimFloat.is_nan x then Num nan
          else if (0 <? x)%float then
            if (x <=? 30)%float then Str "LOW"
            else if (x <=? 60)%float then Str "MEDIUM"
            else if (x <=? 100)%float then Str "HIGH"
            else Num nan
          else Num nan)
  ∧ ∃ out r, risk_scoring zero_score_frame = Some out
             ∧ rows out = [r]
             ∧ r !! "risk_score" = Some (Num 0)
             ∧ r !! "risk_level" = Some (Num nan)
             ∧ r !! "risk_level" ≠ Some (Str "LOW").
Proof.
  split; [apply cut_risk_bins|].
  exists {| columns := with_column (with_column (columns zero_score_frame) "risk_score")
                                   "risk_level";
            rows := scored_row <$> rows zero_score_frame |}.
  eexists. split_and!.
  - rewrite risk_scoring_spec. by vm_compute.
  - reflexivity.
  - rewrite scored_row_score. by vm_compute.
  - rewrite scored_row_level. by vm_compute.
  - rewrite scored_row_level. by vm_compute.
Qed.

(** A missing KPI counts as 0 in the score. *)
Lemma kpi_missing c (r : row) v : r !! c = Some v → isna v = true → kpi c r = 0%float.
Proof.
  unfold kpi. intros -> Hv. destruct v as [x| |]; try done.
  simpl in Hv. by rewrite Hv.
Qed.

Lemma kpi_present c (r : row) x :
  r !! c = Some (Num x) → PrimFloat.is_nan x = false → kpi c r = x.
Proof. unfold kpi. by intros -> ->. Qed.

(** C9. Scoring adds the columns risk_score and risk_level and changes
    no other cell: the three KPI columns of the output are those of the
    input, missing values still missing, while the score is computed from
    the KPIs with a missing one counted as 0. *)
Theorem risk_scoring_keeps_kpis df out :
  risk_scoring df = Some out →
  Forall2 (λ (r o : row),
             o !! "production_efficiency" = r !! "production_efficiency"
             ∧ o !! "defect_rate" = r !! "defect_rate"
             ∧ o !! "downtime_per_unit" = r !! "downtime_per_unit"
             ∧ (∀ c, c ≠ "risk_score" → c ≠ "risk_level" → o !! c = r !! c)
             ∧ o !! "risk_score" = Some (Num (clip 0 100 (raw_score r))))
          (rows df) (rows out)
  ∧ (∀ c (r : row) v, r !! c = Some v → isna v = true → kpi c r = 0%float)
  ∧ (∀ c (r : row) x, r !! c = Some (Num x) → PrimFloat.is_nan x = false →
                      kpi c r = x).
Proof.
  intros ->%risk_scoring_rows. split_and!.
  - apply Forall2_fmap_diag. intros r. split_and!.
    + by apply scored_row_other.
    + by apply scored_row_other.
    + by apply scored_row_other.
    + apply scored_row_other.
    + apply scored_row_score.
  - apply kpi_missing.
  - apply kpi_present.
Qed.

Lemma risk_scoring_keeps_kpis_witness :
  ∃ out, risk_scoring scored_example = Some out
         ∧ Forall2 (λ (r o : row),
                      o !! "production_efficiency" = r !! "production_efficiency"
                      ∧ o !! "defect_rate" = r !! "defect_rate"
                      ∧ o !! "downtime_per_unit" = r !! "downtime_per_unit")
                   (rows scored_example) (rows out).
Proof.
  destruct (risk_scoring scored_example) as [out|] eqn:Hout.
  - exists out. split; [reflexivity|].
    destruct (risk_scoring_keeps_kpis _ _ Hout) as [Hall _].
    eapply Forall2_impl; [exact Hall|]. intros r o (? & ? & ? & _). auto.
  - exfalso. vm_compute in Hout. discriminate Hout.
Defined.

(** ** The store: [clean_text] works on a copy *)

Lemma store_clean_columns `{Pandas} (l : positive) cols (σ : gmap positive DataFrame) d :
  σ !! l = Some d →
  Store.clean_columns l cols σ
  = match clean_text d cols with
    | Some d' => Some ((), <[l:=d']> σ)
    | None => None
    end.
Proof.
  revert σ d. induction cols as [|c cols IH]; intros σ d Hd; simpl.
  - unfold Store.ret. by rewrite insert_id.
  - unfold Store.bind at 1. unfold Store.getitem at 1. rewrite Hd; simpl.
    destruct (getitem d c) as [s|]; simpl; [|done].
    unfold Store.bind at 1. unfold Store.setitem at 1. rewrite Hd; simpl.
    destruct (setitem d c (clean_cell <$> s)) as [d1|]; simpl; [|done].
    rewrite (IH _ d1) by apply lookup_insert_eq.
    destruct (clean_text d1 cols); [|done]. by rewrite insert_insert_eq.
Qed.

Lemma store_clean_text `{Pandas} (l : positive) cols (σ : gmap positive DataFrame) :
  Store.clean_text l cols σ
  = df ← σ !! l; df' ← clean_text df cols;
    Some (fresh (dom σ), <[fresh (dom σ):=df']> σ).
Proof.
  unfold Store.clean_text, Store.bind at 1, Store.copy.
  destruct (σ !! l) as [df|]; simpl; [|done].
  unfold Store.bind. rewrite (store_clean_columns _ _ _ df) by apply lookup_insert_eq.
  destruct (clean_text df cols); simpl; [|done].
  unfold Store.ret. by rewrite insert_insert_eq.
Qed.

Lemma clean_text_cells `{Pandas} df cols df' :
  upper_laws →
  clean_text df cols = Some df' →
  columns df' = columns df
  ∧ Forall2 (λ (r r' : row),
               ∀ c, r' !! c = if decide (c ∈ cols) then clean_cell <$> r !! c
                              else r !! c)
            (rows df) (rows df').
Proof.
  intros laws [_ ->]%clean_text_spec. rewrite foldl_map_column. simpl.
  split; [done|].
  apply Forall2_fmap_diag. intros r c. by apply lookup_map_cells, clean_cell_idemp.
Qed.

(** C8, as the code has it.  [clean_text] returns a new frame and leaves
    the store as it was but for that frame, so the caller's frame is
    untouched.  The new frame has the labels of the old one; outside the
    designated columns its cells are those of the old one, and in a
    designated column each cell is the text of the old cell, stripped,
    upper-cased, and with its white space removed: its characters are
    exactly those of the upper cases of the characters of that text that
    are no white space, in their order (so every run of white space is
    gone, not collapsed).  The text of a missing number is nan, so such a
    cell becomes NAN; the text of a missing date is NaT, so such a cell
    becomes NAT. *)
Theorem clean_text_on_a_copy `{Pandas} (σ σ' : gmap positive DataFrame)
    (l l' : positive) (cols : list string) :
  upper_laws →
  Store.clean_text l cols σ = Some (l', σ') →
  ∃ df df',
    σ !! l = Some df ∧ σ !! l' = None ∧ σ' = <[l':=df']> σ
    ∧ σ' !! l = Some df ∧ σ' !! l' = Some df'
    ∧ (∀ k, k ≠ l' → σ' !! k = σ !! k)
    ∧ clean_text df cols = Some df'
    ∧ columns df' = columns df
    ∧ Forall2 (λ (r r' : row),
                 ∀ c, r' !! c = if decide (c ∈ cols) then clean_cell <$> r !! c
                                else r !! c)
              (rows df) (rows df')
    ∧ (∀ v, ∃ t, clean_cell v = Str t
                 ∧ t = str_remove_ws (str_upper (str_strip (astype_str v)))
                 ∧ chars t
                   = List.filter (λ c, negb (isspace c)) (chars (astype_str v))
                       ≫= upper_chars)
    ∧ (∀ x, PrimFloat.is_nan x = true → clean_cell (Num x) = Str "NAN")
    ∧ clean_cell (Dt None) = Str "NAT".
Proof.
  intros laws. rewrite store_clean_text. intros Hrun.
  destruct (σ !! l) as [df|] eqn:Hl; simpl in Hrun; [|done].
  destruct (clean_text df cols) as [df'|] eqn:Hclean; simpl in Hrun; [|done].
  injection Hrun as <- <-.
  assert (σ !! fresh (dom σ) = None) as Hfresh
    by apply not_elem_of_dom, is_fresh.
  assert (l ≠ fresh (dom σ)) as Hne by (intros ->; congruence).
  destruct (clean_text_cells _ _ _ laws Hclean) as [Hcols Hrows].
  exists df, df'. split_and!; try done.
  - by rewrite lookup_insert_ne.
  - apply lookup_insert_eq.
  - intros k Hk. by rewrite lookup_insert_ne.
  - intros v. eexists. split; [reflexivity|]. split; [done|].
    by apply chars_clean.
  - by apply clean_cell_nan.
  - by apply clean_cell_NaT.
Qed.

Lemma clean_text_on_a_copy_witness :
  ∃ l' σ' df',
    @Store.clean_text iso_pandas 1%positive ["product_code"] store_example
    = Some (l', σ')
    ∧ σ' !! 1%positive = Some text_example
    ∧ σ' !! l' = Some df'
    ∧ columns df' = columns text_example.
Proof.
  destruct (@Store.clean_text iso_pandas 1%positive ["product_code"] store_example)
    as [[l' σ']|] eqn:Hrun.
  - destruct (@clean_text_on_a_copy iso_pandas _ _ _ _ _ iso_pandas_laws Hrun)
      as (df & df' & Hl & _ & _ & Hl1 & Hl2 & _ & _ & Hcols & _).
    exists l', σ', df'.
    assert (df = text_example) as -> by (vm_compute in Hl; by injection Hl).
    by split_and!.
  - exfalso. vm_compute in Hrun. discriminate Hrun.
Defined.

(** The claim C8 fails as stated: a missing date is a null value, its
    text is NaT, and the cleaned cell is the text NAT, not NAN. *)
Lemma missing_date_is_cleaned_to_NAT :
  isna (Dt None) = true
  ∧ @clean_cell iso_pandas (Dt None) = Str "NAT"
  ∧ @clean_cell iso_pandas (Dt None) ≠ Str "NAN".
Proof. split_and!; [done|by vm_compute|]. vm_compute. by intros [=]. Qed.

(** ** Lists: filters, maps and binds *)

Lemma filter_bind {A B} (p : B → bool) (g : A → list B) (l : list A) :
  List.filter p (l ≫= g) = l ≫= (λ x, List.filter p (g x)).
Proof.
  induction l as [|x l IH]; [done|].
  by rewrite !bind_cons, List.filter_app, IH.
Qed.

Lemma filter_fmap {A B} (p : B → bool) (f : A → B) (l : list A) :
  List.filter p (f <$> l) = f <$> List.filter (λ x, p (f x)) l.
Proof.
  induction l as [|x l IH]; csimpl; [done|].
  rewrite IH. by destruct (p (f x)).
Qed.

Lemma fmap_bind {A B C} (f : B → C) (g : A → list B) (l : list A) :
  f <$> (l ≫= g) = l ≫= (λ x, f <$> g x).
Proof.
  induction l as [|x l IH]; [done|]. by rewrite !bind_cons, fmap_app, IH.
Qed.

Lemma zip_fmap_bind {A B C} (f : A → B) (g : A * B → list C) (l : list A) :
  zip l (f <$> l) ≫= g = l ≫= (λ x, g (x, f x)).
Proof.
  induction l as [|x l IH]; [done|]. csimpl. by rewrite IH.
Qed.

Lemma bind_ext_Forall {A B} (g h : A → list B) (l : list A) :
  Forall (λ x, g x = h x) l → l ≫= g = l ≫= h.
Proof.
  induction 1 as [|x l Hx _ IH]; [done|]. by rewrite !bind_cons, Hx, IH.
Qed.

Lemma fmap_ext_Forall {A B} (g h : A → B) (l : list A) :
  Forall (λ x, g x = h x) l → g <$> l = h <$> l.
Proof. induction 1 as [|x l Hx _ IH]; csimpl; [done|]. by rewrite Hx, IH. Qed.

(** The Series of a column, cell by cell. *)
Lemma getitem_cellof df c s : getitem df c = Some s → s = cellof c <$> rows df.
Proof.
  intros [_ Hs]%getitem_Some.
  induction Hs as [|r v rs s Hv _ IH]; csimpl; [done|].
  rewrite <-IH. f_equal. unfold cellof. by rewrite Hv.
Qed.

Lemma has_column_cellof df c (r : row) :
  has_column df c → r ∈ rows df → r !! c = Some (cellof c r).
Proof.
  intros [_ Hall] Hr. rewrite Forall_forall in Hall.
  destruct (Hall r Hr) as [v Hv]. unfold cellof. by rewrite Hv.
Qed.

(** ** Joins *)

Lemma merge_left_spec left right left_on right_on M :
  merge_left left right left_on right_on = Some M →
  has_column left left_on ∧ has_column right right_on
  ∧ NoDup ((suffix_x (columns right) <$> columns left)
           ++ (suffix_y (columns left) <$> columns right))
  ∧ columns M = (suffix_x (columns right) <$> columns left)
                ++ (suffix_y (columns left) <$> columns right)
  ∧ rows M = rows left ≫= merge_rows left right left_on right_on.
Proof.
  unfold merge_left. intros HM.
  destruct (getitem left left_on) as [lk|] eqn:Hlk; simpl in HM; [|done].
  destruct (getitem right right_on) as [rk|] eqn:Hrk; simpl in HM; [|done].
  destruct (decide (NoDup _)) as [Hnd|]; [|done]. injection HM as <-. simpl.
  split_and!; try done.
  - apply getitem_has_column. by rewrite Hlk.
  - apply getitem_has_column. by rewrite Hrk.
  - rewrite (getitem_cellof _ _ _ Hlk), (getitem_cellof _ _ _ Hrk).
    rewrite zip_fmap_bind. apply bind_ext_Forall, Forall_forall. intros l _.
    unfold merge_rows. simpl.
    by rewrite <-list_fmap_compose, mask_filter_fmap.
Qed.

Lemma relabel_cons f c cols (r : row) :
  relabel f (c :: cols) r
  = match r !! c with
    | Some v => <[f c:=v]> (relabel f cols r)
    | None => relabel f cols r
    end.
Proof. unfold relabel. simpl. by destruct (r !! c). Qed.

Lemma lookup_relabel_None f cols (r : row) k :
  k ∉ (f <$> cols) → relabel f cols r !! k = None.
Proof.
  induction cols as [|c cols IH]; intros Hk; [done|].
  rewrite fmap_cons, not_elem_of_cons in Hk. destruct Hk as [Hne Hk].
  rewrite relabel_cons. destruct (r !! c); [|by apply IH].
  rewrite lookup_insert_ne by done. by apply IH.
Qed.

Lemma lookup_relabel f cols (r : row) c :
  NoDup (f <$> cols) → c ∈ cols → relabel f cols r !! f c = r !! c.
Proof.
  induction cols as [|c0 cols IH]; intros Hnd Hc; [by apply elem_of_nil in Hc|].
  rewrite fmap_cons in Hnd. apply NoDup_cons in Hnd as [Hfresh Hnd].
  rewrite relabel_cons. apply elem_of_cons in Hc as [->|Hc].
  - destruct (r !! c0) as [v|]; [by rewrite lookup_insert_eq|].
    by apply lookup_relabel_None.
  - assert (f c0 ≠ f c) as Hne.
    { intros Heq. apply Hfresh. rewrite Heq. by apply list_elem_of_fmap_2. }
    destruct (r !! c0) as [v|]; [rewrite lookup_insert_ne by done|]; by apply IH.
Qed.

Lemma lookup_missing_row cols k :
  k ∈ cols → missing_row cols !! k = Some (Num nan).
Proof.
  unfold missing_row. induction cols as [|c cols IH]; intros Hk;
    [by apply elem_of_nil in Hk|].
  csimpl. destruct (decide (c = k)) as [->|Hne]; [by rewrite lookup_insert_eq|].
  rewrite lookup_insert_ne by done. apply IH.
  apply elem_of_cons in Hk as [?|?]; [congruence|done].
Qed.

(** A label with a suffix is neither of the two master labels the
    mapping looks up. *)
Ltac string_suffix_neq H c :=
  repeat (destruct c as [|? c]; simpl in H; [discriminate H|];
          first [discriminate H|injection H as _ H]).

Lemma suffix_x_raw c : c +:+ "_x" ≠ "product_code_raw".
Proof. intros H. string_suffix_neq H c. Qed.

Lemma suffix_y_raw c : c +:+ "_y" ≠ "product_code_raw".
Proof. intros H. string_suffix_neq H c. Qed.

Lemma suffix_x_std c : c +:+ "_x" ≠ "product_code_std".
Proof. intros H. string_suffix_neq H c. Qed.

Lemma suffix_y_std c : c +:+ "_y" ≠ "product_code_std".
Proof. intros H. string_suffix_neq H c. Qed.

(** A master label that is a label of the merged frame is no label of
    the left frame, and keeps its name on the right. *)
Lemma merged_label lcols rcols k :
  (∀ c, c +:+ "_x" ≠ k) → (∀ c, c +:+ "_y" ≠ k) →
  k ∈ rcols →
  k ∈ (suffix_x rcols <$> lcols) ++ (suffix_y lcols <$> rcols) →
  (k ∉ lcols) ∧ (k ∉ (suffix_x rcols <$> lcols)) ∧ suffix_y lcols k = k.
Proof.
  intros Hx Hy Hr Hin.
  assert (k ∉ (suffix_x rcols <$> lcols)) as Hnl.
  { intros (c & Hc & _)%list_elem_of_fmap. unfold suffix_x in Hc.
    destruct (decide (c ∈ rcols)); [by destruct (Hx c)|]. congruence. }
  apply elem_of_app in Hin as [Hin|Hin]; [done|].
  apply list_elem_of_fmap in Hin as (c & Hc & _). unfold suffix_y in Hc.
  destruct (decide (c ∈ lcols)) as [|Hnc]; [by destruct (Hy c)|]. subst c.
  split_and!; [done..|]. unfold suffix_y. by rewrite decide_False.
Qed.

Lemma Forall_filter_elem {A} (p : A → bool) (P : A → Prop) l :
  Forall P l → Forall P (List.filter p l).
Proof.
  induction 1 as [|x l Hx _ IH]; simpl; [done|]. destruct (p x); [by constructor|done].
Qed.

(** ** Task 4: product master mapping *)

Lemma clean_text_frame `{Pandas} df cols d :
  clean_text df cols = Some d →
  Forall (has_column df) cols
  ∧ columns d = columns df
  ∧ rows d = map_cells clean_cell cols <$> rows df.
Proof. intros [Hall ->]%clean_text_spec. by rewrite foldl_map_column. Qed.

Lemma NoDup_code_column : NoDup ["product_code"].
Proof. apply (bool_decide_unpack _). by vm_compute. Qed.

Lemma NoDup_master_columns : NoDup master_columns.
Proof. apply (bool_decide_unpack _). by vm_compute. Qed.

Lemma cellof_cleaned `{Pandas} cols c (r : row) v :
  NoDup cols → c ∈ cols → r !! c = Some v →
  cellof c (map_cells clean_cell cols r) = clean_cell v.
Proof.
  intros Hnd Hc Hv. unfold cellof.
  rewrite lookup_map_cells_NoDup by done.
  rewrite decide_True by done. by rewrite Hv.
Qed.

(** Of the rows a left row contributes to a join, those with a value in
    a column [k] that comes from the right frame, and is text there, are
    the rows of its matches. *)
Lemma filter_merge_rows left right left_on right_on (l : row) k :
  relabel (suffix_x (columns right)) (columns left) l !! k = None →
  k ∈ (suffix_y (columns left) <$> columns right) →
  Forall (λ m : row, ∃ v, relabel (suffix_y (columns left)) (columns right) m !! k
                          = Some (Str v)) (rows right) →
  List.filter (notna ∘ cellof k) (merge_rows left right left_on right_on l)
  = (λ m, relabel (suffix_x (columns right)) (columns left) l
          ∪ relabel (suffix_y (columns left)) (columns right) m)
      <$> List.filter (λ m, key_eqb (cellof left_on l) (cellof right_on m))
            (rows right).
Proof.
  intros Hl Hk Hall. unfold merge_rows.
  pose proof (Forall_filter_elem
    (λ m, key_eqb (cellof left_on l) (cellof right_on m)) _ _ Hall) as Hms.
  destruct (List.filter _ (rows right)) as [|m0 ms].
  - cbn [List.filter compose]. unfold cellof at 1.
    rewrite lookup_union_r by done. by rewrite lookup_missing_row.
  - apply filter_all, Forall_fmap. eapply Forall_impl; [exact Hms|].
    intros m [v Hv]. cbn [compose]. unfold cellof.
    rewrite lookup_union_r by done. by rewrite Hv.
Qed.

Lemma map_product_master_spec `{Pandas} df pm out :
  map_product_master df pm = Some out →
  columns out
  = filter (λ c, c ≠ "product_code_raw")
      ((suffix_x (columns pm) <$> columns df) ++ (suffix_y (columns df) <$> columns pm))
  ∧ rows out = rows df ≫= mapped_rows df pm.
Proof.
  unfold map_product_master. intros Hout.
  apply bind_Some in Hout as (dfc & Hdfc & Hout).
  apply bind_Some in Hout as (pmc & Hpmc & Hout).
  apply bind_Some in Hout as (M & HM & Hout).
  apply bind_Some in Hout as (std & Hstd & Hout).
  apply clean_text_frame in Hdfc as (Hdf & Hlc & Hlr).
  apply (clean_text_frame pm master_columns) in Hpmc as (Hpm & Hrc & Hrr).
  apply Forall_cons in Hdf as [Hpc _].
  apply Forall_cons in Hpm as [Hraw [Hstdc _]%Forall_cons].
  apply merge_left_spec in HM as (_ & _ & Hnd & HcolsM & HrowsM).
  rewrite Hlc, Hrc in Hnd, HcolsM.
  unfold drop_column in Hout. cbn [columns boolean_index] in Hout.
  destruct (decide ("product_code_raw" ∈ columns M)) as [HrawM|]; [|done].
  injection Hout as <-. cbn [columns rows]. rewrite HcolsM. split; [done|].
  assert ("product_code_std" ∈ columns M) as HstdM
    by (by apply getitem_Some in Hstd as [? _]).
  rewrite HcolsM in HstdM.
  destruct (merged_label _ _ _ suffix_x_std suffix_y_std (proj1 Hstdc) HstdM)
    as (_ & HstdL & HstdR).
  apply NoDup_app in Hnd as (_ & _ & HndR).
  rewrite (getitem_cellof _ _ _ Hstd), <-list_fmap_compose, mask_filter_fmap.
  rewrite HrowsM, filter_bind, fmap_bind, Hlr, list_fmap_bind.
  apply bind_ext_Forall, Forall_forall. intros r Hr. cbn [compose].
  rewrite filter_merge_rows; rewrite ?Hlc, ?Hrc.
  - rewrite Hrr, filter_fmap, <-!list_fmap_compose.
    rewrite (filter_ext_Forall _ (code_match r)); [done|].
    apply Forall_forall. intros m Hm.
    destruct Hpc as [_ Hpc]. rewrite Forall_forall in Hpc.
    destruct (Hpc r Hr) as [a Ha].
    destruct Hraw as [_ Hraw]. rewrite Forall_forall in Hraw.
    destruct (Hraw m Hm) as [b Hb].
    rewrite (cellof_cleaned _ _ _ a NoDup_code_column) by (done || by left).
    rewrite (cellof_cleaned _ _ _ b NoDup_master_columns) by (done || by left).
    unfold code_match. by rewrite Ha, Hb.
  - by apply lookup_relabel_None.
  - rewrite <-HstdR. apply list_elem_of_fmap_2, Hstdc.
  - rewrite Hrr. apply Forall_fmap, Forall_forall. intros m Hm. cbn [compose].
    destruct Hstdc as [Hin Hall]. rewrite Forall_forall in Hall.
    destruct (Hall m Hm) as [v Hv].
    pose proof (lookup_relabel (suffix_y (columns df)) (columns pm)
                  (map_cells clean_cell master_columns m) "product_code_std"
                  HndR Hin) as Hlk.
    rewrite HstdR in Hlk. rewrite Hlk.
    rewrite lookup_map_cells_NoDup by apply NoDup_master_columns.
    rewrite decide_True by (by right; left).
    rewrite Hv. by eexists.
Qed.

Lemma filter_none {A} (p : A → bool) l :
  Forall (λ x, p x = false) l → List.filter p l = [].
Proof. induction 1 as [|x l Hx _ IH]; simpl; [done|]. by rewrite Hx. Qed.

Lemma string_compare_refl s : String.compare s s = Eq.
Proof.
  pose proof (String.compare_antisym s s) as Hs.
  by destruct (String.compare s s).
Qed.

Lemma key_eqb_Str s t : key_eqb (Str s) (Str t) = true ↔ s = t.
Proof.
  unfold key_eqb; simpl. split.
  - destruct (String.compare s t) eqn:Hc; try done.
    intros _. by apply String.compare_eq_iff.
  - intros ->. by rewrite string_compare_refl.
Qed.

Lemma code_match_true `{Pandas} (r m : row) :
  code_match r m = true ↔
  ∃ a b s, r !! "product_code" = Some a ∧ m !! "product_code_raw" = Some b
           ∧ clean_cell a = Str s ∧ clean_cell b = Str s.
Proof.
  unfold code_match. split.
  - destruct (r !! "product_code") as [a|]; [|done].
    destruct (m !! "product_code_raw") as [b|]; [|done].
    unfold clean_cell. intros Heq%key_eqb_Str.
    eexists a, b, _. split_and!; [done..|]. by rewrite Heq.
  - intros (a & b & s & -> & -> & -> & ->). by apply key_eqb_Str.
Qed.

Lemma mapped_rows_elem `{Pandas} df pm (r o : row) :
  o ∈ mapped_rows df pm r ↔
  ∃ m, m ∈ rows pm ∧ code_match r m = true
       ∧ o = mapped_row (columns df) (columns pm) r m.
Proof.
  unfold mapped_rows. rewrite list_elem_of_fmap. split.
  - intros (m & -> & Hm). apply list_elem_of_In, filter_In in Hm as [Hm Hc].
    exists m. by rewrite list_elem_of_In.
  - intros (m & Hm & Hc & ->). exists m. split; [done|].
    apply list_elem_of_In, filter_In. by rewrite <-list_elem_of_In.
Qed.

(** X12. The output of the mapping has no column product_code_raw, and
    its rows are, for each operational row in turn, one row per master row
    whose cleaned product_code_raw is the cleaned product_code of the
    operational row: every output row comes from such a pair, and an
    operational row whose cleaned code is the cleaned raw code of no master
    row contributes no row at all. *)
Theorem unmatched_codes_are_dropped `{Pandas} df pm out :
  map_product_master df pm = Some out →
  ("product_code_raw" ∉ columns out)
  ∧ Forall (λ o : row, o !! "product_code_raw" = None) (rows out)
  ∧ rows out = rows df ≫= mapped_rows df pm
  ∧ (∀ o, o ∈ rows out →
          ∃ r m, r ∈ rows df ∧ m ∈ rows pm ∧ code_match r m = true
                 ∧ o = mapped_row (columns df) (columns pm) r m)
  ∧ (∀ r, Forall (λ m, code_match r m = false) (rows pm) →
          mapped_rows df pm r = [])
  ∧ (∀ r m : row, code_match r m = true ↔
       ∃ a b s, r !! "product_code" = Some a ∧ m !! "product_code_raw" = Some b
                ∧ clean_cell a = Str s ∧ clean_cell b = Str s).
Proof.
  intros [Hcols Hrows]%map_product_master_spec.
  assert (∀ o, o ∈ rows out →
               ∃ r m, r ∈ rows df ∧ m ∈ rows pm ∧ code_match r m = true
                      ∧ o = mapped_row (columns df) (columns pm) r m) as Hfrom.
  { intros o. rewrite Hrows, list_elem_of_bind.
    intros (r & (m & Hm & Hc & ->)%mapped_rows_elem & Hr). by exists r, m. }
  split_and!.
  - rewrite Hcols. intros [Hne _]%list_elem_of_filter. by apply Hne.
  - apply Forall_forall. intros o (r & m & _ & _ & _ & ->)%Hfrom.
    apply lookup_delete_eq.
  - done.
  - done.
  - intros r Hr. unfold mapped_rows. by rewrite filter_none.
  - apply code_match_true.
Qed.

Lemma unmatched_codes_are_dropped_witness :
  ∃ out, @map_product_master iso_pandas operations_example master_example = Some out
         ∧ ("product_code_raw" ∉ columns out)
         ∧ length (rows out) = 2%nat.
Proof.
  assert (is_Some (@map_product_master iso_pandas operations_example master_example)) as [out Hout]
    by (vm_compute; eexists; reflexivity).
  exists out. split; [exact Hout|].
  destruct (@unmatched_codes_are_dropped iso_pandas _ _ _ Hout)
    as (Hraw & _ & Hrows & _).
  split; [done|]. rewrite Hrows. by vm_compute.
Defined.

(** ** Keys and groups *)

Lemma float_key_compare_refl x : float_key_compare x x = Eq.
Proof.
  unfold float_key_compare. rewrite FloatAxioms.compare_spec, SFcompare_key.
  fold (float_key x). destruct (float_key x) as [a|] eqn:Ha; simpl.
  - destruct (lex_compare_spec a a) as [_|Hl|Hl]; [done|..];
      by apply lex_lt_irrefl in Hl.
  - apply float_is_nan_key_None in Ha. by rewrite Ha.
Qed.

Lemma timestamp_compare_refl t : timestamp_compare t t = Eq.
Proof. unfold timestamp_compare. by rewrite !Z.compare_refl. Qed.

Lemma cell_compare_refl v : cell_compare v v = Eq.
Proof.
  destruct v as [x|s|[t|]]; simpl.
  - apply float_key_compare_refl.
  - apply string_compare_refl.
  - apply timestamp_compare_refl.
  - done.
Qed.

Lemma keys_compare_refl k : keys_compare k k = Eq.
Proof. induction k as [|v k IH]; simpl; [done|]. by rewrite cell_compare_refl. Qed.



Lemma insert_group_keys (P : list cell → Prop) k r gs :
  P k → Forall (λ g : group, P g.1) gs →
  Forall (λ g : group, P g.1) (insert_group k r gs).
Proof.
  intros Hk. induction 1 as [|g gs Hg Hgs IH]; simpl.
  - by repeat constructor.
  - destruct (keys_compare k g.1); by repeat constructor.
Qed.

Lemma foldl_groups_keys (P : list cell → Prop) l gs :
  Forall (λ g : group, P g.1) gs →
  Forall (λ p : list cell * row, forallb notna p.1 = true → P p.1) l →
  Forall (λ g : group, P g.1) (foldl group_step gs l).
Proof.
  intros Hgs Hl. revert gs Hgs. induction Hl as [|p l Hp _ IH]; intros gs Hgs; [done|].
  simpl. apply IH. unfold group_step.
  destruct (forallb notna p.1) eqn:Hn; [|done]. by apply insert_group_keys; auto.
Qed.

Lemma insert_group_has k r gs : in_group k r (insert_group k r gs).
Proof.
  unfold in_group. induction gs as [|g gs IH]; simpl.
  - apply Exists_cons_hd. split; [apply keys_compare_refl|by left].
  - destruct (keys_compare k g.1) eqn:Hk.
    + apply Exists_cons_hd. split; [done|]. simpl. apply elem_of_app. right. by left.
    + apply Exists_cons_hd. split; [apply keys_compare_refl|by left].
    + by apply Exists_cons_tl.
Qed.

Lemma insert_group_keeps k r gs k0 r0 :
  in_group k0 r0 gs → in_group k0 r0 (insert_group k r gs).
Proof.
  unfold in_group. induction 1 as [g gs [Hk0 Hr0]|g gs Hgs IH]; simpl.
  - destruct (keys_compare k g.1).
    + apply Exists_cons_hd. split; [done|]. simpl. apply elem_of_app. by left.
    + apply Exists_cons_tl, Exists_cons_hd. done.
    + apply Exists_cons_hd. done.
  - destruct (keys_compare k g.1).
    + by apply Exists_cons_tl.
    + by do 2 apply Exists_cons_tl.
    + by apply Exists_cons_tl.
Qed.

Lemma foldl_groups_keeps l gs k0 r0 :
  in_group k0 r0 gs → in_group k0 r0 (foldl group_step gs l).
Proof.
  revert gs. induction l as [|p l IH]; intros gs Hin; [done|].
  simpl. apply IH. unfold group_step.
  destruct (forallb notna p.1); [|done]. by apply insert_group_keeps.
Qed.

Lemma foldl_groups_has l gs k r :
  (k, r) ∈ l → forallb notna k = true → in_group k r (foldl group_step gs l).
Proof.
  intros Hin Hk. revert gs.
  induction l as [|p l IH]; intros gs; [by apply elem_of_nil in Hin|].
  simpl. apply elem_of_cons in Hin as [<-|Hin].
  - apply foldl_groups_keeps. unfold group_step. simpl. rewrite Hk.
    apply insert_group_has.
  - by apply IH.
Qed.

Lemma groupby_spec df keys gs :
  groupby df keys = Some gs →
  ∃ ks, mapM (group_key keys) (rows df) = Some ks
        ∧ gs = foldl group_step [] (zip ks (rows df)).
Proof.
  unfold groupby. destruct (has_columns df keys); [|done].
  intros (ks & Hks & [= <-])%bind_Some. by exists ks.
Qed.

(** ** Task 5: month and aggregation *)







Lemma group_key_length keys (r : row) k :
  group_key keys r = Some k → length k = length keys.
Proof. intros Hk. symmetry. by eapply length_mapM. Qed.








(** An example: the second row of the frame has a date that does not
    parse; its month is the text NaT, not a missing value, and the
    aggregation has a group for it, with the month NaT and the 50 units of
    that row. *)
Lemma unparsed_date_is_aggregated :
  (d ← @add_month iso_pandas bad_date_frame "production_date";
   r ← rows d !! 1%nat;
   Some (r !! "production_date", r !! "month"))
  = Some (Some (Dt None), Some (Str "NaT"))
  ∧ isna (Str "NaT") = false
  ∧ (d ← @add_month iso_pandas bad_date_frame "production_date";
     out ← @aggregate_production iso_pandas d;
     o ← rows out !! 1%nat;
     Some (o !! "month", o !! "units_produced"))
    = Some (Some (Str "NaT"), Some (Num 50)).
Proof. split_and!; by vm_compute. Qed.

(** ** Dense ranks *)

Lemma distinct_cons x l :
  distinct (x :: l)
  = if existsb (PrimFloat.eqb x) (distinct l) then distinct l else x :: distinct l.
Proof. done. Qed.

Lemma existsb_eqb_trans x a l :
  (x =? a)%float = true → existsb (PrimFloat.eqb a) l = true →
  existsb (PrimFloat.eqb x) l = true.
Proof.
  intros Hxa. rewrite !existsb_exists. intros (b & Hb & Hab).
  exists b. split; [done|]. by eapply float_eqb_trans.
Qed.

Lemma existsb_distinct x l :
  existsb (PrimFloat.eqb x) (distinct l) = existsb (PrimFloat.eqb x) l.
Proof.
  revert x. induction l as [|a l IH]; intros x; [done|].
  rewrite distinct_cons. destruct (existsb (PrimFloat.eqb a) (distinct l)) eqn:Ha.
  - rewrite IH in Ha. rewrite IH. simpl.
    destruct (x =? a)%float eqn:Hxa; [|done]. simpl.
    by apply (existsb_eqb_trans x a).
  - simpl. by rewrite IH.
Qed.

Lemma length_distinct_cons x l :
  length (distinct (x :: l))
  = (length (distinct l) + if existsb (PrimFloat.eqb x) l then 0 else 1)%nat.
Proof.
  rewrite distinct_cons, existsb_distinct.
  destruct (existsb (PrimFloat.eqb x) l); simpl; lia.
Qed.

Lemma distinct_nil_inv l : distinct l = [] → l = [].
Proof.
  destruct l as [|x l]; [done|]. intros Hd.
  pose proof (length_distinct_cons x l) as Hlen. rewrite Hd in Hlen. simpl in Hlen.
  destruct (existsb (PrimFloat.eqb x) l) eqn:Hx; [|lia].
  rewrite <-existsb_distinct in Hx.
  destruct (distinct l) eqn:Hl; [done|]. simpl in Hlen. lia.
Qed.

Lemma existsb_filter_resp (P : float → bool) a l :
  (∀ b, (a =? b)%float = true → P b = true) →
  existsb (PrimFloat.eqb a) (List.filter P l) = existsb (PrimFloat.eqb a) l.
Proof.
  intros HP. induction l as [|b l IH]; [done|]. simpl.
  destruct (P b) eqn:Hb; simpl; rewrite IH; [done|].
  destruct (a =? b)%float eqn:Hab; [|done]. apply HP in Hab. congruence.
Qed.

(** The distinct values of a list split along any property of the
    values. *)
Lemma length_distinct_split (P : float → bool) l :
  (∀ y z, (y =? z)%float = true → P y = P z) →
  length (distinct l)
  = (length (distinct (List.filter P l))
     + length (distinct (List.filter (λ y, negb (P y)) l)))%nat.
Proof.
  intros HP. induction l as [|a l IH]; [done|].
  rewrite length_distinct_cons, IH. cbn [List.filter].
  destruct (P a) eqn:Ha; cbn [negb]; rewrite length_distinct_cons.
  - rewrite existsb_filter_resp; [lia|].
    intros b Hab. by rewrite <-(HP a b).
  - rewrite existsb_filter_resp; [lia|].
    intros b Hab. by rewrite <-(HP a b), Ha.
Qed.

Lemma length_distinct_one y l :
  l ≠ [] → Forall (λ z, (y =? z)%float = true) l → length (distinct l) = 1%nat.
Proof.
  intros Hne Hall. induction Hall as [|a l Ha Hall IH]; [done|].
  rewrite length_distinct_cons. destruct l as [|b l]; [done|].
  rewrite IH by done.
  assert (existsb (PrimFloat.eqb a) (b :: l) = true) as ->; [|done].
  apply existsb_exists. exists b. split; [by left|].
  apply Forall_cons in Hall as [Hb _].
  eapply float_eqb_trans; [|exact Hb]. by rewrite float_eqb_sym.
Qed.

Lemma filter_filter_impl {A} (p q : A → bool) l :
  (∀ x, p x = true → q x = true) →
  List.filter p (List.filter q l) = List.filter p l.
Proof.
  intros Hpq. induction l as [|x l IH]; [done|]. simpl.
  destruct (q x) eqn:Hq; simpl; rewrite IH; [done|].
  destruct (p x) eqn:Hp; [|done]. apply Hpq in Hp. congruence.
Qed.

Lemma above_above x y l :
  (x <? y)%float = true → above y (above x l) = above y l.
Proof.
  intros Hxy. apply filter_filter_impl. intros z Hyz. by eapply float_ltb_trans.
Qed.

(** A list that is not empty has a least value. *)
Lemma least_exists l :
  l ≠ [] → ∃ y, y ∈ l ∧ Forall (λ z, (z <? y)%float = false) l.
Proof.
  induction l as [|a l IH]; [done|]. intros _.
  destruct l as [|b l].
  - exists a. split; [by left|]. constructor; [apply float_ltb_irrefl|constructor].
  - destruct IH as (y & Hy & Hmin); [done|].
    destruct (a <? y)%float eqn:Hay.
    + exists a. split; [by left|]. constructor; [apply float_ltb_irrefl|].
      eapply Forall_impl; [exact Hmin|]. intros z Hz. simpl in Hz.
      apply not_true_iff_false. intros Hza.
      by rewrite (float_ltb_trans _ _ _ Hza Hay) in Hz.
    + exists y. split; [by right|]. by constructor.
Qed.

Lemma elem_of_above x y l : y ∈ above x l ↔ y ∈ l ∧ (x <? y)%float = true.
Proof. unfold above. by rewrite !list_elem_of_In, filter_In. Qed.

(** Rank 1 is the highest value. *)
Lemma dense_rank_one xs x :
  dense_rank_desc xs x = 1%nat ↔ Forall (λ y, (x <? y)%float = false) xs.
Proof.
  unfold dense_rank_desc. fold (above x xs). split.
  - intros [= Hlen]. apply nil_length_inv, distinct_nil_inv in Hlen.
    apply Forall_forall. intros y Hy. apply not_true_iff_false. intros Hxy.
    assert (y ∈ above x xs) as Hin by by apply elem_of_above.
    rewrite Hlen in Hin. by apply elem_of_nil in Hin.
  - intros Hall. unfold above. by rewrite filter_none.
Qed.

(** Equal values share a rank. *)
Lemma dense_rank_tie xs x y :
  (x =? y)%float = true → dense_rank_desc xs x = dense_rank_desc xs y.
Proof.
  intros Hxy. unfold dense_rank_desc. do 3 f_equal.
  apply filter_ext_Forall, Forall_forall. intros z _.
  by apply float_ltb_eqb_l.
Qed.

(** The values above [x] are those above a value [y] over [x], and those
    between. *)
Lemma above_split xs x y :
  (x <? y)%float = true →
  length (distinct (above x xs))
  = (length (distinct (above y xs))
     + length (distinct (List.filter (λ z, negb (y <? z)%float) (above x xs))))%nat.
Proof.
  intros Hxy.
  rewrite (length_distinct_split (λ z, (y <? z)%float) (above x xs))
    by (intros z1 z2; apply float_ltb_eqb_r).
  fold (above y (above x xs)). by rewrite above_above.
Qed.

(** A higher value has a lower rank. *)
Lemma dense_rank_descending xs x y :
  y ∈ xs → (x <? y)%float = true →
  (dense_rank_desc xs y < dense_rank_desc xs x)%nat.
Proof.
  intros Hy Hxy. unfold dense_rank_desc. fold (above x xs) (above y xs).
  rewrite (above_split xs x y Hxy).
  assert (y ∈ List.filter (λ z, negb (y <? z)%float) (above x xs)) as Hin.
  { apply list_elem_of_In, filter_In. split.
    - by apply list_elem_of_In, elem_of_above.
    - by rewrite float_ltb_irrefl. }
  destruct (distinct (List.filter _ (above x xs))) eqn:Hd; [|simpl; lia].
  apply distinct_nil_inv in Hd. rewrite Hd in Hin. by apply elem_of_nil in Hin.
Qed.

(** Below every rank but the first there is a value with the rank just
    before it: the ranks have no gaps. *)
Lemma dense_rank_no_gap xs x n :
  dense_rank_desc xs x = S (S n) →
  ∃ y, y ∈ xs ∧ (x <? y)%float = true ∧ dense_rank_desc xs y = S n.
Proof.
  unfold dense_rank_desc. fold (above x xs). intros [= Hlen].
  destruct (least_exists (above x xs)) as (y & Hy & Hmin).
  { intros Hnil. by rewrite Hnil in Hlen. }
  apply elem_of_above in Hy as [Hy Hxy].
  exists y. split; [done|]. split; [done|].
  change (S (length (distinct (above y xs))) = S n).
  rewrite (above_split xs x y Hxy) in Hlen.
  rewrite (length_distinct_one y
             (List.filter (λ z, negb (y <? z)%float) (above x xs))) in Hlen;
    [lia| |].
  - intros Hnil.
    assert (y ∈ List.filter (λ z, negb (y <? z)%float) (above x xs)) as Hin.
    { apply list_elem_of_In, filter_In. split.
      - by apply list_elem_of_In, elem_of_above.
      - by rewrite float_ltb_irrefl. }
    rewrite Hnil in Hin. by apply elem_of_nil in Hin.
  - apply Forall_forall. intros z Hz.
    apply list_elem_of_In, filter_In in Hz as [Hz Hyz].
    apply negb_true_iff in Hyz.
    rewrite Forall_forall in Hmin.
    pose proof (Hmin z (proj2 (list_elem_of_In _ _) Hz)) as Hzy. simpl in Hzy.
    apply list_elem_of_In, elem_of_above in Hz as [_ Hxz].
    destruct (float_ltb_not_nan _ _ Hxy) as [_ Hny].
    destruct (float_ltb_not_nan _ _ Hxz) as [_ Hnz].
    destruct (float_trichotomy y z Hny Hnz) as [?|[?|?]]; congruence.
Qed.

(** Values of the same rank are equal. *)
Lemma dense_rank_inj xs x y :
  x ∈ xs → y ∈ xs → PrimFloat.is_nan x = false → PrimFloat.is_nan y = false →
  dense_rank_desc xs x = dense_rank_desc xs y → (x =? y)%float = true.
Proof.
  intros Hx Hy Hnx Hny Hr.
  destruct (float_trichotomy x y Hnx Hny) as [Hlt|[?|Hlt]]; [|done|].
  - pose proof (dense_rank_descending xs x y Hy Hlt). lia.
  - pose proof (dense_rank_descending xs y x Hx Hlt). lia.
Qed.

(** * Further properties of the stages *)

(** ** Risk scoring: levels, errors, repetition *)

Lemma float_leb_ltb_eqb x y :
  (x <=? y)%float = ((x <? y)%float || (x =? y)%float).
Proof.
  apply eq_true_iff_eq. rewrite orb_true_iff, float_leb_key, float_ltb_key, float_eqb_key.
  split.
  - intros (a & b & Ha & Hb & [Hl| ->]); [left; by exists a, b|right; by exists b].
  - intros [(a & b & Ha & Hb & Hl)|(a & Ha & Hb)].
    + exists a, b. auto.
    + exists a, a. auto.
Qed.

Lemma float_positive_or_zero x :
  (0 <=? x)%float = true → (0 <? x)%float = negb (x =? 0)%float.
Proof.
  intros Hle. rewrite float_leb_ltb_eqb in Hle. rewrite (float_eqb_sym x).
  destruct (0 <? x)%float eqn:Hlt.
  - by rewrite (float_ltb_eqb_false _ _ Hlt).
  - simpl in Hle. by rewrite Hle.
Qed.

(** The level of a clipped score. *)
Lemma cut_clipped x :
  cut risk_bins risk_labels (clip 0 100 x)
  = if PrimFloat.is_nan x then Num nan
    else if (clip 0 100 x =? 0)%float then Num nan
    else if (clip 0 100 x <=? 30)%float then Str "LOW"
    else if (clip 0 100 x <=? 60)%float then Str "MEDIUM"
    else Str "HIGH".
Proof.
  rewrite cut_risk_bins, clip_is_nan.
  destruct (PrimFloat.is_nan x) eqn:Hx; [done|].
  destruct (clip_bounds x Hx) as [Hlo Hhi].
  rewrite (float_positive_or_zero _ Hlo), Hhi.
  by destruct (clip 0 100 x =? 0)%float.
Qed.

(** X1. In the output of [risk_scoring] a row has no risk_level exactly
    when its risk_score is 0 or NaN; every other row is LOW when the score
    is at most 30, MEDIUM when it is above 30 and at most 60, and HIGH
    above 60 (the clip keeps the score from exceeding the last edge). *)
Theorem risk_level_of_clipped_score df out :
  risk_scoring df = Some out →
  Forall (λ o : row,
            ∃ x, o !! "risk_score" = Some (Num x)
                 ∧ o !! "risk_level"
                   = Some (if PrimFloat.is_nan x || (x =? 0)%float then Num nan
                           else if (x <=? 30)%float then Str "LOW"
                           else if (x <=? 60)%float then Str "MEDIUM"
                           else Str "HIGH"))
         (rows out).
Proof.
  intros ->%risk_scoring_rows. apply Forall_fmap, Forall_forall. intros r _.
  exists (risk_score r). split; [apply scored_row_score|].
  rewrite scored_row_level. unfold risk_level, risk_score. f_equal.
  rewrite cut_clipped, clip_is_nan.
  by destruct (PrimFloat.is_nan (raw_score r)).
Qed.

Lemma risk_level_of_clipped_score_witness :
  ∃ out, risk_scoring scored_example = Some out
         ∧ Forall (λ o : row, ∃ x, o !! "risk_score" = Some (Num x)) (rows out).
Proof.
  assert (is_Some (risk_scoring scored_example)) as [out Hout]
    by (vm_compute; eexists; reflexivity).
  exists out. split; [exact Hout|].
  eapply Forall_impl; [exact (risk_level_of_clipped_score _ _ Hout)|].
  intros o (x & Hx & _). by exists x.
Defined.

Lemma with_column_elem cols c c' :
  c' ≠ c → c' ∈ with_column cols c ↔ c' ∈ cols.
Proof.
  intros Hne. unfold with_column. destruct (decide (c ∈ cols)); [done|].
  rewrite elem_of_app, list_elem_of_singleton. tauto.
Qed.

Lemma with_column_id cols c : c ∈ cols → with_column cols c = cols.
Proof. intros Hc. unfold with_column. by rewrite decide_True. Qed.

Lemma kpi_scored_row c r :
  c ≠ "risk_score" → c ≠ "risk_level" → kpi c (scored_row r) = kpi c r.
Proof. intros. unfold kpi. by rewrite scored_row_other. Qed.

Lemma raw_score_scored_row r : raw_score (scored_row r) = raw_score r.
Proof. unfold raw_score. by rewrite !kpi_scored_row. Qed.

Lemma scored_row_idemp r : scored_row (scored_row r) = scored_row r.
Proof.
  unfold scored_row at 1. unfold risk_level, risk_score.
  rewrite raw_score_scored_row. fold (risk_score r). fold (risk_level r).
  apply map_eq. intros k. unfold scored_row.
  rewrite !lookup_insert.
  destruct (decide ("risk_level" = k)); [done|].
  by destruct (decide ("risk_score" = k)).
Qed.

Lemma scorableb_scored df c :
  c ≠ "risk_score" → c ≠ "risk_level" →
  scorableb {| columns := with_column (with_column (columns df) "risk_score")
                            "risk_level";
               rows := scored_row <$> rows df |} c
  = scorableb df c.
Proof.
  intros Hs Hl. unfold scorableb; simpl. f_equal.
  - apply bool_decide_ext. by rewrite !with_column_elem.
  - induction (rows df) as [|r rs IH]; [done|]. csimpl. rewrite IH. f_equal.
    unfold scorable_cell. by rewrite scored_row_other.
Qed.

(** X2. Scoring a scored frame changes nothing: the scores and levels
    are computed from the KPI columns alone, which scoring leaves as they
    are, so the second pass assigns the same two columns again. *)
Theorem risk_scoring_idempotent df :
  risk_scoring df ≫= risk_scoring = risk_scoring df.
Proof.
  rewrite (risk_scoring_spec df).
  destruct (scorableb df "production_efficiency" && scorableb df "defect_rate"
            && scorableb df "downtime_per_unit") eqn:Hok; [|done].
  simpl. rewrite risk_scoring_spec, !scorableb_scored, Hok by done.
  simpl. f_equal. f_equal.
  - rewrite (with_column_id _ "risk_score").
    + apply with_column_id, elem_of_with_column.
    + apply with_column_elem; [done|apply elem_of_with_column].
  - rewrite <-list_fmap_compose. apply list_fmap_ext. intros _ r _. simpl.
    apply scored_row_idemp.
Qed.

(** X3. [risk_scoring] raises exactly when one of the three KPI columns
    is missing or holds a value that is neither a number nor a missing
    value.  Otherwise it keeps the rows in their order: the output has as
    many rows as the input, and its row at each position is the input row
    at that position but for the cells risk_score and risk_level.  It
    keeps the labels of the frame in their order, and adds risk_score and
    risk_level at the end when they are new. *)
Theorem risk_scoring_raises_or_scores df :
  (is_Some (risk_scoring df) ↔
   scorableb df "production_efficiency" = true
   ∧ scorableb df "defect_rate" = true
   ∧ scorableb df "downtime_per_unit" = true)
  ∧ (∀ out, risk_scoring df = Some out →
            length (rows out) = length (rows df)
            ∧ Forall2 (λ (r o : row),
                         ∀ c, c ≠ "risk_score" → c ≠ "risk_level" →
                              o !! c = r !! c)
                      (rows df) (rows out)
            ∧ (∀ i (r o : row),
                 rows df !! i = Some r → rows out !! i = Some o →
                 ∀ c, c ≠ "risk_score" → c ≠ "risk_level" → o !! c = r !! c)
            ∧ columns out
              = with_column (with_column (columns df) "risk_score") "risk_level"
            ∧ columns df ⊆ columns out
            ∧ "risk_score" ∈ columns out ∧ "risk_level" ∈ columns out
            ∧ (∀ c, c ∈ columns out →
                    c ∈ columns df ∨ c = "risk_score" ∨ c = "risk_level")).
Proof.
  rewrite risk_scoring_spec. split.
  - rewrite <-!andb_true_iff, andb_assoc.
    destruct (_ && _ && _).
    + split; [done|]. intros _. by eexists.
    + split; [by intros [? [=]]|done].
  - intros out. destruct (_ && _); [|done]. intros [= <-]. simpl.
    assert (Forall2 (λ (r o : row),
                       ∀ c, c ≠ "risk_score" → c ≠ "risk_level" → o !! c = r !! c)
                    (rows df) (scored_row <$> rows df)) as Hrows.
    { apply Forall2_fmap_diag. intros r c ? ?. by apply scored_row_other. }
    split_and!.
    + by rewrite length_fmap.
    + done.
    + intros i r o Hr Ho. by apply (Forall2_lookup_lr _ _ _ _ _ _ Hrows Hr Ho).
    + done.
    + intros c Hc. destruct (decide (c = "risk_level")) as [->|Hl];
        [apply elem_of_with_column|].
      apply with_column_elem; [done|].
      destruct (decide (c = "risk_score")) as [->|Hs];
        [apply elem_of_with_column|].
      by apply with_column_elem.
    + apply with_column_elem; [done|apply elem_of_with_column].
    + apply elem_of_with_column.
    + intros c Hc.
      destruct (decide (c = "risk_level")) as [->|Hl]; [auto|].
      destruct (decide (c = "risk_score")) as [->|Hs]; [auto|].
      left. by rewrite !with_column_elem in Hc.
Qed.

Lemma risk_scoring_raises_or_scores_witness :
  ∃ out, risk_scoring scored_example = Some out
         ∧ length (rows out) = length (rows scored_example)
         ∧ Forall2 (λ (r o : row),
                      ∀ c, c ≠ "risk_score" → c ≠ "risk_level" → o !! c = r !! c)
                   (rows scored_example) (rows out).
Proof.
  assert (is_Some (risk_scoring scored_example)) as [out Hout]
    by (vm_compute; eexists; reflexivity).
  exists out. split; [exact Hout|].
  destruct (risk_scoring_raises_or_scores scored_example) as [_ Hframe].
  by destruct (Hframe out Hout) as (Hlen & Hrows & _).
Defined.

(** ** Validation: repetition and order *)

Lemma numericb_filter df c (p : row → bool) :
  numericb df c = true →
  numericb {| columns := columns df; rows := List.filter p (rows df) |} c = true.
Proof.
  unfold numericb; simpl. intros [Hc Hall]%andb_prop. rewrite Hc. simpl.
  rewrite forallb_forall in Hall. apply forallb_forall. intros r Hr.
  apply filter_In in Hr as [Hr _]. by apply Hall.
Qed.

Lemma filter_idemp {A} (p : A → bool) l :
  List.filter p (List.filter p l) = List.filter p l.
Proof. by apply filter_filter_impl. Qed.

Lemma filter_sublist {A} (p : A → bool) l : List.filter p l `sublist_of` l.
Proof.
  induction l as [|x l IH]; simpl; [constructor|].
  destruct (p x); by constructor.
Qed.

(** X4. Validating a validated frame changes nothing, for both
    validators; and a validated frame has the labels of its input and a
    sublist of its rows, in their order. *)
Theorem validators_idempotent df :
  validate_production df ≫= validate_production = validate_production df
  ∧ validate_quality df ≫= validate_quality = validate_quality df
  ∧ from_option (λ out, columns out = columns df ∧ rows out `sublist_of` rows df)
      True (validate_production df)
  ∧ from_option (λ out, columns out = columns df ∧ rows out `sublist_of` rows df)
      True (validate_quality df).
Proof.
  rewrite (validate_production_spec df), (validate_quality_spec df). split_and!.
  - destruct (numericb df "units_produced") eqn:Hu; [|done].
    destruct (numericb df "planned_units") eqn:Hp; [|done]. simpl.
    rewrite validate_production_spec, !numericb_filter by done. simpl.
    by rewrite filter_idemp.
  - destruct (numericb df "units_inspected") eqn:Hi; [|done].
    destruct (numericb df "defect_units") eqn:Hd; [|done]. simpl.
    rewrite validate_quality_spec, !numericb_filter by done. simpl.
    by rewrite filter_idemp.
  - destruct (_ && _); simpl; [|done]. split; [done|apply filter_sublist].
  - destruct (_ && _); simpl; [|done]. split; [done|apply filter_sublist].
Qed.

(** ** Task 6: the KPIs *)

Lemma fnum_insert_ne c c' v (r : row) : c ≠ c' → fnum c (<[c':=v]> r) = fnum c r.
Proof. intros Hne. unfold fnum. by rewrite lookup_insert_ne. Qed.

Lemma fnum_insert_eq c x (r : row) : fnum c (<[c:=Num x]> r) = x.
Proof. unfold fnum. by rewrite lookup_insert_eq. Qed.

(** One derived column: the quotient of two numeric columns. *)
Lemma div_step df a b c u p e d :
  getitem df a = Some u → getitem df b = Some p →
  series_div u p = Some e → setitem df c e = Some d →
  numericb df a = true ∧ numericb df b = true
  ∧ columns d = with_column (columns df) c
  ∧ rows d = (λ r, <[c:=Num (fnum a r / fnum b r)%float]> r) <$> rows df.
Proof.
  intros Hu Hp He Hd. unfold series_div in He.
  rewrite decide_True in He
    by (by rewrite (getitem_length _ _ _ Hu), (getitem_length _ _ _ Hp)).
  rewrite mapM_as_num_zip in He
    by (by rewrite (getitem_length _ _ _ Hu), (getitem_length _ _ _ Hp)).
  rewrite (getitem_floats _ _ _ Hu), (getitem_floats _ _ _ Hp) in He.
  destruct (numericb df a); [|done]. destruct (numericb df b); [|done].
  simpl in He. injection He as <-. rewrite zip_with_fmap_same in Hd.
  rewrite setitem_fmap in Hd. injection Hd as <-. done.
Qed.

Lemma mapM_Some_default {A B} (f : A → option B) (d : B) l k :
  mapM f l = Some k → k = (λ x, default d (f x)) <$> l.
Proof.
  intros Hk%mapM_Some. induction Hk as [|x y l k Hxy _ IH]; csimpl; [done|].
  by rewrite Hxy, IH.
Qed.

Lemma zip_fmap_same {A B C} (f : A → B) (g : A → C) (l : list A) :
  zip (f <$> l) (g <$> l) = (λ x, (f x, g x)) <$> l.
Proof. apply zip_with_fmap_same. Qed.

(** The ranks that [groupby(...).rank] gives the rows of a frame. *)
Lemma groupby_rank_spec df rk :
  groupby_rank_dense_desc df rank_keys "production_efficiency" = Some rk →
  rk = rank_cell (rows df) <$> rows df.
Proof.
  unfold groupby_rank_dense_desc. destruct (has_columns df rank_keys); [|done].
  intros (ks & Hks & Hrk)%bind_Some.
  apply bind_Some in Hrk as (vs & Hvs & Hrk).
  apply bind_Some in Hrk as (xs & Hxs & [= <-]).
  apply (mapM_Some_default _ []) in Hks.
  rewrite (getitem_floats _ _ _ Hvs) in Hxs.
  destruct (numericb df "production_efficiency"); [|done]. injection Hxs as <-.
  fold rank_key in Hks. fold efficiency. rewrite Hks, zip_fmap_same.
  rewrite <-list_fmap_compose. apply list_fmap_ext. intros _ r _. simpl.
  unfold rank_cell, ranked, rank_of, group_values, efficiency.
  destruct (forallb notna (rank_key r)
            && negb (PrimFloat.is_nan (fnum "production_efficiency" r)));
    [|done].
  do 3 f_equal. rewrite filter_fmap, <-list_fmap_compose. done.
Qed.

Lemma kpi_row_other c (r : row) :
  c ≠ "production_efficiency" → c ≠ "defect_rate" → c ≠ "downtime_per_unit" →
  kpi_row r !! c = r !! c.
Proof. intros. unfold kpi_row. by rewrite !lookup_insert_ne. Qed.

Lemma calculate_kpis_spec df out :
  calculate_kpis df = Some out →
  columns out
  = with_column (with_column (with_column (with_column (columns df)
      "production_efficiency") "defect_rate") "downtime_per_unit")
      "performance_rank"
  ∧ rows out
    = (λ r, <["performance_rank" := rank_cell (kpi_row <$> rows df) (kpi_row r)]>
              (kpi_row r)) <$> rows df.
Proof.
  unfold calculate_kpis. intros Hout.
  apply bind_Some in Hout as (u & Hu & Hout).
  apply bind_Some in Hout as (p & Hp & Hout).
  apply bind_Some in Hout as (e & He & Hout).
  apply bind_Some in Hout as (d1 & Hd1 & Hout).
  destruct (div_step _ _ _ _ _ _ _ _ Hu Hp He Hd1) as (_ & _ & Hc1 & Hr1).
  apply bind_Some in Hout as (d & Hd & Hout).
  apply bind_Some in Hout as (i & Hi & Hout).
  apply bind_Some in Hout as (q & Hq & Hout).
  apply bind_Some in Hout as (d2 & Hd2 & Hout).
  destruct (div_step _ _ _ _ _ _ _ _ Hd Hi Hq Hd2) as (_ & _ & Hc2 & Hr2).
  apply bind_Some in Hout as (m & Hm & Hout).
  apply bind_Some in Hout as (u' & Hu' & Hout).
  apply bind_Some in Hout as (t & Ht & Hout).
  apply bind_Some in Hout as (d3 & Hd3 & Hout).
  destruct (div_step _ _ _ _ _ _ _ _ Hm Hu' Ht Hd3) as (_ & _ & Hc3 & Hr3).
  apply bind_Some in Hout as (rk & Hrk & Hout).
  apply groupby_rank_spec in Hrk as ->.
  rewrite setitem_fmap in Hout. injection Hout as <-. simpl.
  assert (rows d3 = kpi_row <$> rows df) as Hrows.
  { rewrite Hr3, Hr2, Hr1, <-!list_fmap_compose.
    apply list_fmap_ext. intros _ r _. simpl. unfold kpi_row.
    by rewrite !fnum_insert_ne. }
  split.
  - by rewrite Hc3, Hc2, Hc1.
  - by rewrite Hrows, <-list_fmap_compose.
Qed.

(** *** Keys that compare equal *)

Lemma float_key_compare_Eq x y :
  float_key_compare x y = Eq ↔ float_key x = float_key y.
Proof.
  unfold float_key_compare. rewrite FloatAxioms.compare_spec, SFcompare_key.
  fold (float_key x) (float_key y).
  destruct (float_key x) as [a|] eqn:Ha, (float_key y) as [b|] eqn:Hb; simpl.
  - destruct (lex_compare_spec a b) as [->|Hl|Hl]; simpl.
    + done.
    + split; [done|]. intros [= ->]. by apply lex_lt_irrefl in Hl.
    + split; [done|]. intros [= ->]. by apply lex_lt_irrefl in Hl.
  - assert (PrimFloat.is_nan x = false) as ->; [|done].
    apply float_is_nan_key. by rewrite Ha.
  - apply float_is_nan_key_None in Ha. rewrite Ha.
    assert (PrimFloat.is_nan y = false) as ->; [|done].
    apply float_is_nan_key. by rewrite Hb.
  - apply float_is_nan_key_None in Ha, Hb. by rewrite Ha, Hb.
Qed.

Lemma timestamp_compare_Eq s t : timestamp_compare s t = Eq ↔ s = t.
Proof.
  split; [|intros ->; apply timestamp_compare_refl].
  destruct s as [y1 m1 d1 n1], t as [y2 m2 d2 n2]. unfold timestamp_compare. simpl.
  destruct (Z.compare_spec y1 y2); [|done..].
  destruct (Z.compare_spec m1 m2); [|done..].
  destruct (Z.compare_spec d1 d2); [|done..].
  destruct (Z.compare_spec n1 n2); [|done..]. intros _. congruence.
Qed.

Lemma cell_compare_Eq a b : cell_compare a b = Eq ↔ cell_key a = cell_key b.
Proof.
  destruct a as [x|s|[s|]], b as [y|t|[t|]]; simpl; try (split; done).
  - rewrite float_key_compare_Eq. split; [by intros ->|by intros [= ->]].
  - split; [by intros ->%String.compare_eq_iff|].
    intros [= ->]. apply string_compare_refl.
  - rewrite timestamp_compare_Eq. split; [by intros ->|by intros [= ->]].
Qed.

Lemma keys_compare_Eq_iff k1 k2 :
  keys_compare k1 k2 = Eq ↔ cell_key <$> k1 = cell_key <$> k2.
Proof.
  revert k2. induction k1 as [|a k1 IH]; intros [|b k2]; csimpl; try (split; done).
  destruct (cell_compare a b) eqn:Hab.
  - apply cell_compare_Eq in Hab. rewrite IH, Hab. split; [by intros ->|].
    by intros [= ->].
  - split; [done|]. intros [= Hk _]. apply cell_compare_Eq in Hk. congruence.
  - split; [done|]. intros [= Hk _]. apply cell_compare_Eq in Hk. congruence.
Qed.

Lemma keys_eqb_true k1 k2 :
  keys_eqb k1 k2 = true ↔ cell_key <$> k1 = cell_key <$> k2.
Proof.
  rewrite <-keys_compare_Eq_iff. unfold keys_eqb.
  by destruct (keys_compare k1 k2).
Qed.

Lemma keys_eqb_class k1 k2 k :
  keys_eqb k1 k2 = true → keys_eqb k1 k = keys_eqb k2 k.
Proof.
  intros H12%keys_eqb_true. apply eq_true_iff_eq.
  by rewrite !keys_eqb_true, H12.
Qed.

Lemma notna_cell_key a b : cell_key a = cell_key b → notna a = notna b.
Proof.
  destruct a as [x|s|[s|]], b as [y|t|[t|]]; simpl; try done.
  intros [= Hk]. unfold notna; simpl. f_equal. apply eq_true_iff_eq.
  by rewrite !float_is_nan_key_None, Hk.
Qed.

Lemma forallb_notna_class k1 k2 :
  keys_eqb k1 k2 = true → forallb notna k1 = forallb notna k2.
Proof.
  intros Hk%keys_eqb_true. revert k2 Hk.
  induction k1 as [|a k1 IH]; intros [|b k2] Hk; simplify_eq/=; [done|].
  f_equal; [by apply notna_cell_key|by apply IH].
Qed.

(** X5. [calculate_kpis] drops and adds no row: the output has one row
    for each input row, in order, with production_efficiency =
    units_produced / planned_units, defect_rate = defect_units /
    units_inspected and downtime_per_unit = downtime_minutes /
    units_produced as float64 quotients (so a zero divisor gives an
    infinity or NaN, and a missing value stays missing), and with every
    cell outside the four new columns as it was. *)
Theorem calculate_kpis_quotients df out :
  calculate_kpis df = Some out →
  Forall2 (λ (r o : row),
             o !! "production_efficiency"
             = Some (Num (fnum "units_produced" r / fnum "planned_units" r)%float)
             ∧ o !! "defect_rate"
               = Some (Num (fnum "defect_units" r / fnum "units_inspected" r)%float)
             ∧ o !! "downtime_per_unit"
               = Some (Num (fnum "downtime_minutes" r / fnum "units_produced" r)%float)
             ∧ ∀ c, c ≠ "production_efficiency" → c ≠ "defect_rate" →
                    c ≠ "downtime_per_unit" → c ≠ "performance_rank" →
                    o !! c = r !! c)
          (rows df) (rows out).
Proof.
  intros [_ ->]%calculate_kpis_spec. apply Forall2_fmap_diag. intros r.
  unfold kpi_row. split_and!.
  - rewrite (lookup_insert_ne _ "performance_rank"),
      (lookup_insert_ne _ "downtime_per_unit"),
      (lookup_insert_ne _ "defect_rate") by done.
    apply lookup_insert_eq.
  - rewrite (lookup_insert_ne _ "performance_rank"),
      (lookup_insert_ne _ "downtime_per_unit") by done.
    apply lookup_insert_eq.
  - rewrite (lookup_insert_ne _ "performance_rank") by done.
    apply lookup_insert_eq.
  - intros c ? ? ? ?. by rewrite !lookup_insert_ne.
Qed.

Lemma calculate_kpis_quotients_witness :
  ∃ out, calculate_kpis monthly_small = Some out
         ∧ length (rows out) = length (rows monthly_small).
Proof.
  assert (is_Some (calculate_kpis monthly_small)) as [out Hout]
    by (vm_compute; eexists; reflexivity).
  exists out. split; [exact Hout|].
  symmetry. exact (Forall2_length _ _ _ (calculate_kpis_quotients _ _ Hout)).
Defined.

(** *** The rank within the group *)

Lemma rank_key_insert c v (r : row) :
  c ≠ "plant_id" → c ≠ "month" → rank_key (<[c:=v]> r) = rank_key r.
Proof.
  intros. unfold rank_key, group_key, rank_keys. simpl.
  by rewrite !lookup_insert_ne.
Qed.

Lemma group_values_class rs r q :
  same_group r q = true → group_values rs r = group_values rs q.
Proof.
  intros Hrq. unfold group_values. f_equal.
  apply filter_ext_Forall, Forall_forall. intros z _.
  by apply keys_eqb_class.
Qed.

Lemma elem_of_group_values rs r y :
  y ∈ group_values rs r ↔ ∃ q, q ∈ rs ∧ same_group r q = true ∧ efficiency q = y.
Proof.
  unfold group_values. rewrite list_elem_of_fmap. split.
  - intros (q & -> & Hq). apply list_elem_of_In, filter_In in Hq as [Hq Hs].
    exists q. by rewrite list_elem_of_In.
  - intros (q & Hq & Hs & <-). exists q. split; [done|].
    apply list_elem_of_In, filter_In. by rewrite <-list_elem_of_In.
Qed.

(** The ranks of the rows of a frame, whatever the frame. *)
Lemma rank_of_dense rs :
  (∀ o q, q ∈ rs → same_group o q = true →
          ((efficiency o =? efficiency q)%float = true →
           rank_of rs o = rank_of rs q)
          ∧ ((efficiency o <? efficiency q)%float = true →
             (rank_of rs q < rank_of rs o)%nat))
  ∧ (∀ o, rank_of rs o = 1%nat ↔
          ∀ q, q ∈ rs → same_group o q = true →
               (efficiency o <? efficiency q)%float = false)
  ∧ (∀ o n, ranked o = true → rank_of rs o = S (S n) →
            ∃ q, q ∈ rs ∧ same_group o q = true ∧ ranked q = true
                 ∧ rank_of rs q = S n).
Proof.
  split_and!.
  - intros o q Hq Hs. unfold rank_of.
    rewrite <-(group_values_class rs o q Hs). split.
    + apply dense_rank_tie.
    + apply dense_rank_descending, elem_of_group_values. by exists q.
  - intros o. unfold rank_of. rewrite dense_rank_one, Forall_forall. split.
    + intros Hall q Hq Hs. apply Hall, elem_of_group_values. by exists q.
    + intros Hall y (q & Hq & Hs & <-)%elem_of_group_values. by apply Hall.
  - intros o n Ho Hr. unfold rank_of in Hr.
    apply dense_rank_no_gap in Hr as (y & Hy & Hlt & Hry).
    apply elem_of_group_values in Hy as (q & Hq & Hs & <-).
    exists q. split_and!; [done..| |].
    + unfold ranked in *. apply andb_prop in Ho as [Hk _].
      rewrite <-(forallb_notna_class _ _ Hs), Hk. simpl.
      destruct (float_ltb_not_nan _ _ Hlt) as [_ ->]. done.
    + unfold rank_of. by rewrite <-(group_values_class rs o q Hs).
Qed.

Lemma calculate_kpis_rank_cells df out :
  calculate_kpis df = Some out →
  Forall (λ o : row, o !! "performance_rank" = Some (rank_cell (rows out) o))
         (rows out).
Proof.
  intros [_ Hrows]%calculate_kpis_spec.
  set (rs := kpi_row <$> rows df) in *.
  set (ins := λ r : row, <["performance_rank" := rank_cell rs r]> r).
  assert (rows out = ins <$> rs) as ->
    by (unfold rs; by rewrite <-list_fmap_compose).
  assert (∀ r, rank_key (ins r) = rank_key r) as Hkey
    by (intros r; by apply rank_key_insert).
  assert (∀ r, efficiency (ins r) = efficiency r) as Heff
    by (intros r; by apply fnum_insert_ne).
  apply Forall_fmap, Forall_forall. intros r _. simpl.
  unfold ins at 1. rewrite lookup_insert_eq. f_equal.
  unfold rank_cell, ranked, rank_of, group_values, same_group.
  rewrite Hkey, Heff, filter_fmap, <-list_fmap_compose.
  destruct (forallb notna (rank_key r) && negb (PrimFloat.is_nan (efficiency r)));
    [|done].
  rewrite (filter_ext_Forall (λ x, keys_eqb (rank_key r) (rank_key (ins x)))
             (λ q, keys_eqb (rank_key r) (rank_key q)))
    by (apply Forall_forall; intros q _; by rewrite Hkey).
  do 3 f_equal.
  apply fmap_ext_Forall, Forall_forall. intros q _. simpl. by rewrite Heff.
Qed.

(** X6. In the output of [calculate_kpis] the performance_rank of a row
    whose plant_id and month are not missing and whose efficiency is a
    number is its dense rank, as a float, among the efficiencies of the
    rows with the same plant_id and month, in descending order: rows of a
    group with equal efficiency have the same rank, a higher efficiency
    has a smaller rank, rank 1 belongs to the rows that no row of the group
    exceeds, and below every rank of a group but the first the group has a
    row with the rank just before it.  Every other row has no rank. *)
Theorem performance_rank_is_dense df out :
  calculate_kpis df = Some out →
  Forall (λ o : row,
            o !! "performance_rank"
            = Some (if ranked o then Num (float_of_nat (rank_of (rows out) o))
                    else Num nan))
         (rows out)
  ∧ (∀ o q, q ∈ rows out → same_group o q = true →
            ((efficiency o =? efficiency q)%float = true →
             rank_of (rows out) o = rank_of (rows out) q)
            ∧ ((efficiency o <? efficiency q)%float = true →
               (rank_of (rows out) q < rank_of (rows out) o)%nat))
  ∧ (∀ o, rank_of (rows out) o = 1%nat ↔
          ∀ q, q ∈ rows out → same_group o q = true →
               (efficiency o <? efficiency q)%float = false)
  ∧ (∀ o n, ranked o = true → rank_of (rows out) o = S (S n) →
            ∃ q, q ∈ rows out ∧ same_group o q = true ∧ ranked q = true
                 ∧ rank_of (rows out) q = S n).
Proof.
  intros Hout. split; [exact (calculate_kpis_rank_cells _ _ Hout)|].
  apply rank_of_dense.
Qed.

Lemma performance_rank_is_dense_witness :
  ∃ out, calculate_kpis monthly_small = Some out
         ∧ Forall (λ o : row,
                     o !! "performance_rank"
                     = Some (if ranked o
                             then Num (float_of_nat (rank_of (rows out) o))
                             else Num nan))
                  (rows out).
Proof.
  assert (is_Some (calculate_kpis monthly_small)) as [out Hout]
    by (vm_compute; eexists; reflexivity).
  exists out. split; [exact Hout|].
  by destruct (performance_rank_is_dense _ _ Hout) as [Hall _].
Defined.

(** The ranks of the example: 1, 2, 2, 3 in plant P, 1 for the infinite
    efficiency of plant Q, none for the missing efficiency. *)
Example performance_rank_example :
  (out ← calculate_kpis monthly_example;
   Some ((λ o : row, o !! "performance_rank") <$> rows out))
  = Some [Some (Num 1); Some (Num 2); Some (Num 2); Some (Num 3);
          Some (Num 1); Some (Num nan)].
Proof. by vm_compute. Qed.

(** ** Text standardisation: which columns, in which order *)

Lemma map_cells_same_columns (f : cell → cell) cols cols' (r : row) :
  (∀ v, f (f v) = f v) → (∀ k, k ∈ cols ↔ k ∈ cols') →
  map_cells f cols r = map_cells f cols' r.
Proof.
  intros Hf Hsame. apply map_eq. intros k. rewrite !lookup_map_cells by done.
  destruct (decide (k ∈ cols)) as [Hk|Hk], (decide (k ∈ cols')) as [Hk'|Hk'];
    try done; by apply Hsame in Hk || apply Hsame in Hk'.
Qed.

Lemma map_cells_absorb (f : cell → cell) cols cols' (r : row) :
  (∀ v, f (f v) = f v) → cols' ⊆ cols →
  map_cells f cols' (map_cells f cols r) = map_cells f cols r.
Proof.
  intros Hf Hsub. apply map_eq. intros k. rewrite !lookup_map_cells by done.
  destruct (decide (k ∈ cols')) as [Hk'|]; [|done].
  rewrite decide_True by by apply Hsub.
  destruct (r !! k); simpl; by rewrite ?Hf.
Qed.

(** X7. For [clean_text] only the set of the named columns matters, not
    their order or repetition; and once columns are cleaned, cleaning any
    of them again returns the same frame (so the cleaning of product_code
    inside [map_product_master] changes nothing on a frame whose
    product_code was cleaned before).  This holds for text of every
    script, given the four facts of the upper case of Unicode. *)
Theorem clean_text_columns `{Pandas} df cols cols' :
  upper_laws →
  ((∀ c, c ∈ cols ↔ c ∈ cols') → clean_text df cols = clean_text df cols')
  ∧ (∀ d, clean_text df cols = Some d → cols' ⊆ cols → clean_text d cols' = Some d).
Proof.
  intros laws. split.
  - intros Hsame.
    assert (∀ d, clean_text df cols = Some d ↔ clean_text df cols' = Some d) as Hiff.
    { intros d. rewrite !clean_text_spec, !foldl_map_column.
      rewrite !Forall_forall.
      rewrite (fmap_ext_Forall (map_cells clean_cell cols)
                 (map_cells clean_cell cols') (rows df)); [by setoid_rewrite Hsame|].
      apply Forall_forall. intros r _.
      apply map_cells_same_columns; [by apply clean_cell_idemp|done]. }
    destruct (clean_text df cols) as [d|] eqn:Hd.
    + symmetry. by apply Hiff.
    + destruct (clean_text df cols') as [d'|] eqn:Hd'; [|done].
      by destruct (proj2 (Hiff d') eq_refl).
  - intros d [Hall ->]%clean_text_spec Hsub.
    apply clean_text_spec. rewrite !foldl_map_column. simpl. split.
    + apply Forall_forall. intros c Hc.
      apply has_column_map_cells.
      rewrite Forall_forall in Hall. by apply Hall, Hsub.
    + f_equal. rewrite <-list_fmap_compose. apply list_fmap_ext.
      intros _ r _. simpl. symmetry.
      apply map_cells_absorb; [by apply clean_cell_idemp|done].
Qed.

Lemma clean_text_columns_witness :
  @clean_text iso_pandas text_example ["product_code"; "plant_id"; "product_code"]
  = @clean_text iso_pandas text_example ["plant_id"; "product_code"].
Proof.
  apply (@clean_text_columns iso_pandas _ _ _ iso_pandas_laws). intros c.
  rewrite !elem_of_cons. tauto.
Defined.

(** ** Line codes after cleaning *)

Lemma clean_canonical `{Pandas} t :
  upper_laws → t ∈ canonical_codes → clean_cell (Str t) = Str t.
Proof.
  intros laws Ht.
  repeat (apply elem_of_cons in Ht as [->|Ht];
          [rewrite (clean_cell_ascii laws) by (by vm_compute); by vm_compute|]).
  by apply elem_of_nil in Ht.
Qed.

(** X8. [normalize_production_lines] raises exactly when the frame has no
    production_line column, and otherwise applies the table to the cells
    of that column only, leaving a value that is no key of the table as it
    is.  On a cleaned cell it yields a value that both stages leave alone:
    cleaning it or mapping it again changes nothing (for text of every
    script, given the four facts of the upper case of Unicode). *)
Theorem normalize_production_lines_frame `{Pandas} df :
  normalize_production_lines df
  = (λ _, map_column line_code "production_line" df)
      <$> getitem df "production_line"
  ∧ (∀ v, (∀ s, v = Str s → LINE_MAP !! s = None) → line_code v = v)
  ∧ (upper_laws →
     ∀ v, clean_cell (line_code (clean_cell v)) = line_code (clean_cell v)
          ∧ line_code (line_code (clean_cell v)) = line_code (clean_cell v)).
Proof.
  split_and!.
  - unfold normalize_production_lines.
    destruct (getitem df "production_line") as [s|] eqn:Hs; simpl; [|done].
    by rewrite (setitem_map _ _ _ _ Hs).
  - intros [x|s|t] Hv; simpl; try done. by rewrite (Hv s eq_refl).
  - intros laws v. split; [|apply line_code_idemp].
    unfold clean_cell at 2 3. simpl.
    destruct (LINE_MAP !! _) as [t|] eqn:Ht; simpl.
    + apply clean_canonical; [done|]. by eapply LINE_MAP_values.
    + by apply (clean_cell_idemp laws v).
Qed.

Lemma normalize_production_lines_frame_witness :
  line_code (Str "LINE09") = Str "LINE09"
  ∧ @clean_cell iso_pandas (line_code (@clean_cell iso_pandas (Str " l 1 ")))
    = line_code (@clean_cell iso_pandas (Str " l 1 ")).
Proof.
  destruct (@normalize_production_lines_frame iso_pandas text_example)
    as (_ & Hother & Hclean).
  split.
  - apply Hother. intros s [= <-]. reflexivity.
  - apply (Hclean iso_pandas_laws).
Defined.

(** ** The month column *)




(** ** The mapping: how many rows, and what is in them *)

Lemma length_bind_sum {A B} (f : A → list B) l :
  length (l ≫= f) = sum_list ((length ∘ f) <$> l).
Proof.
  induction l as [|x l IH]; [done|].
  change ((x :: l) ≫= f) with (f x ++ (l ≫= f)).
  rewrite length_app, IH. done.
Qed.

Lemma sum_list_le_length (ns : list nat) :
  Forall (λ n : nat, (n ≤ 1)%nat) ns → (sum_list ns ≤ length ns)%nat.
Proof. induction 1 as [|n ns Hn _ IH]; simpl; lia. Qed.

Lemma filter_at_most_one {A B} (f : A → B) (p : A → bool) l :
  NoDup (f <$> l) →
  (∀ x y, p x = true → p y = true → f x = f y) →
  (length (List.filter p l) ≤ 1)%nat.
Proof.
  intros Hnd Hp. induction l as [|x l IH]; simpl; [lia|].
  rewrite fmap_cons in Hnd. apply NoDup_cons in Hnd as [Hx Hnd].
  destruct (p x) eqn:Hpx; [|by apply IH].
  rewrite filter_none; [simpl; lia|].
  apply Forall_forall. intros y Hy.
  destruct (p y) eqn:Hpy; [|done].
  destruct Hx. rewrite (Hp x y Hpx Hpy). by apply list_elem_of_fmap_2.
Qed.

(** X10. The mapping can change the number of rows in both directions: an
    operational row gives one output row per master row whose cleaned raw
    code is its cleaned product code, so the output has as many rows as
    there are such pairs.  When no two master rows have the same cleaned
    raw code, every operational row gives at most one output row and the
    output is no longer than the input. *)
Theorem map_product_master_row_count `{Pandas} df pm out :
  map_product_master df pm = Some out →
  length (rows out)
  = sum_list ((λ r, length (List.filter (code_match r) (rows pm))) <$> rows df)
  ∧ (NoDup ((λ m, clean_cell (cellof "product_code_raw" m)) <$> rows pm) →
     (∀ r, (length (mapped_rows df pm r) ≤ 1)%nat)
     ∧ (length (rows out) ≤ length (rows df))%nat).
Proof.
  intros [_ Hrows]%map_product_master_spec.
  assert (∀ r, length (mapped_rows df pm r)
               = length (List.filter (code_match r) (rows pm))) as Hlen.
  { intros r. unfold mapped_rows. by rewrite length_fmap. }
  split.
  - rewrite Hrows, length_bind_sum. apply (f_equal sum_list).
    apply list_fmap_ext. intros _ r _. apply Hlen.
  - intros Hnd.
    assert (∀ r, (length (mapped_rows df pm r) ≤ 1)%nat) as Hone.
    { intros r. rewrite Hlen.
      apply (filter_at_most_one _ _ _ Hnd). intros m1 m2.
      rewrite !code_match_true.
      intros (a & b & s & Ha & Hb & Hca & Hcb) (a' & b' & s' & Ha' & Hb' & Hca' & Hcb').
      unfold cellof. rewrite Hb, Hb'. simpl. congruence. }
    split; [done|].
    rewrite Hrows, length_bind_sum.
    etrans; [apply sum_list_le_length|by rewrite length_fmap].
    apply Forall_fmap, Forall_forall. intros r _. apply Hone.
Qed.

Lemma map_product_master_row_count_witness :
  ∃ out, @map_product_master iso_pandas operations_example master_example = Some out
         ∧ (length (rows out) ≤ length (rows operations_example))%nat.
Proof.
  assert (is_Some (@map_product_master iso_pandas operations_example master_example))
    as [out Hout] by (vm_compute; eexists; reflexivity).
  exists out. split; [exact Hout|].
  destruct (@map_product_master_row_count iso_pandas _ _ _ Hout) as [_ Hunique].
  destruct Hunique as [_ Hle]; [|exact Hle].
  vm_compute. apply NoDup_ListNoDup.
  repeat constructor; simpl; intuition discriminate.
Defined.

Lemma map_product_master_labels `{Pandas} df pm out :
  map_product_master df pm = Some out →
  NoDup ((suffix_x (columns pm) <$> columns df)
           ++ (suffix_y (columns df) <$> columns pm))
  ∧ "product_code_raw" ∈ columns pm
  ∧ has_column pm "product_code_std"
  ∧ "product_code_std" ∉ columns df.
Proof.
  unfold map_product_master. intros Hout.
  apply bind_Some in Hout as (dfc & Hdfc & Hout).
  apply bind_Some in Hout as (pmc & Hpmc & Hout).
  apply bind_Some in Hout as (M & HM & Hout).
  apply bind_Some in Hout as (std & Hstd & Hout).
  apply clean_text_frame in Hdfc as (Hdf & Hlc & Hlr).
  apply (clean_text_frame pm master_columns) in Hpmc as (Hpm & Hrc & Hrr).
  apply Forall_cons in Hpm as [Hraw [Hstdc _]%Forall_cons].
  apply merge_left_spec in HM as (_ & _ & Hnd & HcolsM & HrowsM).
  rewrite Hlc, Hrc in Hnd, HcolsM.
  assert ("product_code_std" ∈ columns M) as HstdM
    by (by apply getitem_Some in Hstd as [? _]).
  rewrite HcolsM in HstdM.
  destruct (merged_label _ _ _ suffix_x_std suffix_y_std (proj1 Hstdc) HstdM)
    as (HstdL & _ & _).
  split_and!; [done|apply Hraw|apply Hstdc|done].
Qed.

(** The cells of the row that the mapping makes of an operational row and
    a master row. *)
Lemma mapped_row_joined `{Pandas} df pm out (r m : row) :
  map_product_master df pm = Some out →
  joined df pm r m (mapped_row (columns df) (columns pm) r m)
  ∧ mapped_row (columns df) (columns pm) r m !! "product_code_std"
    = clean_cell <$> m !! "product_code_std".
Proof.
  intros (Hnd & Hraw & [Hstd _] & HstdL)%map_product_master_labels.
  set (o := mapped_row (columns df) (columns pm) r m).
  pose proof Hnd as Hnd'.
  apply NoDup_app in Hnd' as (HndL & Hdisj & HndR).
  assert (∀ c, c ∈ columns pm → c ∉ columns df → c ≠ "product_code_raw" →
               o !! c = if decide (c ∈ master_columns) then clean_cell <$> m !! c
                        else m !! c) as Hright.
  { intros c Hc Hnc Hne. unfold o, mapped_row.
    rewrite lookup_delete_ne by done.
    assert (suffix_y (columns df) c = c) as Hsy
      by (unfold suffix_y; by rewrite decide_False).
    rewrite lookup_union_r.
    - pose proof (lookup_relabel (suffix_y (columns df)) (columns pm)
                    (map_cells clean_cell master_columns m) c HndR Hc) as Hlk.
      rewrite Hsy in Hlk. rewrite Hlk.
      by rewrite lookup_map_cells_NoDup by apply NoDup_master_columns.
    - apply lookup_relabel_None. intros Hin. apply (Hdisj c Hin).
      rewrite <-Hsy. by apply list_elem_of_fmap_2. }
  split; [split_and!|].
  - intros c Hc Hnc. unfold o, mapped_row.
    assert (c ≠ "product_code_raw") as Hne by (by intros ->).
    rewrite lookup_delete_ne by done.
    assert (suffix_x (columns pm) c = c) as Hsx
      by (unfold suffix_x; by rewrite decide_False).
    rewrite lookup_union_l.
    + pose proof (lookup_relabel (suffix_x (columns pm)) (columns df)
                    (map_cells clean_cell ["product_code"] r) c HndL Hc) as Hlk.
      rewrite Hsx in Hlk. rewrite Hlk.
      rewrite lookup_map_cells_NoDup by apply NoDup_code_column.
      destruct (decide (c = "product_code")) as [->|Hpc].
      * by rewrite decide_True by by left.
      * rewrite decide_False; [done|]. by rewrite list_elem_of_singleton.
    + apply lookup_relabel_None. intros Hin. apply (Hdisj c); [|done].
      rewrite <-Hsx. by apply list_elem_of_fmap_2.
  - exact Hright.
  - unfold o, mapped_row. apply lookup_delete_eq.
  - rewrite Hright by done. rewrite decide_True; [done|]. by right; left.
Qed.

(** X11. What the rows of the output of the mapping hold.  Every output
    row was made of an operational row and a master row with the same
    cleaned code, and every such pair has its output row.  Under every
    label that only the operational frame has, the row holds the
    operational cell, cleaned when the label is product_code; under every
    label that only the master has, other than product_code_raw, the
    master's cell, cleaned when it is one of the master's text columns.
    The standard code is such a label, so it is text in every output row:
    a missing standard code of a matched master row becomes the text NAN
    and the row is kept. *)
Theorem map_product_master_rows `{Pandas} df pm out :
  map_product_master df pm = Some out →
  Forall (λ o : row,
            ∃ r m : row,
              r ∈ rows df ∧ m ∈ rows pm ∧ code_match r m = true
              ∧ joined df pm r m o
              ∧ o !! "product_code_std" = clean_cell <$> m !! "product_code_std"
              ∧ ∃ s, o !! "product_code_std" = Some (Str s))
         (rows out)
  ∧ (∀ r m : row,
       r ∈ rows df → m ∈ rows pm → code_match r m = true →
       ∃ o : row, o ∈ rows out ∧ joined df pm r m o
                  ∧ o !! "product_code_std"
                    = clean_cell <$> m !! "product_code_std")
  ∧ (upper_laws →
     ∀ (r m : row) x,
       r ∈ rows df → m ∈ rows pm → code_match r m = true →
       m !! "product_code_std" = Some (Num x) → PrimFloat.is_nan x = true →
       ∃ o : row, o ∈ rows out ∧ joined df pm r m o
                  ∧ o !! "product_code_std" = Some (Str "NAN")).
Proof.
  intros Hout.
  pose proof (map_product_master_spec _ _ _ Hout) as [_ Hrows].
  pose proof (map_product_master_labels _ _ _ Hout) as (_ & _ & [_ Hstd] & _).
  assert (∀ r m : row,
            r ∈ rows df → m ∈ rows pm → code_match r m = true →
            mapped_row (columns df) (columns pm) r m ∈ rows out) as Hin.
  { intros r m Hr Hm Hc. rewrite Hrows. apply list_elem_of_bind.
    exists r. split; [|done]. apply mapped_rows_elem. by exists m. }
  split_and!.
  - apply Forall_forall. intros o Ho. rewrite Hrows in Ho.
    apply list_elem_of_bind in Ho as (r & Ho & Hr).
    apply mapped_rows_elem in Ho as (m & Hm & Hc & ->).
    destruct (mapped_row_joined _ _ _ r m Hout) as [Hj Hs].
    exists r, m. split_and!; [done..|].
    rewrite Hs. rewrite Forall_forall in Hstd.
    destruct (Hstd m Hm) as [v ->]. simpl. unfold clean_cell. by eexists.
  - intros r m Hr Hm Hc.
    destruct (mapped_row_joined _ _ _ r m Hout) as [Hj Hs].
    eexists. split_and!; [by apply Hin|done..].
  - intros laws r m x Hr Hm Hc Hx Hnan.
    destruct (mapped_row_joined _ _ _ r m Hout) as [Hj Hs].
    eexists. split_and!; [by apply Hin|done|].
    rewrite Hs, Hx. simpl. f_equal. by apply clean_cell_nan.
Qed.

Lemma map_product_master_rows_witness :
  ∃ out (o : row),
    @map_product_master iso_pandas operations_example master_missing_std = Some out
    ∧ o ∈ rows out
    ∧ o !! "product_code_std" = Some (Str "NAN").
Proof.
  assert (is_Some (@map_product_master iso_pandas operations_example master_missing_std))
    as [out Hout] by (vm_compute; eexists; reflexivity).
  destruct (@map_product_master_rows iso_pandas _ _ _ Hout) as (_ & _ & Hnan).
  destruct (Hnan iso_pandas_laws
              (default ∅ (rows operations_example !! 2%nat))
              (default ∅ (rows master_missing_std !! 1%nat)) nan)
    as (o & Ho & _ & Hstd).
  - by apply (list_elem_of_lookup_2 _ 2%nat).
  - by apply (list_elem_of_lookup_2 _ 1%nat).
  - by vm_compute.
  - by vm_compute.
  - done.
  - exists out, o. split; [exact Hout|]. split; [exact Ho|exact Hstd].
Defined.

(** ** The order of keys *)

Lemma lex_compare_Lt a b : lex_compare a b = Lt ↔ lex_lt a b.
Proof.
  destruct (lex_compare_spec a b) as [->|Hl|Hl]; split; try done.
  - intros Hl. by apply lex_lt_irrefl in Hl.
  - intros Hl'. destruct (lex_lt_irrefl a). by eapply lex_lt_trans.
Qed.

Lemma lex_compare_antisym a b : lex_compare b a = CompOpp (lex_compare a b).
Proof.
  destruct a as [[a1 a2] a3], b as [[b1 b2] b3]. unfold lex_compare. simpl.
  rewrite (Z.compare_antisym a1 b1), (Z.compare_antisym a2 b2),
    (Z.compare_antisym a3 b3).
  destruct (a1 ?= b1)%Z; simpl; try done.
  by destruct (a2 ?= b2)%Z.
Qed.

Lemma float_key_compare_key x y :
  float_key_compare x y
  = match float_key x, float_key y with
    | Some a, Some b => lex_compare a b
    | Some _, None => Lt
    | None, Some _ => Gt
    | None, None => Eq
    end.
Proof.
  unfold float_key_compare. rewrite FloatAxioms.compare_spec, SFcompare_key.
  fold (float_key x) (float_key y).
  destruct (float_key x) as [a|] eqn:Ha, (float_key y) as [b|] eqn:Hb; simpl.
  - by destruct (lex_compare a b).
  - assert (PrimFloat.is_nan x = false) as ->; [|done].
    apply float_is_nan_key. by rewrite Ha.
  - apply float_is_nan_key_None in Ha. rewrite Ha.
    assert (PrimFloat.is_nan y = false) as ->; [|done].
    apply float_is_nan_key. by rewrite Hb.
  - apply float_is_nan_key_None in Ha, Hb. by rewrite Ha, Hb.
Qed.

Lemma float_key_compare_antisym x y :
  float_key_compare y x = CompOpp (float_key_compare x y).
Proof.
  rewrite !float_key_compare_key.
  destruct (float_key x), (float_key y); try done. apply lex_compare_antisym.
Qed.

Lemma float_key_compare_trans x y z :
  float_key_compare x y = Lt → float_key_compare y z = Lt →
  float_key_compare x z = Lt.
Proof.
  rewrite !float_key_compare_key.
  destruct (float_key x), (float_key y), (float_key z); try done.
  rewrite !lex_compare_Lt. apply lex_lt_trans.
Qed.

Lemma timestamp_compare_Lt s t :
  timestamp_compare s t = Lt ↔
  (ts_year s < ts_year t
   ∨ (ts_year s = ts_year t
      ∧ (ts_month s < ts_month t
         ∨ (ts_month s = ts_month t
            ∧ (ts_day s < ts_day t
               ∨ (ts_day s = ts_day t ∧ ts_nanos s < ts_nanos t))))))%Z.
Proof.
  unfold timestamp_compare.
  destruct (Z.compare_spec (ts_year s) (ts_year t)); [|split; (done || lia)..].
  destruct (Z.compare_spec (ts_month s) (ts_month t)); [|split; (done || lia)..].
  destruct (Z.compare_spec (ts_day s) (ts_day t)); [|split; (done || lia)..].
  destruct (Z.compare_spec (ts_nanos s) (ts_nanos t)); split; (done || lia).
Qed.

Lemma timestamp_compare_antisym s t :
  timestamp_compare t s = CompOpp (timestamp_compare s t).
Proof.
  unfold timestamp_compare.
  rewrite (Z.compare_antisym (ts_year s) (ts_year t)),
    (Z.compare_antisym (ts_month s) (ts_month t)),
    (Z.compare_antisym (ts_day s) (ts_day t)),
    (Z.compare_antisym (ts_nanos s) (ts_nanos t)).
  destruct (ts_year s ?= ts_year t)%Z; simpl; try done.
  destruct (ts_month s ?= ts_month t)%Z; simpl; try done.
  by destruct (ts_day s ?= ts_day t)%Z.
Qed.

Lemma timestamp_compare_trans s t u :
  timestamp_compare s t = Lt → timestamp_compare t u = Lt →
  timestamp_compare s u = Lt.
Proof. rewrite !timestamp_compare_Lt. lia. Qed.

Lemma ascii_compare_refl a : Ascii.compare a a = Eq.
Proof. unfold Ascii.compare. apply N.compare_refl. Qed.

Lemma ascii_compare_trans a b c :
  Ascii.compare a b = Lt → Ascii.compare b c = Lt → Ascii.compare a c = Lt.
Proof. unfold Ascii.compare. rewrite !N.compare_lt_iff. lia. Qed.

Lemma string_compare_trans s t u :
  String.compare s t = Lt → String.compare t u = Lt → String.compare s u = Lt.
Proof.
  revert t u. induction s as [|a s IH]; intros [|b t] [|c u]; simpl; try done.
  destruct (Ascii.compare a b) eqn:Hab; try done.
  - apply Ascii.compare_eq_iff in Hab as ->.
    destruct (Ascii.compare b c); try done. apply IH.
  - destruct (Ascii.compare b c) eqn:Hbc; try done.
    + apply Ascii.compare_eq_iff in Hbc as ->. by rewrite Hab.
    + by rewrite (ascii_compare_trans a b c).
Qed.

Lemma cell_compare_antisym a b : cell_compare b a = CompOpp (cell_compare a b).
Proof.
  destruct a as [x|s|[s|]], b as [y|t|[t|]]; simpl; try done.
  - apply float_key_compare_antisym.
  - apply String.compare_antisym.
  - apply timestamp_compare_antisym.
Qed.

Lemma cell_compare_trans a b c :
  cell_compare a b = Lt → cell_compare b c = Lt → cell_compare a c = Lt.
Proof.
  destruct a as [x|s|[s|]], b as [y|t|[t|]], c as [z|u|[u|]]; simpl; try done.
  - apply float_key_compare_trans.
  - apply string_compare_trans.
  - apply timestamp_compare_trans.
Qed.

(** Values that compare equal compare alike with every value. *)
Lemma cell_compare_class a b c :
  cell_compare a b = Eq → cell_compare a c = cell_compare b c.
Proof.
  destruct a as [x|s|[s|]], b as [y|t|[t|]]; simpl; try done.
  - intros Hxy%float_key_compare_Eq. destruct c as [z|u|u]; simpl; [|done..].
    by rewrite !float_key_compare_key, Hxy.
  - by intros ->%String.compare_eq_iff.
  - by intros ->%timestamp_compare_Eq.
Qed.

Lemma cell_compare_class_r a b c :
  cell_compare a b = Eq → cell_compare c a = cell_compare c b.
Proof.
  intros Hab. rewrite (cell_compare_antisym a c), (cell_compare_antisym b c).
  by rewrite (cell_compare_class a b c).
Qed.

Lemma keys_compare_antisym k1 k2 :
  keys_compare k2 k1 = CompOpp (keys_compare k1 k2).
Proof.
  revert k2. induction k1 as [|a k1 IH]; intros [|b k2]; simpl; try done.
  rewrite (cell_compare_antisym a b).
  destruct (cell_compare a b); simpl; [apply IH|done..].
Qed.

Lemma keys_compare_class k1 k2 k :
  keys_compare k1 k2 = Eq → keys_compare k1 k = keys_compare k2 k.
Proof.
  revert k2 k. induction k1 as [|a k1 IH]; intros [|b k2] [|c k]; simpl; try done.
  destruct (cell_compare a b) eqn:Hab; try done. intros Hk.
  rewrite (cell_compare_class a b c Hab).
  destruct (cell_compare b c); try done. by apply IH.
Qed.

Lemma keys_compare_class_r k1 k2 k :
  keys_compare k1 k2 = Eq → keys_compare k k1 = keys_compare k k2.
Proof.
  intros Hk. rewrite (keys_compare_antisym k1 k), (keys_compare_antisym k2 k).
  by rewrite (keys_compare_class k1 k2 k).
Qed.

Lemma keys_compare_trans k1 k2 k3 :
  keys_compare k1 k2 = Lt → keys_compare k2 k3 = Lt → keys_compare k1 k3 = Lt.
Proof.
  revert k2 k3. induction k1 as [|a k1 IH]; intros [|b k2] [|c k3]; simpl; try done.
  destruct (cell_compare a b) eqn:Hab; try done.
  - rewrite (cell_compare_class a b c Hab).
    destruct (cell_compare b c); try done. apply IH.
  - destruct (cell_compare b c) eqn:Hbc; try done.
    + by rewrite <-(cell_compare_class_r b c a Hbc), Hab.
    + by rewrite (cell_compare_trans a b c).
Qed.

Lemma keys_compare_Gt k1 k2 : keys_compare k1 k2 = Gt → keys_compare k2 k1 = Lt.
Proof. intros Hk. by rewrite keys_compare_antisym, Hk. Qed.

Lemma keys_eqb_false_Lt k1 k2 : keys_compare k1 k2 = Lt → keys_eqb k1 k2 = false.
Proof. unfold keys_eqb. by intros ->. Qed.

Lemma keys_eqb_sym k1 k2 : keys_eqb k1 k2 = keys_eqb k2 k1.
Proof.
  unfold keys_eqb. rewrite (keys_compare_antisym k1 k2).
  by destruct (keys_compare k1 k2).
Qed.

(** ** Groups: order, members and sums *)

Lemma keys_eqb_Eq k1 k2 : keys_eqb k1 k2 = true ↔ keys_compare k1 k2 = Eq.
Proof. unfold keys_eqb. by destruct (keys_compare k1 k2). Qed.

Lemma insert_group_sorted k r gs :
  StronglySorted (λ g1 g2 : group, keys_compare g1.1 g2.1 = Lt) gs →
  StronglySorted (λ g1 g2 : group, keys_compare g1.1 g2.1 = Lt)
                 (insert_group k r gs).
Proof.
  induction 1 as [|g gs Hs IH Hg]; simpl.
  - repeat constructor.
  - destruct (keys_compare k g.1) eqn:Hk.
    + by constructor.
    + constructor; [by constructor|]. constructor; [done|].
      eapply Forall_impl; [exact Hg|]. intros g' Hg'. simpl in *.
      by eapply keys_compare_trans.
    + constructor; [done|].
      apply (insert_group_keys (λ k', keys_compare g.1 k' = Lt));
        [by apply keys_compare_Gt|done].
Qed.

Lemma insert_group_nonempty k r gs :
  Forall (λ g : group, g.2 ≠ []) gs →
  Forall (λ g : group, g.2 ≠ []) (insert_group k r gs).
Proof.
  induction 1 as [|g gs Hg Hgs IH]; simpl.
  - by repeat constructor.
  - destruct (keys_compare k g.1); repeat constructor; try done.
    simpl. by destruct (g.2).
Qed.

Lemma foldl_groups_nonempty l gs :
  Forall (λ g : group, g.2 ≠ []) gs →
  Forall (λ g : group, g.2 ≠ []) (foldl group_step gs l).
Proof.
  revert gs. induction l as [|p l IH]; intros gs Hgs; [done|].
  simpl. apply IH. unfold group_step.
  destruct (forallb notna p.1); [|done]. by apply insert_group_nonempty.
Qed.

(** Adding a row to sorted groups: the group of its key gets the row at
    its end, and no other group changes. *)
Lemma insert_group_members (M : list cell → list row) k r gs :
  StronglySorted (λ g1 g2 : group, keys_compare g1.1 g2.1 = Lt) gs →
  Forall (λ g : group, g.2 = M g.1) gs →
  (M k ≠ [] → Exists (λ g : group, keys_compare k g.1 = Eq) gs) →
  Forall (λ g : group, g.2 = M g.1 ++ (if keys_eqb k g.1 then [r] else []))
         (insert_group k r gs).
Proof.
  intros Hs. induction Hs as [|g gs Hs IH Hg]; intros HM Hk; simpl.
  - constructor; [|done]. simpl. unfold keys_eqb. rewrite keys_compare_refl.
    destruct (M k) as [|q qs]; [done|].
    assert (Exists (λ g : group, keys_compare k g.1 = Eq) []) as Hex by by apply Hk.
    by apply Exists_nil in Hex.
  - apply Forall_cons in HM as [HMg HM].
    destruct (keys_compare k g.1) eqn:Hkg.
    + constructor.
      * simpl. unfold keys_eqb. by rewrite Hkg, HMg.
      * rewrite Forall_forall in HM, Hg. apply Forall_forall. intros g' Hg'.
        rewrite (keys_eqb_false_Lt k g'.1), app_nil_r; [by apply HM|].
        rewrite (keys_compare_class k g.1 g'.1 Hkg). by apply Hg.
    + assert (Forall (λ g' : group, keys_compare k g'.1 = Lt) (g :: gs)) as Hlt.
      { constructor; [done|]. eapply Forall_impl; [exact Hg|].
        intros g' Hg'. simpl in *. by eapply keys_compare_trans. }
      constructor.
      * simpl. unfold keys_eqb. rewrite keys_compare_refl.
        destruct (M k) as [|q qs]; [done|].
        assert (Exists (λ g : group, keys_compare k g.1 = Eq) (g :: gs)) as Hex
          by by apply Hk.
        apply Exists_exists in Hex as (g' & Hg' & Heq).
        rewrite Forall_forall in Hlt. specialize (Hlt g' Hg'). congruence.
      * rewrite Forall_forall in Hlt. apply Forall_forall. intros g' Hg'.
        rewrite (keys_eqb_false_Lt k g'.1), app_nil_r by by apply Hlt.
        apply elem_of_cons in Hg' as [->|Hg']; [done|].
        rewrite Forall_forall in HM. by apply HM.
    + constructor.
      * unfold keys_eqb. by rewrite Hkg, app_nil_r.
      * apply IH; [done|]. intros Hne.
        apply Exists_cons in Hk as [Hk|Hk]; [congruence|done|done].
Qed.

Lemma foldl_groups_members l :
  StronglySorted (λ g1 g2 : group, keys_compare g1.1 g2.1 = Lt)
                 (foldl group_step [] l)
  ∧ Forall (λ g : group,
              g.2 = snd <$> List.filter
                              (λ p : list cell * row,
                                 forallb notna p.1 && keys_eqb p.1 g.1) l)
           (foldl group_step [] l).
Proof.
  induction l as [|p l [Hs HM]] using rev_ind.
  - split; constructor.
  - rewrite foldl_app. simpl. unfold group_step at 1 3.
    destruct (forallb notna p.1) eqn:Hn.
    + split; [by apply insert_group_sorted|].
      pose proof (insert_group_members
        (λ k', snd <$> List.filter
                         (λ p : list cell * row,
                            forallb notna p.1 && keys_eqb p.1 k') l)
        p.1 p.2 _ Hs HM) as Hins.
      eapply Forall_impl; [apply Hins|].
      * intros Hne.
        destruct (List.filter _ l) as [|[kq rq] qs] eqn:Hq; [done|].
        assert (In (kq, rq) (List.filter
                  (λ p0 : list cell * row,
                     forallb notna p0.1 && keys_eqb p0.1 p.1) l)) as Hin
          by (rewrite Hq; by left).
        apply filter_In in Hin as [Hql [Hqn Hqk]%andb_prop]. simpl in *.
        apply list_elem_of_In in Hql.
        pose proof (foldl_groups_has l [] kq rq Hql Hqn) as Hg.
        eapply Exists_impl; [exact Hg|]. intros g [Hg' _]. simpl.
        apply keys_eqb_Eq in Hqk.
        by rewrite <-(keys_compare_class kq p.1 g.1 Hqk).
      * intros g ->. simpl. rewrite List.filter_app, fmap_app. f_equal.
        simpl. rewrite Hn. simpl. by destruct (keys_eqb p.1 g.1).
    + split; [done|]. eapply Forall_impl; [exact HM|]. intros g ->. simpl.
      rewrite List.filter_app, fmap_app. simpl. rewrite Hn. simpl.
      by rewrite app_nil_r.
Qed.

Lemma zip_key_filter {A B} (f : A → B) (q : B → bool) (l : list A) :
  snd <$> List.filter (λ p : B * A, q p.1) (zip (f <$> l) l)
  = List.filter (λ x, q (f x)) l.
Proof.
  induction l as [|x l IH]; csimpl; [done|].
  destruct (q (f x)); csimpl; by rewrite IH.
Qed.

(** The groups of [groupby]: in ascending order of their keys, each with
    a key without a missing value and, as members, the rows of that key in
    the order of the frame. *)
Lemma groupby_members df keys gs :
  groupby df keys = Some gs →
  StronglySorted (λ g1 g2 : group, keys_compare g1.1 g2.1 = Lt) gs
  ∧ Forall (λ g : group,
              length g.1 = length keys ∧ forallb notna g.1 = true ∧ g.2 ≠ []
              ∧ g.2 = List.filter (λ r, keys_eqb (row_key keys r) g.1) (rows df))
           gs
  ∧ (∀ r : row, r ∈ rows df → forallb notna (row_key keys r) = true →
                Exists (λ g : group, keys_compare (row_key keys r) g.1 = Eq) gs).
Proof.
  intros (ks & Hks & ->)%groupby_spec.
  pose proof (mapM_Some_default _ [] _ _ Hks) as Hkeys.
  change (λ x, default [] (group_key keys x)) with (row_key keys) in Hkeys.
  apply mapM_Some in Hks. subst ks.
  destruct (foldl_groups_members (zip (row_key keys <$> rows df) (rows df)))
    as [Hs HM].
  split_and!; [done| |].
  - assert (Forall (λ g : group, length g.1 = length keys ∧ forallb notna g.1 = true)
              (foldl group_step [] (zip (row_key keys <$> rows df) (rows df))))
      as Hk.
    { apply (foldl_groups_keys
               (λ k, length k = length keys ∧ forallb notna k = true));
        [constructor|].
      apply Forall_forall. intros [k r] Hin Hn. simpl in *. split; [|done].
      apply list_elem_of_lookup in Hin as [i Hi].
      apply lookup_zip_with_Some in Hi as (k' & r' & [= <- <-] & Hk & Hr).
      destruct (Forall2_lookup_l _ _ _ _ _ Hks Hr) as (k' & Hk' & Hgk).
      rewrite Hk in Hk'. injection Hk' as <-. by eapply group_key_length. }
    pose proof (foldl_groups_nonempty
                  (zip (row_key keys <$> rows df) (rows df)) []
                  (Forall_nil_2 _)) as Hne.
    rewrite Forall_forall in Hk, Hne, HM. apply Forall_forall. intros g Hg.
    destruct (Hk g Hg) as [Hlen Hn]. split_and!; [done|done|by apply Hne|].
    rewrite (HM g Hg).
    rewrite (zip_key_filter (row_key keys)
               (λ k, forallb notna k && keys_eqb k g.1)).
    apply filter_ext_Forall, Forall_forall. intros r _. simpl.
    destruct (keys_eqb (row_key keys r) g.1) eqn:He; [|by rewrite andb_false_r].
    by rewrite (forallb_notna_class _ _ He), Hn.
  - intros r Hr Hn.
    assert ((row_key keys r, r) ∈ zip (row_key keys <$> rows df) (rows df)) as Hin.
    { apply list_elem_of_lookup in Hr as [i Hi].
      apply list_elem_of_lookup. exists i.
      rewrite lookup_zip_with, list_lookup_fmap, Hi. done. }
    pose proof (foldl_groups_has _ [] _ _ Hin Hn) as Hg.
    eapply Exists_impl; [exact Hg|]. by intros g [Hg' _].
Qed.

(** The output row of a group holds the key of the group and, for each
    sum, the sum of the column over the members of the group. *)
Lemma groupby_agg_sum_rows `{Pandas} df keys aggs out :
  groupby_agg_sum df keys aggs = Some out → NoDup (keys ++ (fst <$> aggs)) →
  ∃ gs, groupby df keys = Some gs
        ∧ Forall2 (λ (g : group) (o : row),
                     row_key keys o = g.1
                     ∧ Forall (λ a : string * string,
                                 forallb (is_num_cell a.2) g.2 = true
                                 ∧ o !! a.1
                                   = Some (Num (group_sum
                                                  (List.filter
                                                     (λ x, negb (PrimFloat.is_nan x))
                                                     (fnum a.2 <$> g.2)))))
                              aggs)
                  gs (rows out).
Proof.
  unfold groupby_agg_sum. intros (gs & Hgs & Hout)%bind_Some Hnd.
  destruct (has_columns df (snd <$> aggs)); [|done].
  apply bind_Some in Hout as (rs & Hrs & [= <-]).
  exists gs. split; [done|]. simpl.
  destruct (groupby_members _ _ _ Hgs) as (_ & Hall & _).
  apply mapM_Some in Hrs.
  apply Forall2_same_length_lookup_2; [by eapply Forall2_length|].
  intros i g o Hg Ho.
  pose proof (Forall2_lookup_lr _ _ _ _ _ _ Hrs Hg Ho) as Hgo. simpl in Hgo.
  apply bind_Some in Hgo as (sums & Hsums & [= <-]).
  destruct (Forall_lookup_1 _ _ _ _ Hall Hg) as (Hlen & _).
  pose proof (length_mapM _ _ _ Hsums) as Hls.
  apply mapM_Some in Hsums.
  assert (NoDup ((zip keys g.1 ++ zip (fst <$> aggs) sums).*1)) as Hnd'.
  { rewrite fmap_app, !fst_zip; [done|rewrite length_fmap; lia|lia]. }
  split.
  - unfold row_key, group_key.
    assert (mapM (λ c, (list_to_map (zip keys g.1 ++ zip (fst <$> aggs) sums) : row)
                         !! c) keys = Some g.1) as ->; [|done].
    apply mapM_Some, Forall2_same_length_lookup_2; [done|].
    intros j c v Hc Hv. apply elem_of_list_to_map_1; [done|].
    apply elem_of_app. left. apply list_elem_of_lookup. exists j.
    by rewrite lookup_zip_with, Hc; simpl; rewrite Hv.
  - apply Forall_lookup_2. intros j a Ha.
    destruct (Forall2_lookup_l _ _ _ _ _ Hsums Ha) as (v & Hv & Hav).
    apply bind_Some in Hav as (s & Hs & Hsum).
    unfold series_sum in Hsum. apply bind_Some in Hsum as (xs & Hxs & [= <-]).
    rewrite (mapM_lookup_floats _ _ _ Hs) in Hxs.
    destruct (forallb (is_num_cell a.2) g.2); [|done]. injection Hxs as <-.
    split; [done|]. unfold nansum.
    apply elem_of_list_to_map_1; [done|].
    apply elem_of_app. right. apply list_elem_of_lookup. exists j.
    by rewrite lookup_zip_with, list_lookup_fmap, Ha; simpl; rewrite Hv.
Qed.

Lemma groupby_agg_sum_by_key `{Pandas} df keys aggs out :
  groupby_agg_sum df keys aggs = Some out → NoDup (keys ++ (fst <$> aggs)) →
  sums_by_key keys aggs df out.
Proof.
  intros Hout Hnd.
  destruct (groupby_agg_sum_rows _ _ _ _ Hout Hnd) as (gs & Hgs & Hrows).
  destruct (groupby_members _ _ _ Hgs) as (_ & Hall & Hin).
  split.
  - apply Forall_lookup_2. intros i o Ho.
    destruct (Forall2_lookup_r _ _ _ _ _ Hrows Ho) as (g & Hg & Hkey & Hsums).
    destruct (Forall_lookup_1 _ _ _ _ Hall Hg) as (_ & Hn & Hne & Hmem).
    unfold members. rewrite Hkey, <-Hmem. by rewrite Hn.
  - intros r Hr Hn. specialize (Hin r Hr Hn).
    apply Exists_exists in Hin as (g & Hg & Hcmp).
    apply list_elem_of_lookup in Hg as [i Hi].
    destruct (Forall2_lookup_l _ _ _ _ _ Hrows Hi) as (o & Ho & Hkey & _).
    exists o. split; [by eapply list_elem_of_lookup_2|].
    rewrite Hkey. by apply keys_eqb_Eq.
Qed.

Lemma StronglySorted_lookup {A} (R : A → A → Prop) l i j x y :
  StronglySorted R l → (i < j)%nat → l !! i = Some x → l !! j = Some y → R x y.
Proof.
  intros Hs. revert i j. induction Hs as [|a l Hs IH Ha]; intros i j Hij Hx Hy.
  - done.
  - destruct j as [|j]; [lia|]. simpl in Hy. destruct i as [|i]; simpl in Hx.
    + injection Hx as <-. rewrite Forall_forall in Ha.
      by eapply Ha, list_elem_of_lookup_2.
    + apply (IH i j); [lia|done..].
Qed.

Lemma groupby_agg_sum_sorted `{Pandas} df keys aggs out i j (o1 o2 : row) :
  groupby_agg_sum df keys aggs = Some out → NoDup (keys ++ (fst <$> aggs)) →
  (i < j)%nat → rows out !! i = Some o1 → rows out !! j = Some o2 →
  key_before keys o1 o2.
Proof.
  intros Hout Hnd Hij H1 H2.
  destruct (groupby_agg_sum_rows _ _ _ _ Hout Hnd) as (gs & Hgs & Hrows).
  destruct (groupby_members _ _ _ Hgs) as (Hs & _ & _).
  destruct (Forall2_lookup_r _ _ _ _ _ Hrows H1) as (g1 & Hg1 & Hk1 & _).
  destruct (Forall2_lookup_r _ _ _ _ _ Hrows H2) as (g2 & Hg2 & Hk2 & _).
  unfold key_before. rewrite Hk1, Hk2.
  apply (StronglySorted_lookup _ _ _ _ _ _ Hs Hij Hg1 Hg2).
Qed.

Lemma NoDup_production_labels :
  NoDup (production_keys ++ (fst <$> production_sums)).
Proof. apply (bool_decide_unpack _). by vm_compute. Qed.

Lemma NoDup_quality_labels : NoDup (quality_keys ++ (fst <$> quality_sums)).
Proof. apply (bool_decide_unpack _). by vm_compute. Qed.

(** X14. The two aggregations group as a GROUP BY does.  Every output
    row has a key without a missing value; its group, the input rows of
    that key, is not empty and holds a number in each summed column; and
    each of its sums is what the sum of pandas returns for the numbers of
    that column that are not missing, over the rows of its group in the
    order of the input.  Every input row whose key has no missing value is
    in the group of an output row. *)
Theorem aggregations_sum_by_key `{Pandas} df out :
  (aggregate_production df = Some out →
   sums_by_key production_keys production_sums df out)
  ∧ (aggregate_quality df = Some out →
     sums_by_key quality_keys quality_sums df out).
Proof.
  split; intros Hout.
  - apply (groupby_agg_sum_by_key _ _ _ _ Hout NoDup_production_labels).
  - apply (groupby_agg_sum_by_key _ _ _ _ Hout NoDup_quality_labels).
Qed.

Lemma aggregations_sum_by_key_witness :
  ∃ out, @aggregate_production iso_pandas bad_date_months = Some out
         ∧ @sums_by_key iso_pandas production_keys production_sums
             bad_date_months out.
Proof.
  assert (is_Some (@aggregate_production iso_pandas bad_date_months)) as [out Hout]
    by (vm_compute; eexists; reflexivity).
  exists out. split; [exact Hout|].
  apply (proj1 (@aggregations_sum_by_key iso_pandas bad_date_months out) Hout).
Defined.

(** X15. The output rows of the two aggregations are in ascending order
    of their keys (the key columns compared one after the other), so no
    two output rows have the same key. *)
Theorem aggregations_are_sorted `{Pandas} df out i j (o1 o2 : row) :
  (i < j)%nat → rows out !! i = Some o1 → rows out !! j = Some o2 →
  (aggregate_production df = Some out →
   key_before production_keys o1 o2
   ∧ keys_eqb (row_key production_keys o1) (row_key production_keys o2) = false)
  ∧ (aggregate_quality df = Some out →
     key_before quality_keys o1 o2
     ∧ keys_eqb (row_key quality_keys o1) (row_key quality_keys o2) = false).
Proof.
  intros Hij H1 H2. split; intros Hout.
  - pose proof (groupby_agg_sum_sorted _ _ _ _ _ _ _ _ Hout
                  NoDup_production_labels Hij H1 H2) as Hlt.
    split; [done|]. by apply keys_eqb_false_Lt.
  - pose proof (groupby_agg_sum_sorted _ _ _ _ _ _ _ _ Hout
                  NoDup_quality_labels Hij H1 H2) as Hlt.
    split; [done|]. by apply keys_eqb_false_Lt.
Qed.

Lemma aggregations_are_sorted_witness :
  ∃ out o1 o2,
    @aggregate_production iso_pandas bad_date_months = Some out
    ∧ rows out !! 0%nat = Some o1 ∧ rows out !! 1%nat = Some o2
    ∧ key_before production_keys o1 o2.
Proof.
  assert (∃ out o1 o2,
            @aggregate_production iso_pandas bad_date_months = Some out
            ∧ rows out !! 0%nat = Some o1 ∧ rows out !! 1%nat = Some o2)
    as (out & o1 & o2 & Hout & H1 & H2)
    by (vm_compute; eexists _, _, _; split_and!; reflexivity).
  exists out, o1, o2. split_and!; [exact Hout|exact H1|exact H2|].
  apply (proj1 (@aggregations_are_sorted iso_pandas bad_date_months out 0 1 o1 o2
                  (Nat.lt_0_1) H1 H2) Hout).
Defined.

(** ** When the KPIs can be computed *)








(** ** From the KPIs to the score *)

Lemma scorableb_kpis df d c :
  calculate_kpis df = Some d →
  c ∈ ["production_efficiency"; "defect_rate"; "downtime_per_unit"] →
  scorableb d c = true.
Proof.
  intros [Hc Hr]%calculate_kpis_spec Hin. unfold scorableb. rewrite Hc, Hr.
  apply andb_true_intro. split.
  - apply bool_decide_eq_true.
    repeat (apply elem_of_cons in Hin as [->|Hin]; [
      repeat (rewrite with_column_elem by done); apply elem_of_with_column|]).
    by apply elem_of_nil in Hin.
  - apply forallb_forall. intros o (r & <- & _)%in_map_iff.
    unfold scorable_cell, kpi_row.
    repeat (apply elem_of_cons in Hin as [->|Hin]; [
      repeat (rewrite lookup_insert_ne by done); by rewrite lookup_insert_eq|]).
    by apply elem_of_nil in Hin.
Qed.

Lemma kpi_rank_insert c v (r : row) :
  c ≠ "performance_rank" → kpi c (<["performance_rank" := v]> r) = kpi c r.
Proof. intros Hc. unfold kpi. by rewrite lookup_insert_ne. Qed.

(** X17. The two last stages compose: [risk_scoring] never raises on a
    frame that [calculate_kpis] returned.  It scores every row, in order,
    and the score of a row is the clipped weighted sum of the three
    quotients of the same input row; the rank plays no part in it. *)
Theorem kpis_are_scored df d :
  calculate_kpis df = Some d →
  ∃ out, risk_scoring d = Some out
         ∧ Forall2 (λ (r o : row),
                      o !! "risk_score" = Some (Num (risk_score (kpi_row r)))
                      ∧ o !! "risk_level" = Some (risk_level (kpi_row r)))
                   (rows df) (rows out).
Proof.
  intros Hd. rewrite risk_scoring_spec.
  rewrite !(scorableb_kpis df d) by (done || rewrite !elem_of_cons; auto).
  simpl. eexists. split; [done|]. simpl.
  apply calculate_kpis_spec in Hd as [_ ->].
  rewrite <-list_fmap_compose. apply Forall2_fmap_diag. intros r. simpl.
  assert (∀ v, raw_score (<["performance_rank" := v]> (kpi_row r))
               = raw_score (kpi_row r)) as Hraw.
  { intros v. unfold raw_score. by rewrite !kpi_rank_insert. }
  unfold scored_row. split.
  - rewrite lookup_insert_ne by done. rewrite lookup_insert_eq.
    unfold risk_score. by rewrite Hraw.
  - rewrite lookup_insert_eq. unfold risk_level, risk_score. by rewrite Hraw.
Qed.

Lemma kpis_are_scored_witness :
  ∃ d out, calculate_kpis monthly_small = Some d ∧ risk_scoring d = Some out.
Proof.
  assert (is_Some (calculate_kpis monthly_small)) as [d Hd]
    by (vm_compute; eexists; reflexivity).
  destruct (kpis_are_scored _ _ Hd) as (out & Hout & _).
  exists d, out. split; [exact Hd|exact Hout].
Defined.
